(** * pycox: Breslow baseline hazards and Cox survival inference

    A shallow embedding of [pycox/models/cox.py].

    Numbers.  The program computes on numpy [float64] arrays.  Here a
    float is an _extended number_ over a field [F]: a finite value, or one of
    the IEEE special values [+inf], [-inf], [NaN].  The special values
    follow the IEEE rules, because the program handles them on purpose
    ([fillna], division by a zero sum).  The operations on finite values
    are those of the instance of [Number] at hand: exact over the
    rationals and the reals, rounded to 53 bits in [binary64].  A
    property that needs a law of arithmetic names it as a hypothesis:
    [NumberLaws] holds of exact arithmetic only, [UnitLaws],
    [RoundedLaws] and [FloatExpLaws] of floating point as well.  The
    exponential leaves the finite range at both ends ([exp_overflows]
    upward, [fexp x = 0] downward; [float_exp] has the thresholds of
    binary64).  A sum, product or quotient of finite values is finite:
    the overflow of these operations is not modelled, and there is no
    signed zero.  Durations only need an order, so they live in any
    totally ordered type [T].

    External collaborators (the network behind [self.predict], pandas'
    random sampler, [lifelines.utils.concordance_index], row selection
    through [pyth.tuplefy]) are the fields of the class [External].

    Exceptions are values of [result]; methods that read or write the
    attributes of [self] run in the state and exception monad [M]. *)

From Stdlib Require Import List ZArith Bool Lia QArith Qcanon Reals Lra.
From Stdlib Require Import Permutation Sorted.
Import ListNotations.

Set Implicit Arguments.

(* ================================================================== *)
(** ** Exceptions *)

Inductive exn : Type :=
| ValueError
| AssertionError
| TypeError
| AttributeError
| IndexError
| NotImplementedError
| RecursionError.

Inductive result (A : Type) : Type :=
| Ok (a : A)
| Raise (e : exn).
Arguments Ok {A} a.
Arguments Raise {A} e.

Definition is_ok {A} (r : result A) : bool :=
  match r with Ok _ => true | Raise _ => false end.

Definition rbind {A B} (r : result A) (k : A -> result B) : result B :=
  match r with Ok a => k a | Raise e => Raise e end.

Definition rmap {A B} (f : A -> B) (r : result A) : result B :=
  match r with Ok a => Ok (f a) | Raise e => Raise e end.

(* ================================================================== *)
(** ** Durations: a decidable total order *)

Class Time (T : Type) := { t_leb : T -> T -> bool }.

Definition t_ltb {T} `{Time T} (a b : T) : bool := negb (t_leb b a).
Definition t_eqb {T} `{Time T} (a b : T) : bool := t_leb a b && t_leb b a.

Class TimeLaws (T : Type) `{Time T} := {
  t_leb_total : forall a b : T, t_leb a b = true \/ t_leb b a = true;
  t_leb_antisym : forall a b : T, t_leb a b = true -> t_leb b a = true -> a = b;
  t_leb_trans : forall a b c : T,
      t_leb a b = true -> t_leb b c = true -> t_leb a c = true
}.
Arguments TimeLaws T {_}.

#[export] Instance Z_Time : Time Z := {| t_leb := Z.leb |}.

(* ================================================================== *)
(** ** Finite values: field operations with decidable comparisons *)

Class Number (F : Type) := {
  f0 : F;
  f1 : F;
  fadd : F -> F -> F;
  fopp : F -> F;
  fmul : F -> F -> F;
  fdiv : F -> F -> F;
  f_leb : F -> F -> bool;
  f_eqb : F -> F -> bool
}.

Definition fsub {F} `{Number F} (a b : F) : F := fadd a (fopp b).
Definition f_ltb {F} `{Number F} (a b : F) : bool := negb (f_leb b a).

(** The laws the proofs rely on: an ordered commutative group under [fadd]. *)
Class NumberLaws (F : Type) `{Number F} := {
  fadd_assoc : forall a b c : F, fadd a (fadd b c) = fadd (fadd a b) c;
  fadd_comm : forall a b : F, fadd a b = fadd b a;
  fadd_0_l : forall a : F, fadd f0 a = a;
  fadd_opp_r : forall a : F, fadd a (fopp a) = f0;
  f_eqb_eq : forall a b : F, f_eqb a b = true <-> a = b;
  f_leb_refl : forall a : F, f_leb a a = true;
  f_leb_total : forall a b : F, f_leb a b = true \/ f_leb b a = true;
  f_leb_antisym : forall a b : F, f_leb a b = true -> f_leb b a = true -> a = b;
  f_leb_trans : forall a b c : F,
      f_leb a b = true -> f_leb b c = true -> f_leb a c = true;
  fadd_leb_mono_l : forall a b c : F,
      f_leb b c = true -> f_leb (fadd a b) (fadd a c) = true
}.
Arguments NumberLaws F {_}.

(** What multiplying by 0 or 1 and adding 0 do to a finite value.  These
    laws hold of floating point too (no rounding is involved). *)
Class UnitLaws (F : Type) `{Number F} := {
  unit_mul_1 : forall a : F, fmul a f1 = a;
  unit_mul_0 : forall a : F, fmul a f0 = f0;
  unit_add_0 : forall a : F, fadd a f0 = a;
  unit_eqb_0_1 : f_eqb f0 f1 = false;
  unit_eqb_1_0 : f_eqb f1 f0 = false;
  unit_eqb_1_1 : f_eqb f1 f1 = true;
  unit_leb_0_1 : f_leb f0 f1 = true
}.
Arguments UnitLaws F {_}.

(** What rounding to the nearest float keeps of the order of the exact
    operations: a sum is not below a summand when the other one is not
    negative, products and quotients of numbers that are not negative
    are not negative, multiplying by such a number and negating are
    monotone.  Exact arithmetic has these laws as well. *)
Class RoundedLaws (F : Type) `{Number F} := {
  rnd_leb_refl : forall a : F, f_leb a a = true;
  rnd_leb_trans : forall a b c : F,
      f_leb a b = true -> f_leb b c = true -> f_leb a c = true;
  rnd_eqb_0_0 : f_eqb f0 f0 = true;
  rnd_add_incr : forall a b : F,
      f_leb f0 b = true -> f_leb a (fadd a b) = true;
  rnd_mul_nonneg : forall a b : F,
      f_leb f0 a = true -> f_leb f0 b = true -> f_leb f0 (fmul a b) = true;
  rnd_mul_mono : forall a b c : F,
      f_leb a b = true -> f_leb f0 c = true ->
      f_leb (fmul a c) (fmul b c) = true;
  rnd_div_nonneg : forall a b : F,
      f_leb f0 a = true -> f_leb f0 b = true -> f_eqb b f0 = false ->
      f_leb f0 (fdiv a b) = true;
  rnd_div_0 : forall b : F, f_eqb b f0 = false -> fdiv f0 b = f0;
  rnd_opp_mono : forall a b : F,
      f_leb a b = true -> f_leb (fopp b) (fopp a) = true;
  rnd_opp_0 : fopp f0 = f0
}.
Arguments RoundedLaws F {_}.

(** [np.exp] and [np.log] on finite arguments.  [np.exp] leaves the
    finite range upward at some arguments ([exp_overflows], the result is
    [+inf]) and may return zero ([fexp x = f0], underflow). *)
Class Transcendental (F : Type) := {
  fexp : F -> F;
  flog : F -> F;
  exp_overflows : F -> bool
}.

(** The exponential of exact arithmetic: positive and always finite. *)
Class ExpLaws (F : Type) `{Number F} `{Transcendental F} := {
  fexp_pos : forall x : F, f_ltb f0 (fexp x) = true;
  fexp_finite : forall x : F, exp_overflows x = false
}.
Arguments ExpLaws F {_ _}.

(** What an exponential in floating point keeps of the real one: it is
    not negative, it does not decrease, it is 1 at 0, and it overflows
    only above 0 and from some argument on. *)
Class FloatExpLaws (F : Type) `{Number F} `{Transcendental F} := {
  fexp_nonneg : forall x : F, f_leb f0 (fexp x) = true;
  fexp_mono : forall x y : F,
      f_leb x y = true -> f_leb (fexp x) (fexp y) = true;
  fexp_0 : fexp f0 = f1;
  exp_overflows_pos : forall x : F,
      exp_overflows x = true -> f_ltb f0 x = true;
  exp_overflows_mono : forall x y : F,
      f_leb x y = true -> exp_overflows x = true -> exp_overflows y = true
}.
Arguments FloatExpLaws F {_ _}.

(** Exact rationals: every operation computes. *)
#[export] Instance Qc_Number : Number Qc := {|
  f0 := Q2Qc 0;
  f1 := Q2Qc 1;
  fadd := Qcplus;
  fopp := Qcopp;
  fmul := Qcmult;
  fdiv := Qcdiv;
  f_leb := fun a b => if Qclt_le_dec b a then false else true;
  f_eqb := Qc_eq_bool
|}.

(** Real numbers: the comparisons are decided classically. *)
#[export] Instance R_Number : Number R := {|
  f0 := 0%R;
  f1 := 1%R;
  fadd := Rplus;
  fopp := Ropp;
  fmul := Rmult;
  fdiv := Rdiv;
  f_leb := fun a b => if Rle_dec a b then true else false;
  f_eqb := fun a b => if Req_dec_T a b then true else false
|}.

#[export] Instance R_Transcendental : Transcendental R := {|
  fexp := exp;
  flog := ln;
  exp_overflows := fun _ => false
|}.

(** An exponential with the range of binary64: [np.exp] returns [0.0]
    below about -745.13, [+inf] above about 709.78, and exactly [1.0]
    on arguments so small that [exp x] is nearer to 1 than to any other
    float (up to 1e-17 in size, at least); elsewhere the real exponential
    stands for its rounded value.  Not an instance: it is passed by name
    where a property is tried on it. *)
Definition float_exp : Transcendental R := {|
  fexp := fun x =>
    if Rle_dec x (-746) then 0%R
    else if Rle_dec (- (1 / 100000000000000000)) x
         then if Rle_dec x (1 / 100000000000000000) then 1%R else exp x
         else exp x;
  flog := ln;
  exp_overflows := fun x => if Rle_dec 710 x then true else false
|}.

(* ================================================================== *)
(** ** float64 values: finite numbers and the IEEE special values *)

Inductive xreal (F : Type) : Type :=
| Fin (x : F)
| PInf
| NInf
| NaN.
Arguments Fin {F} x.
Arguments PInf {F}.
Arguments NInf {F}.
Arguments NaN {F}.

Section XReal.
Context {F : Type} `{Number F}.

Definition isnan (a : xreal F) : bool :=
  match a with NaN => true | _ => false end.

Definition isfinite (a : xreal F) : bool :=
  match a with Fin _ => true | _ => false end.

Definition xadd (a b : xreal F) : xreal F :=
  match a, b with
  | NaN, _ | _, NaN => NaN
  | Fin x, Fin y => Fin (fadd x y)
  | PInf, NInf | NInf, PInf => NaN
  | PInf, _ | _, PInf => PInf
  | NInf, _ | _, NInf => NInf
  end.

Definition xopp (a : xreal F) : xreal F :=
  match a with
  | Fin x => Fin (fopp x)
  | PInf => NInf
  | NInf => PInf
  | NaN => NaN
  end.

Definition xsub (a b : xreal F) : xreal F := xadd a (xopp b).

(** Sign of a finite value: [Gt], [Eq], [Lt] for positive, zero, negative. *)
Definition fsign (x : F) : comparison :=
  if f_eqb x f0 then Eq else if f_leb f0 x then Gt else Lt.

Definition inf_of_sign (s : comparison) : xreal F :=
  match s with Gt => PInf | Lt => NInf | Eq => NaN end.

Definition xsign (a : xreal F) : option comparison :=
  match a with
  | Fin x => Some (fsign x)
  | PInf => Some Gt
  | NInf => Some Lt
  | NaN => None
  end.

Definition sign_mul (s t : comparison) : comparison :=
  match s, t with
  | Eq, _ | _, Eq => Eq
  | Gt, Gt | Lt, Lt => Gt
  | _, _ => Lt
  end.

Definition xmul (a b : xreal F) : xreal F :=
  match a, b with
  | Fin x, Fin y => Fin (fmul x y)
  | _, _ =>
      match xsign a, xsign b with
      | Some s, Some t => inf_of_sign (sign_mul s t)
      | _, _ => NaN
      end
  end.

(** A finite value over zero is [NaN] for [0/0] and an infinity of the
    sign of the numerator otherwise (the zero is taken as [+0]). *)
Definition xdiv (a b : xreal F) : xreal F :=
  match a, b with
  | NaN, _ | _, NaN => NaN
  | Fin x, Fin y =>
      if f_eqb y f0 then inf_of_sign (fsign x) else Fin (fdiv x y)
  | Fin _, _ => Fin f0
  | PInf, Fin y => if f_leb f0 y then PInf else NInf
  | NInf, Fin y => if f_leb f0 y then NInf else PInf
  | _, _ => NaN
  end.

(** [a <= b] on floats: false as soon as one side is [NaN]. *)
Definition xleb (a b : xreal F) : bool :=
  match a, b with
  | NaN, _ | _, NaN => false
  | NInf, _ | _, PInf => true
  | Fin x, Fin y => f_leb x y
  | _, _ => false
  end.

Definition xmax (a b : xreal F) : xreal F :=
  if xleb a b then b else a.

Context `{Transcendental F}.

Definition xexp (a : xreal F) : xreal F :=
  match a with
  | Fin x => if exp_overflows x then PInf else Fin (fexp x)
  | PInf => PInf
  | NInf => Fin f0
  | NaN => NaN
  end.

Definition xlog (a : xreal F) : xreal F :=
  match a with
  | Fin x =>
      match fsign x with
      | Gt => Fin (flog x)
      | Eq => NInf
      | Lt => NaN
      end
  | PInf => PInf
  | NInf | NaN => NaN
  end.
End XReal.

(* ================================================================== *)
(** ** numpy and pandas primitives *)

Section Primitives.
Context {T F : Type} `{Time T} `{Number F}.

(** A pandas Series of floats over a duration index (the name set by
    [rename] carries no data and is not modelled). *)
Definition Series : Type := list (T * xreal F).

Definition index (s : Series) : list T := map fst s.
Definition values (s : Series) : list (xreal F) := map snd s.

(** [np.searchsorted(array, v)] with the default [side='left'], by its
    documented contract on a sorted array: the first position whose
    entry is not smaller than [v], the length when there is none.  On an
    array that is not sorted numpy's binary search may stop elsewhere;
    the properties that depend on the position found assume a sorted
    array (or, as for a query above every entry, hold of any search). *)
Fixpoint searchsorted (array : list T) (v : T) : nat :=
  match array with
  | [] => 0
  | a :: rest => if t_ltb a v then S (searchsorted rest v) else 0
  end.

(** [array[i]] for one integer: negative positions count from the end,
    anything outside [-n, n) is an [IndexError]. *)
Definition np_getitem {A} (array : list A) (i : Z) : result A :=
  let n := Z.of_nat (length array) in
  let j := if (i <? 0)%Z then (i + n)%Z else i in
  if ((0 <=? j)%Z && (j <? n)%Z)%bool
  then match nth_error array (Z.to_nat j) with
       | Some a => Ok a
       | None => Raise IndexError
       end
  else Raise IndexError.

(** [array[idx]] for an integer array [idx]. *)
Fixpoint np_take {A} (array : list A) (idx : list Z) : result (list A) :=
  match idx with
  | [] => Ok []
  | i :: rest =>
      rbind (np_getitem array i) (fun a =>
      rbind (np_take array rest) (fun l => Ok (a :: l)))
  end.

Fixpoint zip_with {A B C} (f : A -> B -> C) (l : list A) (m : list B) : list C :=
  match l, m with
  | a :: l', b :: m' => f a b :: zip_with f l' m'
  | _, _ => []
  end.

(** The source function, lines 10-22.  The result is the index array
    together with a flag telling whether the warning was emitted. *)
Definition search_sorted_idx (array values : list T) : result (list Z * bool) :=
  let n := Z.of_nat (length array) in
  let idx := map (fun v => Z.of_nat (searchsorted array v)) values in
  let idx := map (fun i => if (i =? n)%Z then (n - 1)%Z else i) idx in
  rbind (np_take array idx) (fun at_idx =>
  let not_exact := zip_with (fun v a => negb (t_eqb v a)) values at_idx in
  let idx := zip_with (fun i (b : bool) => (i - (if b then 1 else 0))%Z) idx not_exact in
  if existsb (fun i => (i <? 0)%Z) idx
  then Ok (map (fun i => if (i <? 0)%Z then 0%Z else i) idx, true)
  else Ok (idx, false)).

(** [Index.is_monotonic_increasing]: every entry is at least its
    predecessor (equal neighbours are allowed). *)
Fixpoint is_monotonic_increasing (ix : list T) : bool :=
  match ix with
  | [] => true
  | a :: rest =>
      match rest with
      | [] => true
      | b :: _ => t_leb a b && is_monotonic_increasing rest
      end
  end.

(** [np.cumsum]: the first entry stands alone, each next entry is added
    to the running total. *)
Fixpoint np_cumsum_from (acc : xreal F) (l : list (xreal F)) : list (xreal F) :=
  match l with
  | [] => []
  | x :: rest => let acc' := xadd acc x in acc' :: np_cumsum_from acc' rest
  end.

Definition np_cumsum (l : list (xreal F)) : list (xreal F) :=
  match l with
  | [] => []
  | x :: rest => x :: np_cumsum_from x rest
  end.

(** [Series.cumsum()] (with pandas' default [skipna=True]): missing
    entries count as zero in the running total and stay missing in the
    output. *)
Definition cumsum_values (l : list (xreal F)) : list (xreal F) :=
  zip_with (fun x c => if isnan x then NaN else c) l
    (np_cumsum (map (fun x => if isnan x then Fin f0 else x) l)).

Definition cumsum (s : Series) : Series :=
  combine (index s) (cumsum_values (values s)).

(** Sum of a group (pandas skips missing entries). *)
Definition nansum (l : list (xreal F)) : xreal F :=
  fold_left (fun acc x => if isnan x then acc else xadd acc x) l (Fin f0).

Definition fsum (l : list F) : F := fold_left fadd l f0.

(** Largest entry of a group, missing entries skipped ([NaN] when all
    entries are missing). *)
Definition nanmax (l : list (xreal F)) : xreal F :=
  fold_left (fun acc x =>
               if isnan x then acc
               else if isnan acc then x
               else xmax acc x) l NaN.

(** The group keys of [groupby]: the distinct durations, ascending. *)
Fixpoint insert_key (t : T) (keys : list T) : list T :=
  match keys with
  | [] => [t]
  | k :: rest =>
      if t_ltb t k then t :: k :: rest
      else if t_eqb t k then k :: rest
      else k :: insert_key t rest
  end.

Definition group_keys (durations : list T) : list T :=
  fold_right insert_key [] durations.

(** Stable insertion sort by decreasing key. *)
Fixpoint insert_desc {A} (key : A -> T) (a : A) (l : list A) : list A :=
  match l with
  | [] => [a]
  | b :: rest =>
      if t_ltb (key b) (key a) then a :: b :: rest
      else b :: insert_desc key a rest
  end.

Definition sort_desc {A} (key : A -> T) (l : list A) : list A :=
  fold_right (insert_desc key) [] (rev l).

(** [.fillna(0.)] *)
Definition fillna0 (x : xreal F) : xreal F :=
  if isnan x then Fin f0 else x.

(** [x.index <= max_duration], where an absent cutoff is [np.inf]. *)
Definition le_max_duration (max_duration : option T) (t : T) : bool :=
  match max_duration with
  | None => true
  | Some m => t_leb t m
  end.
End Primitives.

(* ================================================================== *)
(** ** Data of the model *)

(** One row of the frame built by [target_to_df]: its index label and the
    two columns [duration_col] and [event_col]. *)
Record row (T F : Type) : Type := mk_row {
  label : nat;
  duration : T;
  event : F
}.

(** A user data frame as the [*_df] methods receive it: the covariate
    block [df[self.input_cols].values] and the two reserved columns. *)
Record frame (X T F : Type) : Type := mk_frame {
  fr_input : X;
  fr_durations : list T;
  fr_events : list F
}.

(** What a caller may pass as [target]: nothing, the pair
    [(durations, events)], or the bound method [self.df_to_target] itself
    (left uncalled by the [*_df] wrappers). *)
Inductive target_arg (T F : Type) : Type :=
| TargetNone
| TargetTuple (durations : list T) (events : list F)
| TargetMethod.
Arguments TargetNone {T F}.
Arguments TargetTuple {T F} durations events.
Arguments TargetMethod {T F}.

(** What a caller may pass as [input]: an array of covariates or a data
    frame ([type(input) is pd.DataFrame]). *)
Inductive input_arg (X T F : Type) : Type :=
| InputArray (x : X)
| InputFrame (df : frame X T F).
Arguments InputArray {X T F} x.
Arguments InputFrame {X T F} df.

(** A baseline-hazard argument with its identity: the very object cached
    in [self.baseline_hazards_], or some other series. *)
Inductive series_ref (T F : Type) : Type :=
| Cached
| Fresh (s : list (T * xreal F)).
Arguments Cached {T F}.
Arguments Fresh {T F} s.

(** A returned table: the row index when a data frame is returned
    ([None] for a bare numpy matrix), and one list of entries per row. *)
Record table (T F : Type) : Type := mk_table {
  tb_index : option (list T);
  tb_values : list (list (xreal F))
}.

Inductive cox_class : Type := CoxBase | CoxPHBase | CoxPH.

(** The attributes of [self] the methods read or write; an absent
    attribute ([hasattr] false) is [None]. *)
Record model (X T F : Type) : Type := mk_model {
  klass : cox_class;
  training_data : option (option X * target_arg T F);
  input_cols : bool;
  baseline_hazards_ : option (list (T * xreal F));
  baseline_cumulative_hazards_ : option (list (T * xreal F))
}.

(** The collaborators outside this file. *)
Class External (X T F : Type) := {
  (** [self.predict(input, batch_size, numpy=True)]: one score per row. *)
  predict : X -> list (xreal F);
  (** [tuplefy(input).to_numpy().iloc[labels]] *)
  input_iloc : option X -> list nat -> result X;
  (** [df.sample(n=s)] and [df.sample(frac=s)]: the random draw. *)
  df_sample_n : F -> list (row T F) -> result (list (row T F));
  df_sample_frac : F -> list (row T F) -> result (list (row T F));
  (** [lifelines.utils.concordance_index(durations, g_preds, events)] *)
  lifelines_concordance_index : list T -> list (xreal F) -> list F -> xreal F
}.

(** Methods read and write [self] and may raise: a state and exception
    monad over the model. *)
Definition M (S A : Type) : Type := S -> result A * S.

Definition ret {S A} (a : A) : M S A := fun s => (Ok a, s).
Definition raise {S A} (e : exn) : M S A := fun s => (Raise e, s).
Definition bind {S A B} (m : M S A) (k : A -> M S B) : M S B :=
  fun s => match m s with
           | (Ok a, s') => k a s'
           | (Raise e, s') => (Raise e, s')
           end.
Definition get {S} : M S S := fun s => (Ok s, s).
Definition lift {S A} (r : result A) : M S A := fun s => (r, s).

Declare Scope cox_scope.
Delimit Scope cox_scope with cox.
Notation "x <- m ;; k" := (bind m (fun x => k))
  (at level 61, m at next level, right associativity) : cox_scope.
Notation "m ;;; k" := (bind m (fun _ => k))
  (at level 61, right associativity) : cox_scope.
Open Scope cox_scope.

(* ================================================================== *)
(** ** The classes [CoxBase] and [CoxPHBase]

    A method that [CoxPHBase] overrides is one definition that branches on
    the class of [self]; [batch_size] and [verbose] do not change any
    result and are left out. *)

Section Cox.
Context {X T F : Type} `{Time T} `{Number F} `{Transcendental F}
        `{External X T F}.

Local Abbreviation model := (model X T F).
Local Abbreviation DataFrame := (list (row T F)).
Local Abbreviation Series := (@Series T F).

(** [pd.DataFrame({...})] gives the rows the labels [0, 1, ...]. *)
Fixpoint range_rows (start : nat) (durations : list T) (events : list F)
  : DataFrame :=
  match durations, events with
  | d :: ds, e :: es => mk_row start d e :: range_rows (S start) ds es
  | _, _ => []
  end.

(** Lines 32-35.  [tuplefy] keeps a tuple and wraps any other object
    into a one-element tuple, which cannot be unpacked into
    [durations, events]; columns of different lengths are refused by
    [pd.DataFrame]. *)
Definition target_to_df (target : target_arg T F) : result DataFrame :=
  match target with
  | TargetTuple durations events =>
      if Nat.eqb (length durations) (length events)
      then Ok (range_rows 0 durations events)
      else Raise ValueError
  | TargetNone | TargetMethod => Raise ValueError
  end.

(** [df.assign(col=array)]: the array needs one entry per row. *)
Definition assign {A B} (df : list A) (col : list B) : result (list (A * B)) :=
  if Nat.eqb (length df) (length col) then Ok (combine df col)
  else Raise ValueError.

(** [.groupby(duration_col).agg({'expg': 'sum', event_col: 'sum'})]:
    one row per distinct duration, ascending, with the two sums. *)
Definition groupby_agg_sum (df : list (row T F * xreal F))
  : list (T * (xreal F * F)) :=
  map (fun t =>
         let g := filter (fun r => t_eqb (duration (fst r)) t) df in
         (t, (nansum (map snd g), fsum (map (fun r => event (fst r)) g))))
      (group_keys (map (fun r => duration (fst r)) df)).

(** [.assign(expg=lambda x: x['expg'].cumsum())] *)
Definition assign_cumsum_expg (df : list (T * (xreal F * F)))
  : list (T * (xreal F * F)) :=
  zip_with (fun g c => (fst g, (c, snd (snd g)))) df
           (cumsum_values (map (fun g => fst (snd g)) df)).

(** [.pipe(lambda x: x[event_col]/x['expg'])] *)
Definition events_over_expg (df : list (T * (xreal F * F))) : Series :=
  map (fun g => (fst g, xdiv (Fin (snd (snd g))) (fst (snd g)))) df.

Definition fillna (s : Series) : Series :=
  map (fun p => (fst p, fillna0 (snd p))) s.

(** Lines 385-411 ([CoxPHBase]) and 29-30 ([CoxBase]). *)
Definition _compute_baseline_hazards (self : model) (input : X)
           (df_target : DataFrame) (max_duration : option T) : result Series :=
  match klass self with
  | CoxBase => Raise NotImplementedError
  | CoxPHBase | CoxPH =>
      rbind (assign df_target (map xexp (predict input))) (fun df =>
      Ok (filter (fun p => le_max_duration max_duration (fst p))
            (rev
               (fillna
                  (events_over_expg
                     (assign_cumsum_expg
                        (sort_desc fst
                           (groupby_agg_sum df))))))))
  end.

Definition set_hazards_attrs (bh bch : Series) : M model unit :=
  fun self =>
    (Ok tt, mk_model (klass self) (training_data self) (input_cols self)
                     (Some bh) (Some bch)).

(** Lines 92-100: the part of [compute_baseline_cumulative_hazards]
    that runs once the baseline series is known. *)
Definition cumulative_of_baseline (set_hazards : bool)
           (baseline_hazards_ : Series) : M model Series :=
  if is_monotonic_increasing (index baseline_hazards_) then
    let bch := cumsum baseline_hazards_ in
    (if set_hazards then set_hazards_attrs baseline_hazards_ bch else ret tt) ;;;
    ret bch
  else raise AssertionError.

(** Lines 37-67.  The call on line 66 passes neither [input] nor
    [target] and a baseline series, so it runs lines 92-100 only. *)
Definition compute_baseline_hazards (input : option X)
           (target : target_arg T F) (max_duration : option T)
           (sample : option F) (set_hazards : bool) : M model Series :=
  self <- get ;;
  it <- (match input, target with
         | None, TargetNone =>
             match training_data self with
             | None => raise ValueError
             | Some d => ret d
             end
         | _, _ => ret (input, target)
         end) ;;
  df <- lift (target_to_df (snd it)) ;;
  df <- (match sample with
         | None => ret df
         | Some s => lift (if f_leb f1 s then df_sample_n s df
                           else df_sample_frac s df)
         end) ;;
  input <- lift (input_iloc (fst it) (map (@label T F) df)) ;;
  base_haz <- lift (_compute_baseline_hazards self input df max_duration) ;;
  (if set_hazards then cumulative_of_baseline true base_haz ;;; ret tt
   else ret tt) ;;;
  ret base_haz.

Definition target_is_none (target : target_arg T F) : bool :=
  match target with TargetNone => true | _ => false end.

Definition is_some {A} (o : option A) : bool :=
  match o with Some _ => true | None => false end.

(** Lines 69-100. *)
Definition compute_baseline_cumulative_hazards (input : option X)
           (target : target_arg T F) (max_duration : option T)
           (sample : option F) (set_hazards : bool)
           (baseline_hazards_ : option Series) : M model Series :=
  if (is_some input || negb (target_is_none target))
     && is_some baseline_hazards_
  then raise ValueError
  else
    bh <- (match baseline_hazards_ with
           | None => compute_baseline_hazards input target max_duration
                                              sample false
           | Some b => ret b
           end) ;;
    cumulative_of_baseline set_hazards bh.

(** Lines 257-259: [self.input_cols] exists only after [fit_df]. *)
Definition df_to_input (self : model) (df : frame X T F) : result X :=
  if input_cols self then Ok (fr_input df) else Raise AttributeError.

(** Lines 261-263. *)
Definition df_to_target (df : frame X T F) : target_arg T F :=
  TargetTuple (fr_durations df) (fr_events df).

(** [if type(input) is pd.DataFrame: input = self.df_to_input(input)] *)
Definition resolve_input (input : input_arg X T F) : M model X :=
  self <- get ;;
  match input with
  | InputArray x => ret x
  | InputFrame df => lift (df_to_input self df)
  end.

(** Reading [self.baseline_hazards_] and
    [self.baseline_cumulative_hazards_]. *)
Definition get_baseline_hazards_ : M model Series :=
  self <- get ;;
  match baseline_hazards_ self with
  | Some s => ret s
  | None => raise AttributeError
  end.

Definition get_baseline_cumulative_hazards_ : M model Series :=
  self <- get ;;
  match baseline_cumulative_hazards_ self with
  | Some s => ret s
  | None => raise AttributeError
  end.

(** [hasattr(self, 'baseline_hazards_')] *)
Definition has_baseline_hazards_ (self : model) : bool :=
  is_some (baseline_hazards_ self).

Definition deref (r : series_ref T F) : M model Series :=
  match r with
  | Cached => get_baseline_hazards_
  | Fresh s => ret s
  end.

(** [bch.values.reshape(-1, 1).dot(expg)]: the outer product. *)
Definition outer (col row : list (xreal F)) : list (list (xreal F)) :=
  map (fun h => map (xmul h) row) col.

(** Lines 413-434 ([CoxPHBase]) and 130-131 ([CoxBase]). *)
Definition _predict_cumulative_hazards (input : X) (max_duration : option T)
           (baseline_hazards_ : series_ref T F) : M model (table T F) :=
  self <- get ;;
  match klass self with
  | CoxBase => raise NotImplementedError
  | CoxPHBase | CoxPH =>
      (* [baseline_hazards_ is self.baseline_hazards_] reads the attribute *)
      _ <- get_baseline_hazards_ ;;
      bch <- (match baseline_hazards_ with
              | Cached => get_baseline_cumulative_hazards_
              | Fresh s =>
                  compute_baseline_cumulative_hazards
                    None TargetNone None None false (Some s)
              end) ;;
      let bch := filter (fun p => le_max_duration max_duration (fst p)) bch in
      let expg := map xexp (predict input) in
      ret (mk_table (Some (index bch)) (outer (values bch) expg))
  end.

(** Lines 102-128. *)
Definition predict_cumulative_hazards (input : input_arg X T F)
           (max_duration : option T)
           (baseline_hazards_ : option (series_ref T F))
  : M model (table T F) :=
  input <- resolve_input input ;;
  self <- get ;;
  bh <- (match baseline_hazards_ with
         | None =>
             if has_baseline_hazards_ self then ret Cached
             else raise ValueError
         | Some r => ret r
         end) ;;
  s <- deref bh ;;
  if is_monotonic_increasing (index s)
  then _predict_cumulative_hazards input max_duration bh
  else raise AssertionError.

(** [np.exp(-table)], entry by entry. *)
Definition np_exp_neg (tb : table T F) : table T F :=
  mk_table (tb_index tb) (map (map (fun h => xexp (xopp h))) (tb_values tb)).

(** Lines 133-148. *)
Definition predict_survival_function (input : input_arg X T F)
           (max_duration : option T)
           (baseline_hazards_ : option (series_ref T F))
  : M model (table T F) :=
  h <- predict_cumulative_hazards input max_duration baseline_hazards_ ;;
  ret (np_exp_neg h).

(** Lines 436-467 ([CoxPHBase]) and 150-152 ([CoxBase]).  [times] is the
    list of query times (a single number is wrapped on line 460). *)
Definition predict_cumulative_hazards_at_times (times : list T)
           (input : input_arg X T F) (return_df : bool)
           (baseline_hazards_ : option (series_ref T F))
  : M model (table T F) :=
  self <- get ;;
  match klass self with
  | CoxBase => raise NotImplementedError
  | CoxPHBase | CoxPH =>
      input <- resolve_input input ;;
      bch <- (match baseline_hazards_ with
              | None => get_baseline_cumulative_hazards_
              | Some r =>
                  s <- deref r ;;
                  compute_baseline_cumulative_hazards
                    None TargetNone None None false (Some s)
              end) ;;
      times_idx <- lift (search_sorted_idx (index bch) times) ;;
      rows <- lift (np_take (values bch) (fst times_idx)) ;;
      let expg := map xexp (predict input) in
      ret (mk_table (if return_df then Some times else None)
                    (outer rows expg))
  end.

(** Lines 154-171. *)
Definition predict_survival_at_times (times : list T)
           (input : input_arg X T F) (return_df : bool)
           (baseline_hazards_ : option (series_ref T F))
  : M model (table T F) :=
  h <- predict_cumulative_hazards_at_times times input return_df
                                           baseline_hazards_ ;;
  ret (np_exp_neg h).
End Cox.

(* ================================================================== *)
(** ** Likelihood, concordance and the data-frame wrappers *)

(** A positional argument of a Python call, as far as the wrappers of
    this file pass them around. *)
Inductive pyobj (X T F : Type) : Type :=
| PyNone
| PyFrame (df : frame X T F)
| PyArray (x : X)
| PyMethod
| PyTime (t : T)
| PyNumber (x : F)
| PyInt (n : Z)
| PyBool (b : bool).
Arguments PyNone {X T F}.
Arguments PyFrame {X T F} df.
Arguments PyArray {X T F} x.
Arguments PyMethod {X T F}.
Arguments PyTime {X T F} t.
Arguments PyNumber {X T F} x.
Arguments PyInt {X T F} n.
Arguments PyBool {X T F} b.

Section Evaluation.
Context {X T F : Type} `{Time T} `{Number F} `{Transcendental F}
        `{External X T F}.

Local Abbreviation model := (model X T F).
Local Abbreviation Series := (@Series T F).

(** [.groupby(x[duration_col]).transform('max')] on a column [col] keyed
    by [keys]: every row receives the largest entry of its group. *)
Definition groupby_transform_max (keys : list T) (col : list (xreal F))
  : list (xreal F) :=
  map (fun k =>
         nanmax (map snd (filter (fun kc => t_eqb (fst kc) k)
                                 (combine keys col))))
      keys.

(** Lines 469-497.  The result is the series [pll], indexed by the labels
    of the rows that are kept.  [sort_values] is taken stable (pandas
    leaves the order inside a tie group to the sorting routine). *)
Definition partial_log_likelihood (self : model) (input : X)
           (target : target_arg T F) (g_preds : option (list (xreal F)))
  : result (list (nat * xreal F)) :=
  match klass self with
  | CoxBase => Raise AttributeError
  | CoxPHBase | CoxPH =>
      rbind (target_to_df target) (fun df =>
      let g_preds := match g_preds with
                     | None => predict input
                     | Some g => g
                     end in
      rbind (assign df g_preds) (fun df =>
      let df := sort_desc (fun r => duration (fst r)) df in
      let _cum_exp_g :=
        groupby_transform_max
          (map (fun r => duration (fst r)) df)
          (cumsum_values (map (fun r => xexp (snd r)) df)) in
      let df := combine df _cum_exp_g in
      let df := filter (fun r => f_eqb (event (fst (fst r))) f1) df in
      Ok (map (fun r => (label (fst (fst r)),
                         xsub (snd (fst r)) (xlog (snd r)))) df)))
  end.

(** Lines 499-513: [durations, events = target] needs a pair. *)
Definition concordance_index (self : model) (input : X)
           (target : target_arg T F) (g_preds : option (list (xreal F)))
  : result (xreal F) :=
  match klass self with
  | CoxBase => Raise AttributeError
  | CoxPHBase | CoxPH =>
      match target with
      | TargetTuple durations events =>
          let g_preds := match g_preds with
                         | None => predict input
                         | Some g => g
                         end in
          Ok (xsub (Fin f1)
                   (lifelines_concordance_index durations g_preds events))
      | TargetNone | TargetMethod => Raise TypeError
      end
  end.

(** Lines 351-367: [target] is bound to [self.df_to_target], not to
    [self.df_to_target(df)]. *)
Definition partial_log_likelihood_df (self : model) (df : frame X T F)
           (g_preds : option (list (xreal F)))
  : result (list (nat * xreal F)) :=
  rbind (df_to_input self df) (fun input =>
  let target := @TargetMethod T F in
  partial_log_likelihood self input target g_preds).

(** Lines 369-381. *)
Definition concordance_index_df (self : model) (df : frame X T F)
           (g_preds : option (list (xreal F))) : result (xreal F) :=
  rbind (df_to_input self df) (fun input =>
  let target := @TargetMethod T F in
  concordance_index self input target g_preds).

(** Lines 327-349. *)
Definition compute_baseline_cumulative_hazards_df (df : option (frame X T F))
           (max_duration : option T) (sample : option F) (set_hazards : bool)
           (baseline_hazards_ : option Series) : M model Series :=
  self <- get ;;
  it <- (match df with
         | None => ret (None, TargetNone)
         | Some d =>
             input <- lift (df_to_input self d) ;;
             ret (Some input, TargetMethod)
         end) ;;
  compute_baseline_cumulative_hazards (fst it) (snd it) max_duration sample
                                      set_hazards baseline_hazards_.

(** The parameters of [compute_baseline_hazards_df] besides [self], with
    their defaults. *)
Definition compute_baseline_hazards_df_defaults : list (pyobj X T F) :=
  [PyNone; PyNone; PyNone; PyInt 8224; PyBool true].

(** Lines 305-325, called with the positional arguments [args] (a keyword
    argument sits at the position of its parameter).  Python binds the
    arguments before it runs the body and raises [TypeError] when there
    are more of them than parameters.  The body calls the same method
    again, hence the recursion depth [fuel]. *)
Fixpoint compute_baseline_hazards_df (fuel : nat) (args : list (pyobj X T F))
  : M model Series :=
  if Nat.ltb (length compute_baseline_hazards_df_defaults) (length args)
  then raise TypeError
  else
    match fuel with
    | O => raise RecursionError
    | S fuel' =>
        let param i := nth i args (nth i compute_baseline_hazards_df_defaults
                                       PyNone) in
        let df := param 0%nat in
        let max_duration := param 1%nat in
        let sample := param 2%nat in
        let batch_size := param 3%nat in
        let set_hazards := param 4%nat in
        self <- get ;;
        it <- (match df with
               | PyNone => ret (PyNone, PyNone)
               | PyFrame d =>
                   input <- lift (df_to_input self d) ;;
                   ret (PyArray input, PyMethod)
               | PyArray _ =>
                   (* [df[self.input_cols]]: an ndarray refuses an index
                      of column names *)
                   if input_cols self then raise IndexError
                   else raise AttributeError
               | _ =>
                   (* a Python number, bool or method has no [__getitem__] *)
                   if input_cols self then raise TypeError
                   else raise AttributeError
               end) ;;
        compute_baseline_hazards_df fuel'
          [fst it; snd it; max_duration; sample; batch_size; set_hazards]
    end.
End Evaluation.

(* ================================================================== *)
(** ** Concrete collaborators and numbers *)

(** A stand-in for the collaborators, for running the definitions: the
    covariate block is the list of scores itself. *)
#[export] Instance list_External (T F : Type) : External (list (xreal F)) T F := {|
  predict := fun x => x;
  input_iloc := fun x labels =>
    match x with
    | None => Raise TypeError
    | Some l => np_take l (map Z.of_nat labels)
    end;
  df_sample_n := fun _ df => Ok df;
  df_sample_frac := fun _ df => Ok df;
  lifelines_concordance_index := fun _ _ _ => NaN
|}.

(** Integers as rationals. *)
Definition q (n : Z) : Qc := Q2Qc (inject_Z n).
Definition qq (n : Z) (d : positive) : Qc := Q2Qc (Qmake n d).

(** [num/den] rounded to the nearest integer, ties to the even one. *)
Definition round_half_even (num den : Z) : Z :=
  let quo := (num / den)%Z in
  let r := (num mod den)%Z in
  match (2 * r ?= den)%Z with
  | Lt => quo
  | Gt => (quo + 1)%Z
  | Eq => if Z.even quo then quo else (quo + 1)%Z
  end.

(** The binary64 number nearest to a rational: 53 significant bits, ties
    to even.  Overflow and subnormal numbers are left out. *)
Definition round_binary64 (x : Q) : Q :=
  let n := Qnum x in
  let d := Zpos (Qden x) in
  if (n =? 0)%Z then 0%Q
  else
    let a := Z.abs n in
    let e1 := (Z.log2 a - Z.log2 d - 52)%Z in
    let scaled e := if (0 <=? e)%Z then (a, (d * 2 ^ e)%Z)
                    else ((a * 2 ^ (- e))%Z, d) in
    let e := if (fst (scaled e1) <? snd (scaled e1) * 2 ^ 52)%Z
             then (e1 - 1)%Z else e1 in
    let m := round_half_even (fst (scaled e)) (snd (scaled e)) in
    let sg := Z.sgn n in
    if (0 <=? e)%Z then Qmake (sg * m * 2 ^ e) 1
    else Qmake (sg * m) (Z.to_pos (2 ^ (- e))).

(** Arithmetic as numpy does it on binary64: every sum, product and
    quotient is rounded.  Not an instance: it is passed by name where a
    property is tried on it. *)
Definition binary64 : Number Qc := {|
  f0 := Q2Qc 0;
  f1 := Q2Qc 1;
  fadd := fun a b => Q2Qc (round_binary64 (this a + this b));
  fopp := Qcopp;
  fmul := fun a b => Q2Qc (round_binary64 (this a * this b));
  fdiv := fun a b => Q2Qc (round_binary64 (this a / this b));
  f_leb := fun a b => if Qclt_le_dec b a then false else true;
  f_eqb := Qc_eq_bool
|}.

(* ================================================================== *)
(** ** The quantities the specification speaks of *)

Section Specification.
Context {T F : Type} `{Time T} `{Number F} `{Transcendental F}.

(** Sum of floats, left to right. *)
Definition xsum (l : list (xreal F)) : xreal F := fold_left xadd l (Fin f0).

(** The prefix sums of a list: entry [i] is the sum of the entries
    [0..i]. *)
Definition prefix_sums (l : list (xreal F)) : list (xreal F) :=
  map (fun i => xsum (firstn (S i) l)) (seq 0 (length l)).

(** Differences of consecutive entries, the first entry standing alone. *)
Definition diff (l : list (xreal F)) : list (xreal F) :=
  match l with
  | [] => []
  | x :: rest => x :: zip_with (fun prev cur => xsub cur prev) l rest
  end.

Fixpoint is_strictly_increasing (ix : list T) : bool :=
  match ix with
  | [] => true
  | a :: rest =>
      match rest with
      | [] => true
      | b :: _ => t_ltb a b && is_strictly_increasing rest
      end
  end.

(** A float that is a number and not negative ([+inf] included). *)
Definition nonneg (a : xreal F) : bool := xleb (Fin f0) a.

(** A float that is finite or [+inf]: what [np.exp] returns on anything
    but [NaN]. *)
Definition no_nan_ninf (a : xreal F) : bool :=
  match a with Fin _ | PInf => true | NInf | NaN => false end.

(** [num_events(t)]: the sum of the event indicators of the subjects with
    duration [t]. *)
Definition num_events (df : list (row T F)) (t : T) : F :=
  fsum (map (@event T F) (filter (fun r => t_eqb (duration r) t) df)).

(** [sum_expg(t)]: the sum of [exp(g_i)] over the subjects with duration
    [t]; [expg] is aligned with the rows of [df]. *)
Definition sum_expg (df : list (row T F)) (expg : list (xreal F)) (t : T)
  : xreal F :=
  xsum (map snd (filter (fun r => t_eqb (duration (fst r)) t)
                        (combine df expg))).

(** The distinct durations, descending. *)
Definition durations_desc (df : list (row T F)) : list T :=
  rev (group_keys (map (@duration T F) df)).

(** [risk_set_expg(t)]: the sum of [sum_expg(t')] over the distinct
    durations [t' >= t], taken from the largest duration downward. *)
Definition risk_set_expg (df : list (row T F)) (expg : list (xreal F)) (t : T)
  : xreal F :=
  xsum (map (sum_expg df expg)
            (filter (fun t' => t_leb t t') (durations_desc df))).

(** The float quotient [num_events(t) / risk_set_expg(t)], a missing
    result replaced by zero. *)
Definition breslow_hazard (df : list (row T F)) (expg : list (xreal F)) (t : T)
  : xreal F :=
  fillna0 (xdiv (Fin (num_events df t)) (risk_set_expg df expg t)).


(** The index of the largest entry of [array] that is at most [v]
    ([None] when every entry exceeds [v]). *)
Fixpoint last_le (array : list T) (v : T) : option nat :=
  match array with
  | [] => None
  | a :: rest =>
      if t_leb a v
      then match last_le rest v with
           | Some i => Some (S i)
           | None => Some 0%nat
           end
      else None
  end.
End Specification.

(* ================================================================== *)
(** ** Concrete cohorts *)

(** A fitted proportional-hazards model with nothing cached, over real
    scores; its covariate block is the list of scores. *)
Definition fresh_model : model (list (xreal R)) Z R :=
  mk_model CoxPH None false None None.

(** One subject, an event at time 1, whose score is [-inf]. *)
Definition lone_event_df : list (row Z R) := range_rows 0 [1%Z] [1%R].
Definition lone_event_scores : list (xreal R) := [NInf].

(** The cohort of the specification: durations [2,2,3], events [1,0,1]
    and scores with [exp(g) = [1,1,2]]. *)
Definition cohort_durations : list Z := [2; 2; 3]%Z.
Definition cohort_events : list R := [1; 0; 1]%R.
Definition cohort_df : list (row Z R) :=
  range_rows 0 cohort_durations cohort_events.
Definition cohort_scores : list (xreal R) := [Fin 0%R; Fin 0%R; Fin (ln 2)].

(** The same cohort over the rationals, with the exponentiated scores. *)
Definition cohort_df_Qc : list (row Z Qc) :=
  range_rows 0 [2; 2; 3]%Z [q 1; q 0; q 1].
Definition cohort_expg_Qc : list (xreal Qc) := [Fin (q 1); Fin (q 1); Fin (q 2)].

(** A baseline series over the rationals. *)
Definition small_baseline : list (Z * xreal Qc) :=
  [(2%Z, Fin (qq 1 4)); (3%Z, Fin (qq 1 2)); (5%Z, Fin (q 0))].

(** The baseline hazards of the cohort. *)
Definition cohort_baseline : list (Z * xreal R) :=
  [(2%Z, Fin (1 / 4)%R); (3%Z, Fin (1 / 2)%R)].

(** The hazards 0.1, 0.2 and 0.3 as binary64 numbers. *)
Definition tenths : list (Z * xreal Qc) :=
  [(1%Z, Fin (Q2Qc (round_binary64 (1 # 10))));
   (2%Z, Fin (Q2Qc (round_binary64 (2 # 10))));
   (3%Z, Fin (Q2Qc (round_binary64 (3 # 10))))].

(** A model over the rationals, for running the cumulative sum in
    binary64 arithmetic. *)
Definition rounding_model : model (list (xreal Qc)) Z Qc :=
  mk_model CoxPH None false None None.

(** A baseline series with an infinite hazard, as the estimator returns
    it when the risk set weighs nothing. *)
Definition infinite_baseline : list (Z * xreal R) :=
  [(1%Z, PInf); (2%Z, Fin 1%R)].

(** A baseline series with a missing value. *)
Definition missing_baseline : list (Z * xreal R) :=
  [(1%Z, NaN); (2%Z, Fin 1%R)].

(** A model whose cached series have the single entry [h] at
    duration 1. *)
Definition one_entry_model (h : R) : model (list (xreal R)) Z R :=
  mk_model CoxPH None false (Some [(1%Z, Fin h)]) (Some [(1%Z, Fin h)]).

(** A cumulative hazard of 1000, and a negative one next to 0. *)
Definition late_model : model (list (xreal R)) Z R := one_entry_model 1000.
Definition negative_model : model (list (xreal R)) Z R :=
  one_entry_model (- (1 / 100000000000000000)).

(** A rational float without the proof that it is in lowest terms, for
    comparing computed values. *)
Definition xreal_this (a : xreal Qc) : xreal Q :=
  match a with
  | Fin x => Fin (this x)
  | PInf => PInf
  | NInf => NInf
  | NaN => NaN
  end.

(* ================================================================== *)
(** ** Further quantities used in the properties *)

Section QueryResolution.
Context {T : Type} `{Time T}.

(** What [search_sorted_idx] computes for one query before the negative
    indices are set to zero: the insertion point, moved from [n] to
    [n-1], minus one when the entry found there differs from the query. *)
Definition resolve_query (array : list T) (v : T) : Z :=
  let n := Z.of_nat (length array) in
  let k := Z.of_nat (searchsorted array v) in
  let k := if (k =? n)%Z then (n - 1)%Z else k in
  match np_getitem array k with
  | Ok a => if t_eqb v a then k else (k - 1)%Z
  | Raise _ => k
  end.
End QueryResolution.

Section CachedHazards.
Context {X T F : Type} `{Time T} `{Number F}.

(** The model after [self.baseline_hazards_ = b] and
    [self.baseline_cumulative_hazards_ = b.cumsum()] (lines 98-99). *)
Definition with_hazards (self : model X T F) (b : list (T * xreal F))
  : model X T F :=
  mk_model (klass self) (training_data self) (input_cols self)
           (Some b) (Some (cumsum b)).

(** The two cached series belong together: both are absent, or the
    cumulative series is the running total of the baseline series. *)
Definition cache_consistent (self : model X T F) : Prop :=
  match baseline_hazards_ self, baseline_cumulative_hazards_ self with
  | None, None => True
  | Some b, Some c => c = cumsum b
  | _, _ => False
  end.

(** The table [H0(t) * exp(g(x))] over the durations of the cumulative
    series [c] that are at most [max_duration]. *)
Definition hazard_table (c : list (T * xreal F)) (max_duration : option T)
           (expg : list (xreal F)) : table T F :=
  let c' := filter (fun p => le_max_duration max_duration (fst p)) c in
  mk_table (Some (index c')) (outer (values c') expg).
End CachedHazards.

Section HazardAtTime.
Context {T F : Type} `{Time T}.

(** The cumulative hazard that [predict_cumulative_hazards_at_times]
    uses for the query time [t]: the value of the series [c] at the
    position [search_sorted_idx] resolves [t] to. *)
Definition hazard_at (c : list (T * xreal F)) (t : T) : xreal F :=
  nth (Z.to_nat (Z.max 0 (resolve_query (map fst c) t))) (map snd c) NaN.
End HazardAtTime.

(* ================================================================== *)
(** ** Saving and loading (lines 214-255)

    The file system is a map from paths to regular files; directories
    and permissions are left out.  [pyth.Model.save_net(path)] writes the
    weights of the net to the file [path], [pyth.Model.load_net(path)]
    reads them back from it. *)

From Stdlib Require String Ascii.

(** What a read can run into: no file at the path, or a file that does
    not hold what the reader expects (the exception class of the latter
    is the library's). *)
Inductive io_exn : Type := FileNotFoundError | WrongFileKind.

(** A regular file: the weights of a net, or a pickled series as
    written by [Series.to_pickle]. *)
Inductive file (T F W : Type) : Type :=
| NetFile (w : W)
| PickleFile (s : list (T * xreal F)).
Arguments NetFile {T F W} w.
Arguments PickleFile {T F W} s.

(** The net of the model (its weights), the attributes of [self] and
    the files. *)
Record session (X T F W : Type) : Type := mk_session {
  net : W;
  attrs : model X T F;
  files : String.string -> option (file T F W)
}.

Section Persistence.
Import String Ascii.
Local Open Scope string_scope.
Context {X T F W : Type} `{Time T} `{Number F}.

Definition write (p : string) (f : file T F W)
           (d : string -> option (file T F W)) : string -> option (file T F W) :=
  fun q => if String.eqb q p then Some f else d q.

(** [path.split('.')]: the pieces between the dots, empty pieces
    included; at least one piece. *)
Fixpoint split_dot (s : string) : list string :=
  match s with
  | EmptyString => [EmptyString]
  | String c rest =>
      if Ascii.eqb c "."
      then EmptyString :: split_dot rest
      else match split_dot rest with
           | piece :: pieces => String c piece :: pieces
           | [] => [String c EmptyString]
           end
  end.

(** Lines 224-228 and 244-248: [path] and [extension] after the split. *)
Definition path_and_extension (path : string) : string * string :=
  let path_list := split_dot path in
  let extension := "pt" in
  if Nat.ltb 1 (List.length path_list)
  then (nth 0 path_list EmptyString, nth 1 path_list EmptyString)
  else (path, extension).

(** Lines 214-232. *)
Definition save_net (path : string) (st : session X T F W)
  : session X T F W :=
  let (path, extension) := path_and_extension path in
  let d := write (path ++ extension) (NetFile (net st)) (files st) in
  let d := match baseline_hazards_ (attrs st) with
           | Some b => write (path ++ "_blh.pickle") (PickleFile b) d
           | None => d
           end in
  mk_session (net st) (attrs st) d.

(** Lines 234-255.  The result is the exception raised, if any, and the
    session the call leaves behind. *)
Definition load_net (path : string) (st : session X T F W)
  : option io_exn * session X T F W :=
  let (path, extension) := path_and_extension path in
  let extension := "." ++ extension in
  match files st (path ++ extension) with
  | None => (Some FileNotFoundError, st)
  | Some (PickleFile _) => (Some WrongFileKind, st)
  | Some (NetFile w) =>
      let st := mk_session w (attrs st) (files st) in
      let blh_path := path ++ "_blh.pickle" in
      match files st blh_path with
      | None => (None, st)
      | Some (NetFile _) => (Some WrongFileKind, st)
      | Some (PickleFile b) =>
          let self := attrs st in
          (None,
           mk_session w
             (mk_model (klass self) (training_data self) (input_cols self)
                       (Some b) (Some (cumsum b)))
             (files st))
      end
  end.

(** A piece of a path without a dot. *)
Fixpoint no_dot (s : string) : bool :=
  match s with
  | EmptyString => true
  | String c rest => negb (Ascii.eqb c ".") && no_dot rest
  end.
End Persistence.

Section PersistenceExamples.
Import String.
Local Open Scope string_scope.

(** A fitted model with cached hazards in an empty directory; the
    weights of a net are stood for by a number. *)
Definition fitted_session : session (list (xreal Qc)) Z Qc nat :=
  mk_session 7%nat
    (mk_model CoxPH None false
              (Some small_baseline) (Some (cumsum small_baseline)))
    (fun _ => None).

(** The same model in a directory that holds a net file [model.pt]. *)
Definition fitted_session_beside_net : session (list (xreal Qc)) Z Qc nat :=
  mk_session 7%nat
    (mk_model CoxPH None false
              (Some small_baseline) (Some (cumsum small_baseline)))
    (write "model.pt" (NetFile 3%nat) (fun _ => None)).

(** A new model with nothing cached. *)
Definition new_session : session (list (xreal Qc)) Z Qc nat :=
  mk_session 0%nat (mk_model CoxPH None false None None) (fun _ => None).
End PersistenceExamples.

(* ================================================================== *)
(** ** The training loss (lines 542-545)

    Tensors are flat lists of floats after [view(-1)]. *)

Section Loss.
Context {F : Type} `{Number F} `{Transcendental F}.

(** [a.mul(b)] on one-dimensional tensors: entry by entry, a tensor
    with a single entry being repeated (broadcasting); for other shapes
    torch raises [RuntimeError] ([None]). *)
Definition torch_mul (a b : list (xreal F)) : option (list (xreal F)) :=
  if Nat.eqb (length a) (length b) then Some (zip_with xmul a b)
  else match a, b with
       | [x], _ => Some (map (xmul x) b)
       | _, [y] => Some (map (fun x => xmul x y) a)
       | _, _ => None
       end.

(** [a.sum()] *)
Definition torch_sum (a : list (xreal F)) : xreal F :=
  fold_left xadd a (Fin f0).

Definition loss_cox_ph (risk event : list (xreal F)) : option (xreal F) :=
  let log_risk := map xlog (np_cumsum (map xexp risk)) in
  match torch_mul (zip_with xsub risk log_risk) event with
  | Some weighted =>
      Some (xopp (xdiv (torch_sum weighted) (torch_sum event)))
  | None => None
  end.
End Loss.

(* ================================================================== *)
(** * Properties *)

Unset Implicit Arguments.

(** ** The laws hold for the integers, the rationals and the reals *)
#[export] Instance Z_TimeLaws : TimeLaws Z.
Proof.
  constructor; cbn; intros.
  - destruct (Z.leb_spec a b); [now left | right; apply Z.leb_le; lia].
  - apply Z.leb_le in H, H0. lia.
  - apply Z.leb_le in H, H0. apply Z.leb_le. lia.
Qed.

Lemma Qc_leb_le (a b : Qc) : f_leb a b = true <-> (a <= b)%Qc.
Proof.
  cbn. destruct (Qclt_le_dec b a) as [Hlt | Hle]; split; intro Hx; auto; try discriminate.
  exfalso. apply (Qclt_not_le _ _ Hlt Hx).
Qed.

#[export] Instance Qc_NumberLaws : NumberLaws Qc.
Proof.
  constructor; intros.
  - cbn. apply Qcplus_assoc.
  - cbn. apply Qcplus_comm.
  - cbn. apply Qcplus_0_l.
  - cbn. apply Qcplus_opp_r.
  - cbn. apply Qc_eq_bool_correct || (split; [apply Qc_eq_bool_correct | intros ->; unfold Qc_eq_bool; destruct (Qc_eq_dec b b); congruence]).
  - apply Qc_leb_le. apply Qcle_refl.
  - rewrite !Qc_leb_le. destruct (Qclt_le_dec b a); [right; now apply Qclt_le_weak | now left].
  - apply Qc_leb_le in H, H0. now apply Qcle_antisym.
  - apply Qc_leb_le in H, H0. apply Qc_leb_le. eapply Qcle_trans; eauto.
  - apply Qc_leb_le in H. apply Qc_leb_le. cbn.
    apply Qcplus_le_compat; [apply Qcle_refl | assumption].
Qed.

Lemma R_leb_le (a b : R) : f_leb a b = true <-> (a <= b)%R.
Proof. cbn. destruct (Rle_dec a b); split; intro; auto; try discriminate; try contradiction. Qed.

Lemma R_eqb_eq (a b : R) : f_eqb a b = true <-> a = b.
Proof. cbn. destruct (Req_dec_T a b); split; intro; auto; try discriminate; try contradiction. Qed.

#[export] Instance R_UnitLaws : UnitLaws R.
Proof.
  constructor; cbn; intros; try lra.
  - destruct (Req_dec_T 0 1); [lra | reflexivity].
  - destruct (Req_dec_T 1 0); [lra | reflexivity].
  - destruct (Req_dec_T 1 1); [reflexivity | lra].
  - destruct (Rle_dec 0 1); [reflexivity | lra].
Qed.

#[export] Instance R_RoundedLaws : RoundedLaws R.
Proof.
  constructor.
  - intro a. apply R_leb_le. lra.
  - intros a b c Hab Hbc. apply R_leb_le in Hab, Hbc. apply R_leb_le. lra.
  - now apply R_eqb_eq.
  - intros a b Hb. apply R_leb_le in Hb. apply R_leb_le. cbn in *. lra.
  - intros a b Ha Hb. apply R_leb_le in Ha, Hb. apply R_leb_le. cbn in *.
    now apply Rmult_le_pos.
  - intros a b c Hab Hc. apply R_leb_le in Hab, Hc. apply R_leb_le.
    cbn in *. now apply Rmult_le_compat_r.
  - intros a b Ha Hb Hne. apply R_leb_le in Ha, Hb. apply R_leb_le.
    assert (Hb0 : b <> 0%R).
    { intro Hb0. apply (proj2 (R_eqb_eq b 0%R)) in Hb0. cbn in Hne, Hb0.
      congruence. }
    cbn in *. apply Rmult_le_pos; [assumption |].
    left. apply Rinv_0_lt_compat. lra.
  - intros b _. cbn. unfold Rdiv. apply Rmult_0_l.
  - intros a b Hab. apply R_leb_le in Hab. apply R_leb_le. cbn in *. lra.
  - cbn. lra.
Qed.

#[export] Instance R_NumberLaws : NumberLaws R.
Proof.
  constructor; intros; try (cbn; lra).
  - apply R_eqb_eq.
  - apply R_leb_le. lra.
  - rewrite !R_leb_le. lra.
  - apply R_leb_le in H, H0. lra.
  - apply R_leb_le in H, H0. apply R_leb_le. lra.
  - apply R_leb_le in H. apply R_leb_le. cbn. lra.
Qed.

#[export] Instance R_ExpLaws : ExpLaws R.
Proof.
  constructor; [| reflexivity]. intro x. unfold f_ltb.
  destruct (f_leb (fexp x) f0) eqn:E; auto.
  apply R_leb_le in E. cbn in E. pose proof (exp_pos x). lra.
Qed.

#[export] Instance R_FloatExpLaws : FloatExpLaws R.
Proof.
  constructor.
  - intro x. apply R_leb_le. cbn. left. apply exp_pos.
  - intros x y Hxy. apply R_leb_le in Hxy. apply R_leb_le. cbn.
    destruct Hxy as [Hlt | ->]; [left; now apply exp_increasing | lra].
  - cbn. apply exp_0.
  - intros x Hx. discriminate Hx.
  - intros x y _ Hx. discriminate Hx.
Qed.

Lemma float_exp_laws : @FloatExpLaws R R_Number float_exp.
Proof.
  constructor.
  - intro x. apply R_leb_le. cbn. pose proof (exp_pos x).
    repeat match goal with
           | |- context [Rle_dec ?a ?b] => destruct (Rle_dec a b)
           end; lra.
  - intros x y Hxy. apply R_leb_le in Hxy. apply R_leb_le. cbn.
    pose proof (exp_pos x). pose proof (exp_pos y).
    assert (Hmono : (exp x <= exp y)%R).
    { destruct Hxy as [Hlt | ->]; [left; now apply exp_increasing | lra]. }
    assert (Hx1 : (x < 0 -> exp x <= 1)%R).
    { intro Hx. rewrite <- exp_0. left. now apply exp_increasing. }
    assert (Hy1 : (0 < y -> 1 <= exp y)%R).
    { intro Hy. rewrite <- exp_0. left. now apply exp_increasing. }
    repeat match goal with
           | |- context [Rle_dec ?a ?b] => destruct (Rle_dec a b)
           end; lra.
  - cbn.
    repeat match goal with
           | |- context [Rle_dec ?a ?b] => destruct (Rle_dec a b)
           end; lra.
  - intros x Hx. cbn in Hx. unfold f_ltb. apply negb_true_iff.
    destruct (f_leb x f0) eqn:Hle; [| reflexivity].
    apply R_leb_le in Hle. cbn in Hle.
    destruct (Rle_dec 710 x); [lra | discriminate Hx].
  - intros x y Hxy Hx. apply R_leb_le in Hxy. cbn in *.
    destruct (Rle_dec 710 x); [| discriminate Hx].
    destruct (Rle_dec 710 y); [reflexivity | lra].
Qed.

(** [float_exp] at the ends of its range and next to 0. *)
Lemma float_exp_underflow (x : R) :
  (x <= -746)%R -> @xexp R R_Number float_exp (Fin x) = Fin 0%R.
Proof.
  intro Hx. cbn. destruct (Rle_dec 710 x); [lra |].
  destruct (Rle_dec x (-746)); [reflexivity | lra].
Qed.

Lemma float_exp_overflow (x : R) :
  (710 <= x)%R -> @xexp R R_Number float_exp (Fin x) = PInf.
Proof.
  intro Hx. cbn. destruct (Rle_dec 710 x); [reflexivity | lra].
Qed.

Lemma float_exp_one (x : R) :
  (- (1 / 100000000000000000) <= x <= 1 / 100000000000000000)%R ->
  @xexp R R_Number float_exp (Fin x) = Fin 1%R.
Proof.
  intro Hx. cbn.
  repeat match goal with
         | |- context [Rle_dec ?a ?b] => destruct (Rle_dec a b); try lra
         end; reflexivity.
Qed.

(* ================================================================== *)
(** ** Time-index resolution *)

Section SearchSorted.
Context {T : Type} `{TimeLaws T}.

Lemma t_ltb_leb (a b : T) : t_ltb a b = true -> t_leb a b = true.
Proof.
  unfold t_ltb. intro Hlt. destruct (t_leb_total a b) as [Hab | Hba]; auto.
  rewrite Hba in Hlt. discriminate.
Qed.

Lemma t_leb_refl (a : T) : t_leb a a = true.
Proof. destruct (t_leb_total a a); assumption. Qed.

Lemma t_eqb_eq (a b : T) : t_eqb a b = true <-> a = b.
Proof.
  unfold t_eqb. split.
  - intro Hab. apply andb_true_iff in Hab. destruct Hab. now apply t_leb_antisym.
  - intros ->. now rewrite t_leb_refl.
Qed.

Lemma t_ltb_irrefl (a : T) : t_ltb a a = false.
Proof. unfold t_ltb. now rewrite t_leb_refl. Qed.

Lemma t_ltb_trans (a b c : T) :
  t_ltb a b = true -> t_ltb b c = true -> t_ltb a c = true.
Proof.
  unfold t_ltb. intros Hab Hbc.
  apply negb_true_iff in Hab, Hbc. apply negb_true_iff.
  destruct (t_leb c a) eqn:Hca; auto.
  destruct (t_leb_total b c) as [Hle | Hle]; [| congruence].
  rewrite (t_leb_trans _ _ _ Hle Hca) in Hab. discriminate.
Qed.

Lemma t_leb_ltb_trans (a b c : T) :
  t_leb a b = true -> t_ltb b c = true -> t_ltb a c = true.
Proof.
  unfold t_ltb. intros Hab Hbc.
  apply negb_true_iff in Hbc. apply negb_true_iff.
  destruct (t_leb c a) eqn:Hca; auto.
  rewrite (t_leb_trans _ _ _ Hca Hab) in Hbc. discriminate.
Qed.

Lemma t_ltb_leb_trans (a b c : T) :
  t_ltb a b = true -> t_leb b c = true -> t_ltb a c = true.
Proof.
  unfold t_ltb. intros Hab Hbc.
  apply negb_true_iff in Hab. apply negb_true_iff.
  destruct (t_leb c a) eqn:Hca; auto.
  rewrite (t_leb_trans _ _ _ Hbc Hca) in Hab. discriminate.
Qed.

(** When every entry is smaller than the query, the insertion point is
    the length of the array. *)
Lemma searchsorted_all_smaller (array : list T) (v : T) :
  Forall (fun a => t_ltb a v = true) array ->
  searchsorted array v = length array.
Proof.
  induction 1 as [| a rest Ha _ IH]; cbn; [reflexivity |].
  now rewrite Ha, IH.
Qed.

Lemma np_getitem_last (a : T) (array : list T) :
  np_getitem (array ++ [a]) (Z.of_nat (length (array ++ [a])) - 1) = Ok a.
Proof.
  unfold np_getitem. rewrite length_app. cbn [length].
  replace (Z.of_nat (length array + 1) - 1)%Z with (Z.of_nat (length array)) by lia.
  destruct (Z.ltb_spec (Z.of_nat (length array)) 0); [lia |].
  destruct (Z.leb_spec 0 (Z.of_nat (length array))); [| lia].
  destruct (Z.ltb_spec (Z.of_nat (length array)) (Z.of_nat (length array + 1))); [| lia].
  cbn [andb]. rewrite Nat2Z.id, nth_error_app2 by lia.
  now rewrite Nat.sub_diag.
Qed.

(** X3.  A query above the largest entry of an array of at least two
    entries resolves to the last index but one, without a warning. *)
Lemma search_sorted_idx_above_range (array : list T) (b a v : T) :
  Forall (fun x => t_ltb x v = true) (array ++ [b; a]) ->
  search_sorted_idx (array ++ [b; a]) [v]
  = Ok ([Z.of_nat (length (array ++ [b; a])) - 2]%Z, false).
Proof.
  intro Hall. unfold search_sorted_idx.
  cbn [map]. rewrite (searchsorted_all_smaller _ _ Hall), Z.eqb_refl.
  cbn [np_take].
  replace (array ++ [b; a]) with ((array ++ [b]) ++ [a]) in *
    by now rewrite <- app_assoc.
  rewrite np_getitem_last. cbn [rbind zip_with].
  assert (Hav : t_eqb v a = false).
  { apply Forall_app in Hall. destruct Hall as [_ Ha].
    apply Forall_inv in Ha. unfold t_ltb in Ha. unfold t_eqb.
    apply negb_true_iff in Ha. rewrite Ha. reflexivity. }
  rewrite Hav. cbn [negb existsb].
  rewrite !length_app. cbn [length].
  destruct (Z.ltb_spec (Z.of_nat (length array + 1 + 1) - 1 - 1) 0); [lia |].
  cbn. do 3 f_equal. lia.
Qed.
Lemma searchsorted_le_length (array : list T) (v : T) :
  (searchsorted array v <= length array)%nat.
Proof.
  induction array as [| a rest IH]; cbn; [lia |].
  destruct (t_ltb a v); lia.
Qed.

(** The insertion point lies inside the array as soon as some entry is
    not smaller than the query. *)
Lemma searchsorted_lt_length (array : list T) (v : T) :
  Exists (fun a => t_leb v a = true) array ->
  (searchsorted array v < length array)%nat.
Proof.
  induction array as [| a rest IH]; intro Hex; [inversion Hex |].
  cbn. destruct (t_ltb a v) eqn:Hlt; [| lia].
  apply Exists_cons in Hex. destruct Hex as [Hva | Hex].
  - unfold t_ltb in Hlt. rewrite Hva in Hlt. discriminate.
  - specialize (IH Hex). lia.
Qed.

(** On a strictly ascending array, the entry at the insertion point of
    [v] tells where the largest entry [<= v] is: at the insertion point
    for an exact hit, just before it otherwise. *)
Lemma searchsorted_last_le (array : list T) (v a : T) (i : nat) :
  StronglySorted (fun x y => t_ltb x y = true) array ->
  last_le array v = Some i ->
  nth_error array (searchsorted array v) = Some a ->
  searchsorted array v = (if t_eqb v a then i else S i).
Proof.
  intro Hs. revert i. induction Hs as [| a0 rest Hs IH Hall]; intros i Hi Ha;
    [discriminate |].
  cbn [last_le] in Hi. destruct (t_leb a0 v) eqn:Hle; [| discriminate].
  cbn [searchsorted] in *. destruct (t_ltb a0 v) eqn:Hlt.
  - cbn [nth_error] in Ha. destruct (last_le rest v) as [i' |] eqn:Hi'.
    + injection Hi as <-. rewrite (IH i' eq_refl Ha).
      now destruct (t_eqb v a).
    + injection Hi as <-.
      destruct rest as [| b rest']; [destruct (searchsorted [] v); discriminate |].
      cbn [last_le] in Hi'. destruct (t_leb b v) eqn:Hbv.
      * destruct (last_le rest' v); discriminate.
      * cbn [searchsorted] in *. unfold t_ltb at 1. unfold t_ltb at 1 in Ha.
        destruct (t_leb v b) eqn:Hvb.
        -- cbn [negb] in *. cbn in Ha. injection Ha as <-.
           unfold t_eqb. now rewrite Hbv, andb_false_r.
        -- destruct (t_leb_total v b); congruence.
  - cbn [nth_error] in Ha. injection Ha as <-.
    assert (Hva : t_leb v a0 = true).
    { unfold t_ltb in Hlt. now apply negb_false_iff in Hlt. }
    unfold t_eqb. rewrite Hva, Hle. cbn [andb].
    assert (Heq : a0 = v) by now apply t_leb_antisym.
    subst a0.
    destruct rest as [| b rest']; [now injection Hi as <- |].
    cbn [last_le] in Hi. apply Forall_inv in Hall.
    unfold t_ltb in Hall. apply negb_true_iff in Hall. rewrite Hall in Hi.
    now injection Hi as <-.
Qed.

Lemma np_getitem_nth_error (array : list T) (k : nat) (a : T) :
  nth_error array k = Some a -> np_getitem array (Z.of_nat k) = Ok a.
Proof.
  intro Hk. unfold np_getitem.
  assert (Hlt : (k < length array)%nat).
  { apply nth_error_Some. congruence. }
  destruct (Z.ltb_spec (Z.of_nat k) 0); [lia |].
  destruct (Z.leb_spec 0 (Z.of_nat k)); [| lia].
  destruct (Z.ltb_spec (Z.of_nat k) (Z.of_nat (length array))); [| lia].
  cbn [andb]. now rewrite Nat2Z.id, Hk.
Qed.

(** X1.  A query between the first and the last entry of a strictly
    ascending array resolves to the index of the largest entry that is at
    most the query, without a warning. *)
Lemma search_sorted_idx_in_range (array : list T) (v : T) (i : nat) :
  StronglySorted (fun x y => t_ltb x y = true) array ->
  last_le array v = Some i ->
  Exists (fun a => t_leb v a = true) array ->
  search_sorted_idx array [v] = Ok ([Z.of_nat i], false).
Proof.
  intros Hs Hi Hex. unfold search_sorted_idx. cbn [map].
  pose proof (searchsorted_lt_length array v Hex) as Hlt.
  destruct (Z.eqb_spec (Z.of_nat (searchsorted array v))
                       (Z.of_nat (length array))); [lia |].
  destruct (nth_error array (searchsorted array v)) as [a |] eqn:Ha.
  2:{ apply nth_error_None in Ha. lia. }
  cbn [np_take]. rewrite (np_getitem_nth_error _ _ _ Ha).
  cbn [rbind zip_with].
  rewrite (searchsorted_last_le array v a i Hs Hi Ha).
  destruct (t_eqb v a); cbn [negb existsb map].
  - rewrite Z.sub_0_r.
    destruct (Z.ltb_spec (Z.of_nat i) 0); [lia |]. reflexivity.
  - replace (Z.of_nat (S i) - 1)%Z with (Z.of_nat i) by lia.
    destruct (Z.ltb_spec (Z.of_nat i) 0); [lia |]. reflexivity.
Qed.

(** X2.  On an array sorted in ascending order, a query below the first
    entry resolves to index 0, with a warning. *)
Lemma search_sorted_idx_below_range (a : T) (rest : list T) (v : T) :
  is_monotonic_increasing (a :: rest) = true ->
  t_ltb v a = true ->
  search_sorted_idx (a :: rest) [v] = Ok ([0%Z], true).
Proof.
  intros _ Hva. unfold search_sorted_idx. cbn [map searchsorted].
  assert (Hav : t_ltb a v = false).
  { unfold t_ltb. rewrite (t_ltb_leb _ _ Hva). reflexivity. }
  rewrite Hav. cbn [Z.of_nat length].
  destruct (Z.eqb_spec 0 (Z.pos (Pos.of_succ_nat (length rest)))); [lia |].
  cbn [np_take]. unfold np_getitem. cbn [Z.ltb Z.compare length].
  cbn [Z.of_nat Z.leb Z.compare Z.ltb andb Z.to_nat nth_error rbind zip_with].
  assert (Heq : t_eqb v a = false).
  { unfold t_eqb, t_ltb in *. apply negb_true_iff in Hva. rewrite Hva.
    apply andb_false_r. }
  rewrite Heq. reflexivity.
Qed.
End SearchSorted.

(** C2.  On the sorted times [1,3,5] and the queries [0,1,2,3,6] the
    function returns [0,0,0,1,1] and warns: the query 6, above the largest
    entry, is resolved to index 1 and not to the last index 2. *)
Theorem search_sorted_idx_example :
  search_sorted_idx [1; 3; 5]%Z [0; 1; 2; 3; 6]%Z
  = Ok ([0; 0; 0; 1; 1]%Z, true).
Proof. vm_compute. reflexivity. Qed.

(* ================================================================== *)
(** ** Errors raised by the wrappers and by prediction *)

Section Errors.
Context {X T F : Type} `{Time T} `{Number F} `{Transcendental F}
        `{External X T F}.

Lemma bind_raise {S A B} (m : M S A) (k : A -> M S B) (s s' : S) (e : exn) :
  m s = (Raise e, s') -> bind m k s = (Raise e, s').
Proof. unfold bind. now intros ->. Qed.

Lemma bind_ok {S A B} (m : M S A) (k : A -> M S B) (s s' : S) (a : A) :
  m s = (Ok a, s') -> bind m k s = k a s'.
Proof. unfold bind. now intros ->. Qed.

(** The argument binding of the inner call fails. *)
Lemma compute_baseline_hazards_df_six_args
      (fuel : nat) (a b c d e f : pyobj X T F) (self : model X T F) :
  compute_baseline_hazards_df fuel [a; b; c; d; e; f] self
  = (Raise TypeError, self).
Proof. destruct fuel; reflexivity. Qed.

(** C9.  [compute_baseline_hazards_df] never returns a series, whatever
    the arguments and the recursion depth allowed: with room for at least
    one call it raises and leaves the model as it was.  A call that gets
    as far as the inner call (no [df], or a data frame on a model with
    [input_cols]) raises [TypeError], from binding six positional
    arguments to five parameters; before that, [df_to_input] raises on a
    model without [input_cols] or on a [df] that is no data frame. *)
Theorem compute_baseline_hazards_df_always_raises :
  (forall (fuel : nat) (args : list (pyobj X T F)) (self : model X T F),
      is_ok (fst (compute_baseline_hazards_df fuel args self)) = false)
  /\ (forall (fuel : nat) (args : list (pyobj X T F)) (self : model X T F),
         exists e : exn,
           compute_baseline_hazards_df (S fuel) args self = (Raise e, self))
  /\ (forall (fuel : nat) (args : list (pyobj X T F)) (self : model X T F),
         nth 0 args PyNone = PyNone
         \/ (exists d, nth 0 args PyNone = PyFrame d
                       /\ input_cols self = true) ->
         compute_baseline_hazards_df (S fuel) args self
         = (Raise TypeError, self)).
Proof.
  assert (Hstep : forall fuel (args : list (pyobj X T F)) (self : model X T F),
             exists e : exn,
               compute_baseline_hazards_df (S fuel) args self
               = (Raise e, self)).
  { intros fuel args self. cbn [compute_baseline_hazards_df].
    destruct (Nat.ltb _ _); [now exists TypeError |].
    unfold bind at 1. cbn [get].
    destruct (nth 0 args _) as [| df | | | | | |]; unfold bind at 1;
      try (cbn [raise ret]; destruct (input_cols self); eexists;
           reflexivity).
    - cbn [ret fst snd]. rewrite compute_baseline_hazards_df_six_args.
      now exists TypeError.
    - unfold bind at 1, lift, df_to_input.
      destruct (input_cols self).
      + cbn [ret fst snd]. rewrite compute_baseline_hazards_df_six_args.
        now exists TypeError.
      + now exists AttributeError. }
  split; [| split; [exact Hstep |]].
  - intros [| fuel] args self.
    + cbn [compute_baseline_hazards_df]. now destruct (Nat.ltb _ _).
    + destruct (Hstep fuel args self) as (e & ->). reflexivity.
  - intros fuel args self Hdf. cbn [compute_baseline_hazards_df].
    destruct (Nat.ltb _ _); [reflexivity |].
    unfold bind at 1. cbn [get].
    change (nth 0 args (nth 0 compute_baseline_hazards_df_defaults PyNone))
      with (nth 0 args (@PyNone X T F)).
    destruct Hdf as [-> | (d & -> & Hic)]; unfold bind at 1.
    + cbn [ret fst snd]. apply compute_baseline_hazards_df_six_args.
    + unfold bind at 1, lift, df_to_input. rewrite Hic.
      cbn [ret fst snd]. apply compute_baseline_hazards_df_six_args.
Qed.

(** C10.  For every data frame, the three wrappers raise: [target] is the
    method object, which [target_to_df] and [concordance_index] cannot
    unpack into durations and events. *)
Theorem df_wrappers_raise :
  forall (self : model X T F) (df : frame X T F),
    (forall g_preds, is_ok (partial_log_likelihood_df self df g_preds) = false)
    /\ (forall g_preds, is_ok (concordance_index_df self df g_preds) = false)
    /\ (forall max_duration sample set_hazards baseline_hazards_,
           exists e : exn,
             compute_baseline_cumulative_hazards_df
               (Some df) max_duration sample set_hazards baseline_hazards_ self
             = (Raise e, self)).
Proof.
  intros self df. repeat split.
  - intro g. unfold partial_log_likelihood_df, df_to_input.
    destruct (input_cols self); [| reflexivity].
    cbn [rbind]. unfold partial_log_likelihood.
    now destruct (klass self).
  - intro g. unfold concordance_index_df, df_to_input.
    destruct (input_cols self); [| reflexivity].
    cbn [rbind]. unfold concordance_index.
    now destruct (klass self).
  - intros md sample sh bh.
    unfold compute_baseline_cumulative_hazards_df, bind at 1. cbn [get].
    unfold bind at 1, bind at 1, lift, df_to_input.
    destruct (input_cols self); [| now exists AttributeError].
    cbn [ret fst snd]. unfold compute_baseline_cumulative_hazards.
    cbn [is_some target_is_none negb orb andb].
    destruct bh as [s |]; cbn [is_some]; [now exists ValueError |].
    unfold bind at 1, compute_baseline_hazards, bind at 1. cbn [get].
    unfold bind at 1. cbn [ret fst snd]. unfold bind at 1, lift.
    cbn [target_to_df]. now exists ValueError.
Qed.
End Errors.

Section Uninitialised.
Context {X T F : Type} `{Time T} `{Number F} `{Transcendental F}
        `{External X T F}.

(** With no argument and nothing cached, the call fails before any
    hazard is touched and the model is unchanged: [ValueError] from the
    guard, or [AttributeError] when a data frame is passed to a model
    whose [input_cols] were never set. *)
Lemma predict_cumulative_hazards_needs_baseline
      (k : cox_class) td (ic : bool) bch
      (input : input_arg X T F) (max_duration : option T) :
  let self := mk_model k td ic None bch in
  exists e : exn,
    predict_cumulative_hazards input max_duration None self = (Raise e, self)
    /\ (e = ValueError \/ e = AttributeError)
    /\ (forall x, input = InputArray x -> e = ValueError).
Proof.
  intro self. unfold predict_cumulative_hazards, bind at 1, resolve_input.
  unfold bind at 1. cbn [get].
  destruct input as [x | df].
  - cbn [ret]. exists ValueError. repeat split; auto.
  - unfold lift, df_to_input. cbn [input_cols self].
    destruct ic.
    + exists ValueError. repeat split; auto.
    + exists AttributeError. repeat split; auto. discriminate.
Qed.

(** C8.  On a model with no cached [baseline_hazards_], a call that
    supplies an explicit series raises as well, and leaves the model
    unchanged: past the guard, [_predict_cumulative_hazards] evaluates
    [baseline_hazards_ is self.baseline_hazards_] and the attribute is
    absent. *)
Theorem predict_cumulative_hazards_explicit_series_raises :
  forall (k : cox_class) td (ic : bool) bch
         (input : input_arg X T F) (max_duration : option T)
         (s : @Series T F),
    exists e : exn,
      predict_cumulative_hazards input max_duration (Some (Fresh s))
                                 (mk_model k td ic None bch)
      = (Raise e, mk_model k td ic None bch)
      /\ (forall x, input = InputArray x ->
          is_monotonic_increasing (index s) = true ->
          e = match k with
              | CoxBase => NotImplementedError
              | CoxPHBase | CoxPH => AttributeError
              end).
Proof.
  intros k td ic bch input md s.
  unfold predict_cumulative_hazards, bind at 1, resolve_input.
  unfold bind at 1. cbn [get].
  destruct input as [x | df].
  - cbn [ret]. unfold bind at 1. cbn [get]. unfold bind at 1. cbn [ret].
    unfold bind at 1. cbn [deref ret].
    destruct (is_monotonic_increasing (index s)) eqn:Hmono.
    + unfold _predict_cumulative_hazards, bind at 1. cbn [get klass].
      destruct k.
      * exists NotImplementedError. split; [reflexivity | auto].
      * exists AttributeError. split; [reflexivity | auto].
      * exists AttributeError. split; [reflexivity | auto].
    + exists AssertionError. split; [reflexivity |]. intros; discriminate.
  - unfold lift, df_to_input. cbn [input_cols].
    destruct ic.
    + unfold bind at 1. cbn [get]. unfold bind at 1. cbn [ret].
      unfold bind at 1. cbn [deref ret].
      destruct (is_monotonic_increasing (index s)) eqn:Hmono.
      * unfold _predict_cumulative_hazards, bind at 1. cbn [get klass].
        destruct k.
        -- exists NotImplementedError. split; [reflexivity | intros; discriminate].
        -- exists AttributeError. split; [reflexivity | intros; discriminate].
        -- exists AttributeError. split; [reflexivity | intros; discriminate].
      * exists AssertionError. split; [reflexivity |]. intros; discriminate.
    + exists AttributeError. split; [reflexivity |]. intros; discriminate.
Qed.
End Uninitialised.

(* ================================================================== *)
(** ** Survival from cumulative hazards *)

Section Survival.
Context {X T : Type} `{Time T} `{External X T R}
        {E : Transcendental R} {EL : FloatExpLaws R}.

(** The exponential at an argument that is not positive. *)
Lemma xexp_neg_range (h : R) :
  (0 <= h)%R ->
  exists u : R, xexp (xopp (Fin h)) = Fin u /\ (0 <= u <= 1)%R.
Proof.
  intro Hh. cbn [xopp xexp fopp R_Number].
  destruct (exp_overflows (- h)%R) eqn:Ho.
  - apply exp_overflows_pos in Ho. unfold f_ltb in Ho.
    apply negb_true_iff in Ho.
    assert (Hle : f_leb (- h)%R f0 = true) by (apply R_leb_le; cbn; lra).
    rewrite Hle in Ho. discriminate Ho.
  - exists (fexp (- h)%R). split; [reflexivity |]. split.
    + apply (proj1 (R_leb_le _ _) (fexp_nonneg (- h)%R)).
    + assert (Hm : f_leb (fexp (- h)%R) (fexp f0) = true).
      { apply fexp_mono. apply R_leb_le. cbn. lra. }
      rewrite fexp_0 in Hm. apply (proj1 (R_leb_le _ _) Hm).
Qed.

Lemma xexp_neg_above (h : R) :
  (h < 0)%R ->
  xexp (xopp (Fin h)) = PInf
  \/ exists u : R, xexp (xopp (Fin h)) = Fin u /\ (1 <= u)%R.
Proof.
  intro Hh. cbn [xopp xexp fopp R_Number].
  destruct (exp_overflows (- h)%R); [now left | right].
  exists (fexp (- h)%R). split; [reflexivity |].
  assert (Hm : f_leb (fexp f0) (fexp (- h)%R) = true).
  { apply fexp_mono. apply R_leb_le. cbn. lra. }
  rewrite fexp_0 in Hm. apply (proj1 (R_leb_le _ _) Hm).
Qed.

(** C4 (as amended).  The survival tables are the cumulative-hazard
    tables of the same call with every entry [H] replaced by [exp(-H)],
    errors and the final model passed on unchanged.  For an exponential
    in floating point (not negative, not decreasing, 1 at 0) a finite
    entry [H >= 0] yields a value in [0, 1], zero included; nothing is
    clamped, and a negative entry yields a value that is at least 1, or
    [+inf]. *)
Theorem survival_is_exp_neg_cumulative_hazard :
  (forall input max_duration baseline_hazards_ (self : model X T R),
      predict_survival_function input max_duration baseline_hazards_ self
      = (rmap np_exp_neg
              (fst (predict_cumulative_hazards input max_duration
                                               baseline_hazards_ self)),
         snd (predict_cumulative_hazards input max_duration
                                         baseline_hazards_ self)))
  /\ (forall times input return_df baseline_hazards_ (self : model X T R),
         predict_survival_at_times times input return_df baseline_hazards_ self
         = (rmap np_exp_neg
                 (fst (predict_cumulative_hazards_at_times
                         times input return_df baseline_hazards_ self)),
            snd (predict_cumulative_hazards_at_times
                   times input return_df baseline_hazards_ self)))
  /\ (forall tb : table T R,
         tb_index (np_exp_neg tb) = tb_index tb
         /\ tb_values (np_exp_neg tb)
            = map (map (fun h => xexp (xopp h))) (tb_values tb))
  /\ (forall h : R,
         (0 <= h)%R ->
         exists u : R, xexp (xopp (Fin h)) = Fin u /\ (0 <= u <= 1)%R)
  /\ (forall h : R,
         (h < 0)%R ->
         xexp (xopp (Fin h)) = PInf
         \/ exists u : R, xexp (xopp (Fin h)) = Fin u /\ (1 <= u)%R).
Proof.
  split; [| split; [| split; [| split]]].
  - intros input md bh self. unfold predict_survival_function, bind.
    destruct (predict_cumulative_hazards input md bh self) as [[tb | e] self'];
      reflexivity.
  - intros times input rd bh self. unfold predict_survival_at_times, bind.
    destruct (predict_cumulative_hazards_at_times times input rd bh self)
      as [[tb | e] self']; reflexivity.
  - intro tb. split; reflexivity.
  - exact xexp_neg_range.
  - exact xexp_neg_above.
Qed.
End Survival.

(* ================================================================== *)
(** ** Cumulative hazards: prefix sums *)

Section Floats.
Context {F : Type} `{NumberLaws F}.

Lemma fadd_0_r (a : F) : fadd a f0 = a.
Proof. now rewrite fadd_comm, fadd_0_l. Qed.

Lemma fadd_sub_cancel (a b : F) : fsub (fadd a b) a = b.
Proof.
  unfold fsub. rewrite (fadd_comm a b), <- fadd_assoc, fadd_opp_r.
  apply fadd_0_r.
Qed.

Lemma f_eqb_refl (a : F) : f_eqb a a = true.
Proof. now apply f_eqb_eq. Qed.

Lemma f_eqb_neq (a b : F) : a <> b -> f_eqb a b = false.
Proof.
  intro Hne. destruct (f_eqb a b) eqn:E; auto.
  apply f_eqb_eq in E. contradiction.
Qed.

Lemma f_ltb_leb (a b : F) : f_ltb a b = true -> f_leb a b = true.
Proof.
  unfold f_ltb. intro Hlt. destruct (f_leb_total a b) as [Hab | Hba]; auto.
  rewrite Hba in Hlt. discriminate.
Qed.

Lemma f_ltb_neq (a b : F) : f_ltb a b = true -> a <> b.
Proof.
  unfold f_ltb. intros Hlt ->. now rewrite f_leb_refl in Hlt.
Qed.

Lemma fadd_nonneg (a b : F) :
  f_leb f0 a = true -> f_leb f0 b = true -> f_leb f0 (fadd a b) = true.
Proof.
  intros Ha Hb. apply f_leb_trans with a; auto.
  rewrite <- (fadd_0_r a) at 1. now apply fadd_leb_mono_l.
Qed.


Lemma xadd_0_l (a : xreal F) : xadd (Fin f0) a = a.
Proof. destruct a; cbn; auto. now rewrite fadd_0_l. Qed.

Lemma xadd_nonneg (a b : xreal F) :
  nonneg a = true -> nonneg b = true ->
  nonneg (xadd a b) = true /\ xleb a (xadd a b) = true.
Proof.
  unfold nonneg. destruct a as [x | | |], b as [y | | |]; cbn;
    intros Ha Hb; try discriminate; auto.
  split; [now apply fadd_nonneg |].
  rewrite <- (fadd_0_r x) at 1. now apply fadd_leb_mono_l.
Qed.

Lemma xleb_trans (a b c : xreal F) :
  xleb a b = true -> xleb b c = true -> xleb a c = true.
Proof.
  destruct a, b, c; cbn; intros Hab Hbc; try discriminate; auto.
  eapply f_leb_trans; eauto.
Qed.

Lemma xsub_xadd_cancel (a b : xreal F) :
  isfinite a = true -> isfinite b = true -> xsub (xadd a b) a = b.
Proof.
  destruct a as [x | | |], b as [y | | |]; cbn; intros; try discriminate.
  f_equal. apply fadd_sub_cancel.
Qed.

(** *** [np.cumsum] and [Series.cumsum] *)

Lemma length_zip_with {A B C} (f : A -> B -> C) (l : list A) (m : list B) :
  length l = length m -> length (zip_with f l m) = length l.
Proof.
  revert m. induction l as [| a l IH]; intros [| b m] Hlen; cbn in *;
    try discriminate; auto.
Qed.

Lemma length_np_cumsum_from (acc : xreal F) (l : list (xreal F)) :
  length (np_cumsum_from acc l) = length l.
Proof. revert acc. induction l; intro acc; cbn; auto. Qed.

Lemma length_np_cumsum (l : list (xreal F)) :
  length (np_cumsum l) = length l.
Proof. destruct l; cbn; auto using length_np_cumsum_from. Qed.

Lemma length_cumsum_values (l : list (xreal F)) :
  length (cumsum_values l) = length l.
Proof.
  unfold cumsum_values. apply length_zip_with.
  now rewrite length_np_cumsum, length_map.
Qed.

Lemma zip_with_keep_right {A B} (f : A -> B -> B) (l : list A) (m : list B) :
  length l = length m ->
  Forall (fun a => forall b, f a b = b) l ->
  zip_with f l m = m.
Proof.
  revert m. induction l as [| a l IH]; intros [| b m] Hlen Hall; cbn in *;
    try discriminate; auto.
  inversion Hall; subst. f_equal; auto.
Qed.

(** Without missing entries [Series.cumsum] is [np.cumsum]. *)
Lemma cumsum_values_no_nan (l : list (xreal F)) :
  Forall (fun x => isnan x = false) l -> cumsum_values l = np_cumsum l.
Proof.
  intro Hl. unfold cumsum_values.
  assert (Hmap : map (fun x : xreal F => if isnan x then Fin f0 else x) l = l).
  { induction Hl as [| x l Hx _ IH]; cbn; [reflexivity |].
    now rewrite Hx, IH. }
  rewrite Hmap. apply zip_with_keep_right.
  - now rewrite length_np_cumsum.
  - eapply Forall_impl; [| exact Hl]. cbn. intros x Hx c. now rewrite Hx.
Qed.

Lemma np_cumsum_from_prefix (acc : xreal F) (l : list (xreal F)) :
  np_cumsum_from acc l
  = map (fun i => fold_left xadd (firstn (S i) l) acc) (seq 0 (length l)).
Proof.
  revert acc. induction l as [| x l IH]; intro acc; [reflexivity |].
  cbn [np_cumsum_from length seq map]. f_equal.
  rewrite IH, <- seq_shift, map_map. reflexivity.
Qed.

(** [np.cumsum] computes the prefix sums. *)
Lemma np_cumsum_prefix_sums (l : list (xreal F)) :
  np_cumsum l = prefix_sums l.
Proof.
  destruct l as [| x l]; [reflexivity |].
  unfold prefix_sums, xsum. cbn [np_cumsum length seq map].
  f_equal.
  - cbn [firstn fold_left]. now rewrite xadd_0_l.
  - rewrite np_cumsum_from_prefix, <- seq_shift, map_map.
    apply map_ext. intro i. cbn [firstn fold_left]. now rewrite xadd_0_l.
Qed.

Lemma np_cumsum_from_sorted (acc : xreal F) (l : list (xreal F)) :
  nonneg acc = true ->
  Forall (fun x => nonneg x = true) l ->
  StronglySorted (fun a b => xleb a b = true) (np_cumsum_from acc l)
  /\ Forall (fun v => xleb acc v = true) (np_cumsum_from acc l).
Proof.
  intros Hacc Hl. revert acc Hacc.
  induction Hl as [| x l Hx _ IH]; intros acc Hacc; cbn.
  - split; constructor.
  - destruct (xadd_nonneg acc x Hacc Hx) as [Hnn Hle].
    destruct (IH _ Hnn) as [Hs Hall]. split.
    + constructor; assumption.
    + constructor; [assumption |].
      eapply Forall_impl; [| exact Hall]. cbn. intros v Hv.
      eapply xleb_trans; eauto.
Qed.

Lemma np_cumsum_sorted (l : list (xreal F)) :
  Forall (fun x => nonneg x = true) l ->
  StronglySorted (fun a b => xleb a b = true) (np_cumsum l).
Proof.
  intro Hl. destruct Hl as [| x l Hx Hl]; cbn; [constructor |].
  destruct (np_cumsum_from_sorted x l Hx Hl) as [Hs Hall].
  now constructor.
Qed.

Lemma nonneg_not_nan (x : xreal F) : nonneg x = true -> isnan x = false.
Proof. now destruct x. Qed.

Lemma isfinite_not_nan (x : xreal F) : isfinite x = true -> isnan x = false.
Proof. now destruct x. Qed.

Lemma np_cumsum_from_finite (acc : xreal F) (l : list (xreal F)) :
  isfinite acc = true -> forallb isfinite l = true ->
  zip_with (fun prev cur => xsub cur prev)
           (acc :: np_cumsum_from acc l) (np_cumsum_from acc l) = l.
Proof.
  revert acc. induction l as [| x l IH]; intros acc Hacc Hl; [reflexivity |].
  cbn in Hl. apply andb_true_iff in Hl. destruct Hl as [Hx Hl].
  cbn [np_cumsum_from zip_with]. f_equal.
  - now apply xsub_xadd_cancel.
  - apply IH; auto. destruct acc, x; cbn in *; auto; discriminate.
Qed.

(** Differencing undoes [np.cumsum] on finite entries. *)
Lemma diff_np_cumsum (l : list (xreal F)) :
  forallb isfinite l = true -> diff (np_cumsum l) = l.
Proof.
  destruct l as [| x l]; [reflexivity |]. cbn [forallb].
  intro Hl. apply andb_true_iff in Hl. destruct Hl as [Hx Hl].
  cbn [np_cumsum diff]. f_equal. now apply np_cumsum_from_finite.
Qed.
End Floats.

Section Lists.
Context {A B : Type}.

Lemma StronglySorted_nth_error (R : A -> A -> Prop) (l : list A) :
  StronglySorted R l ->
  forall i j a b,
    (i < j)%nat -> nth_error l i = Some a -> nth_error l j = Some b -> R a b.
Proof.
  induction 1 as [| x l Hs IH Hall]; intros i j a b Hij Hi Hj.
  - now destruct i.
  - destruct j as [| j]; [lia |]. cbn in Hj. destruct i as [| i].
    + cbn in Hi. injection Hi as <-.
      rewrite Forall_forall in Hall. apply Hall.
      eapply nth_error_In; eauto.
    + cbn in Hi. apply (IH i j); auto. lia.
Qed.

Lemma nth_error_combine (l : list A) (m : list B) (i : nat) (a : A) (b : B) :
  nth_error (combine l m) i = Some (a, b) ->
  nth_error l i = Some a /\ nth_error m i = Some b.
Proof.
  revert m i. induction l as [| x l IH]; intros [| y m] [| i] Hi; cbn in *;
    try discriminate.
  - injection Hi as -> ->. auto.
  - now apply IH.
Qed.

Lemma map_fst_combine (l : list A) (m : list B) :
  length l = length m -> map fst (combine l m) = l.
Proof.
  revert m. induction l as [| x l IH]; intros [| y m] Hlen; cbn in *;
    try discriminate; auto.
  f_equal. apply IH. lia.
Qed.

Lemma map_snd_combine (l : list A) (m : list B) :
  length l = length m -> map snd (combine l m) = m.
Proof.
  revert m. induction l as [| x l IH]; intros [| y m] Hlen; cbn in *;
    try discriminate; auto.
  f_equal. apply IH. lia.
Qed.
End Lists.

Section Cumulative.
Context {X T F : Type} `{TimeLaws T} `{NumberLaws F} `{Transcendental F}
        `{External X T F}.

Lemma is_monotonic_increasing_sorted (ix : list T) :
  is_monotonic_increasing ix = true ->
  StronglySorted (fun a b => t_leb a b = true) ix.
Proof.
  induction ix as [| a ix IH]; intro Hm; [constructor |].
  destruct ix as [| b ix]; [repeat constructor |].
  cbn [is_monotonic_increasing] in Hm. apply andb_true_iff in Hm.
  destruct Hm as [Hab Hm]. specialize (IH Hm).
  constructor; [assumption |].
  constructor; [assumption |].
  apply StronglySorted_inv in IH. destruct IH as [_ Hall].
  eapply Forall_impl; [| exact Hall]. cbn. intros c Hbc.
  eapply t_leb_trans; eauto.
Qed.

Lemma is_strictly_increasing_monotonic (ix : list T) :
  is_strictly_increasing ix = true -> is_monotonic_increasing ix = true.
Proof.
  induction ix as [| a ix IH]; intro Hs; [reflexivity |].
  destruct ix as [| b ix]; [reflexivity |].
  cbn [is_strictly_increasing] in Hs. apply andb_true_iff in Hs.
  destruct Hs as [Hab Hs]. cbn [is_monotonic_increasing].
  rewrite (t_ltb_leb _ _ Hab). now apply IH.
Qed.

(** With a baseline series and neither [input] nor [target], the method
    runs its tail only (lines 92-100). *)
Lemma compute_baseline_cumulative_hazards_of_series
      (max_duration : option T) (sample : option F) (set_hazards : bool)
      (s : @Series T F) (self : model X T F) :
  compute_baseline_cumulative_hazards None TargetNone max_duration sample
                                      set_hazards (Some s) self
  = if is_monotonic_increasing (index s)
    then (Ok (cumsum s),
          if set_hazards
          then mk_model (klass self) (training_data self) (input_cols self)
                        (Some s) (Some (cumsum s))
          else self)
    else (Raise AssertionError, self).
Proof.
  unfold compute_baseline_cumulative_hazards. cbn [is_some target_is_none negb orb andb].
  unfold bind at 1. cbn [ret]. unfold cumulative_of_baseline.
  destruct (is_monotonic_increasing (index s)); [| reflexivity].
  now destruct set_hazards.
Qed.

Lemma index_cumsum (s : @Series T F) : index (cumsum s) = index s.
Proof.
  unfold cumsum, index at 1. apply map_fst_combine.
  unfold index, values. now rewrite length_cumsum_values, !length_map.
Qed.

Lemma values_cumsum (s : @Series T F) :
  values (cumsum s) = cumsum_values (values s).
Proof.
  unfold cumsum, values at 1. apply map_snd_combine.
  unfold index, values. now rewrite length_cumsum_values, !length_map.
Qed.

(** C3.  Given a baseline series, [compute_baseline_cumulative_hazards]
    raises [AssertionError] (model untouched) when the index is not
    monotonic increasing; otherwise it returns the series with the same
    index whose values are the prefix sums of the baseline values, and
    when these are non-negative the result is non-decreasing in the
    duration. *)
Theorem cumulative_hazards_prefix_sums_monotone :
  forall (max_duration : option T) (sample : option F) (set_hazards : bool)
         (s : @Series T F) (self : model X T F),
    (is_monotonic_increasing (index s) = false ->
     compute_baseline_cumulative_hazards None TargetNone max_duration sample
                                         set_hazards (Some s) self
     = (Raise AssertionError, self))
    /\ (is_monotonic_increasing (index s) = true ->
        fst (compute_baseline_cumulative_hazards
               None TargetNone max_duration sample set_hazards (Some s) self)
        = Ok (cumsum s)
        /\ index (cumsum s) = index s
        /\ (Forall (fun x => isnan x = false) (values s) ->
            values (cumsum s) = prefix_sums (values s))
        /\ (Forall (fun x => nonneg x = true) (values s) ->
            forall i j t1 v1 t2 v2,
              nth_error (cumsum s) i = Some (t1, v1) ->
              nth_error (cumsum s) j = Some (t2, v2) ->
              t_ltb t1 t2 = true -> xleb v1 v2 = true)).
Proof.
  intros md sample sh s self.
  rewrite compute_baseline_cumulative_hazards_of_series.
  split; intro Hm; rewrite Hm; [reflexivity |].
  split; [reflexivity |]. split; [apply index_cumsum |]. split.
  - intro Hnan. rewrite values_cumsum, cumsum_values_no_nan by assumption.
    apply np_cumsum_prefix_sums.
  - intros Hnn i j t1 v1 t2 v2 Hi Hj Hlt.
    assert (Hnan : Forall (fun x => isnan x = false) (values s)).
    { eapply Forall_impl; [| exact Hnn]. apply nonneg_not_nan. }
    unfold cumsum in Hi, Hj.
    apply nth_error_combine in Hi, Hj.
    destruct Hi as [Hti Hvi], Hj as [Htj Hvj].
    rewrite cumsum_values_no_nan in Hvi, Hvj by assumption.
    pose proof (is_monotonic_increasing_sorted _ Hm) as Hsorted.
    pose proof (np_cumsum_sorted _ Hnn) as Hvsorted.
    destruct (Nat.lt_trichotomy i j) as [Hij | [-> | Hji]].
    + eapply (StronglySorted_nth_error _ _ Hvsorted); eauto.
    + rewrite Hti in Htj. injection Htj as ->.
      rewrite t_ltb_irrefl in Hlt. discriminate.
    + pose proof (StronglySorted_nth_error _ _ Hsorted _ _ _ _ Hji Htj Hti) as Hle.
      unfold t_ltb in Hlt. cbn in Hle. rewrite Hle in Hlt. discriminate.
Qed.

End Cumulative.

Section RoundTrip.
Context {X T F : Type} `{TimeLaws T} `{Number F} `{Transcendental F}
        `{External X T F}.

(** What differencing makes of a running total: each entry is the sum
    of the total before it and the next value, less that total. *)
Lemma diff_np_cumsum_from (c : xreal F) (vs : list (xreal F)) :
  zip_with (fun prev cur => xsub cur prev)
           (c :: np_cumsum_from c vs) (np_cumsum_from c vs)
  = zip_with (fun prev x => xsub (xadd prev x) prev)
             (c :: np_cumsum_from c vs) vs.
Proof.
  revert c. induction vs as [| v vs IH]; intro c; [reflexivity |].
  cbn [np_cumsum_from zip_with]. f_equal. apply IH.
Qed.

(** C7 (as amended).  For a baseline series with strictly increasing
    index and no missing value, the cumulative series is returned with
    the same index, and differencing its consecutive values (the first
    one standing alone) gives back the first baseline value and, for
    each later value [v], the sum of the running total [c] before it and
    [v], less [c].  That is [v] itself wherever this addition and
    subtraction are exact; in exact arithmetic they are for all finite
    values, and then the baseline values are reproduced. *)
Theorem cumulative_then_diff_roundtrip :
  forall (max_duration : option T) (sample : option F) (set_hazards : bool)
         (s : @Series T F) (self : model X T F),
    is_strictly_increasing (index s) = true ->
    Forall (fun x => isnan x = false) (values s) ->
    exists bch : @Series T F,
      fst (compute_baseline_cumulative_hazards
             None TargetNone max_duration sample set_hazards (Some s) self)
      = Ok bch
      /\ index bch = index s
      /\ diff (values bch)
         = match values s with
           | [] => []
           | v :: vs =>
               v :: zip_with (fun c x => xsub (xadd c x) c) (values bch) vs
           end
      /\ ((forall c x : xreal F,
              In x (values s) -> In c (values bch) ->
              xsub (xadd c x) c = x) ->
          diff (values bch) = values s)
      /\ (NumberLaws F -> forallb isfinite (values s) = true ->
          diff (values bch) = values s).
Proof.
  intros md sample sh s self Hinc Hnan.
  rewrite compute_baseline_cumulative_hazards_of_series.
  rewrite (is_strictly_increasing_monotonic _ Hinc).
  exists (cumsum s). split; [reflexivity |]. split; [apply index_cumsum |].
  rewrite values_cumsum, cumsum_values_no_nan by assumption.
  assert (Hdiff : diff (np_cumsum (values s))
                  = match values s with
                    | [] => []
                    | v :: vs =>
                        v :: zip_with (fun c x => xsub (xadd c x) c)
                                      (np_cumsum (values s)) vs
                    end).
  { destruct (values s) as [| v vs]; [reflexivity |].
    cbn [np_cumsum diff]. f_equal. apply diff_np_cumsum_from. }
  split; [exact Hdiff |]. split.
  - intro Hexact. rewrite Hdiff.
    destruct (values s) as [| v vs] eqn:Hvs; [reflexivity |]. f_equal.
    assert (Hgen : forall (cs ws : list (xreal F)),
               (forall c x, In x ws -> In c cs -> xsub (xadd c x) c = x) ->
               (length ws <= length cs)%nat ->
               zip_with (fun c x => xsub (xadd c x) c) cs ws = ws).
    { intros cs ws. revert cs.
      induction ws as [| w ws IH]; intros [| c cs] Hex Hlen; cbn in *;
        try reflexivity; try lia.
      f_equal; [apply Hex; auto |]. apply IH; [| lia].
      intros c' x Hx Hc'. apply Hex; auto. }
    apply Hgen.
    + intros c x Hx Hc. apply Hexact; [now right | exact Hc].
    + rewrite length_np_cumsum. cbn. lia.
  - intros L Hfin. now apply diff_np_cumsum.
Qed.
End RoundTrip.

(* ================================================================== *)
(** ** Grouping and sorting by duration *)

Section Sorting.
Context {T : Type} `{TimeLaws T}.

Lemma StronglySorted_app_inv {A} (R : A -> A -> Prop) (l m : list A) :
  StronglySorted R (l ++ m) ->
  StronglySorted R l /\ StronglySorted R m
  /\ Forall (fun a => Forall (R a) m) l.
Proof.
  induction l as [| a l IH]; cbn; intro Hs.
  - repeat split; auto; constructor.
  - apply StronglySorted_inv in Hs. destruct Hs as [Hs Hall].
    destruct (IH Hs) as (Hl & Hm & Hlm).
    apply Forall_app in Hall. destruct Hall as [Hal Ham].
    repeat split; auto; constructor; auto.
Qed.

Lemma StronglySorted_app {A} (R : A -> A -> Prop) (l m : list A) :
  StronglySorted R l -> StronglySorted R m ->
  Forall (fun a => Forall (R a) m) l ->
  StronglySorted R (l ++ m).
Proof.
  induction 1 as [| a l Hs IH Hall]; cbn; intros Hm Hlm; auto.
  apply Forall_cons_iff in Hlm. destruct Hlm as [Ham Hlm].
  constructor; auto. apply Forall_app. auto.
Qed.

Lemma StronglySorted_rev {A} (R : A -> A -> Prop) (l : list A) :
  StronglySorted R l -> StronglySorted (fun a b => R b a) (rev l).
Proof.
  induction 1 as [| a l Hs IH Hall]; cbn; [constructor |].
  apply StronglySorted_app; auto.
  - repeat constructor.
  - apply Forall_forall. intros b Hb. repeat constructor.
    rewrite Forall_forall in Hall. apply Hall. now apply in_rev.
Qed.

Lemma StronglySorted_map {A B} (R : B -> B -> Prop) (f : A -> B) (l : list A) :
  StronglySorted (fun a b => R (f a) (f b)) l -> StronglySorted R (map f l).
Proof.
  induction 1 as [| a l Hs IH Hall]; cbn; constructor; auto.
  apply Forall_map. exact Hall.
Qed.

Lemma In_insert_key (t x : T) (keys : list T) :
  In x (insert_key t keys) <-> x = t \/ In x keys.
Proof.
  induction keys as [| k keys IH]; cbn.
  - intuition.
  - destruct (t_ltb t k) eqn:Hlt; cbn; [intuition |].
    destruct (t_eqb t k) eqn:Heq; cbn.
    + apply t_eqb_eq in Heq. subst. intuition.
    + rewrite IH. intuition.
Qed.

Lemma insert_key_sorted (t : T) (keys : list T) :
  StronglySorted (fun a b => t_ltb a b = true) keys ->
  StronglySorted (fun a b => t_ltb a b = true) (insert_key t keys).
Proof.
  induction 1 as [| k keys Hs IH Hall]; cbn; [repeat constructor |].
  destruct (t_ltb t k) eqn:Hlt.
  - constructor; [now constructor |].
    constructor; auto.
    eapply Forall_impl; [| exact Hall]. cbn. intros c Hc.
    eapply t_ltb_trans; eauto.
  - destruct (t_eqb t k) eqn:Heq; [now constructor |].
    constructor; auto.
    apply Forall_forall. intros x Hx. apply In_insert_key in Hx.
    destruct Hx as [-> | Hx].
    + unfold t_ltb, t_eqb in *. apply negb_false_iff in Hlt.
      rewrite Hlt in *. rewrite andb_true_r in Heq. now rewrite Heq.
    + rewrite Forall_forall in Hall. now apply Hall.
Qed.

(** The group keys are strictly ascending and are exactly the durations
    that occur. *)
Lemma group_keys_sorted (durations : list T) :
  StronglySorted (fun a b => t_ltb a b = true) (group_keys durations).
Proof.
  induction durations as [| d ds IH]; cbn; [constructor |].
  now apply insert_key_sorted.
Qed.

Lemma In_group_keys (t : T) (durations : list T) :
  In t (group_keys durations) <-> In t durations.
Proof.
  induction durations as [| d ds IH]; cbn; [tauto |].
  rewrite In_insert_key, IH. intuition.
Qed.

(** Inserting in front of a list whose keys are all smaller. *)
Lemma insert_desc_head {A} (key : A -> T) (a : A) (l : list A) :
  Forall (fun b => t_ltb (key b) (key a) = true) l ->
  insert_desc key a l = a :: l.
Proof.
  destruct 1 as [| b l Hb _]; cbn; [reflexivity |]. now rewrite Hb.
Qed.

Lemma fold_insert_desc_sorted {A} (key : A -> T) (l : list A) :
  StronglySorted (fun a b => t_ltb (key b) (key a) = true) l ->
  fold_right (insert_desc key) [] l = l.
Proof.
  induction 1 as [| a l Hs IH Hall]; cbn; [reflexivity |].
  rewrite IH. now apply insert_desc_head.
Qed.

(** Sorting a strictly ascending table in descending order reverses it. *)
Lemma sort_desc_ascending {A} (key : A -> T) (l : list A) :
  StronglySorted (fun a b => t_ltb (key a) (key b) = true) l ->
  sort_desc key l = rev l.
Proof.
  intro Hs. unfold sort_desc. apply fold_insert_desc_sorted.
  now apply (StronglySorted_rev (fun a b => t_ltb (key a) (key b) = true)).
Qed.

(** In a strictly descending list, the entries that are at least [t] are
    the ones up to [t]. *)
Lemma filter_ge_descending (pre post : list T) (t : T) :
  StronglySorted (fun a b => t_ltb b a = true) (pre ++ t :: post) ->
  filter (fun t' => t_leb t t') (pre ++ t :: post) = pre ++ [t].
Proof.
  intro Hs. apply StronglySorted_app_inv in Hs.
  destruct Hs as (_ & Hpost & Hpre).
  apply StronglySorted_inv in Hpost. destruct Hpost as [_ Hpost].
  rewrite filter_app. cbn [filter]. rewrite t_leb_refl. f_equal.
  - apply forallb_filter_id. apply forallb_forall. intros a Ha.
    rewrite Forall_forall in Hpre. specialize (Hpre a Ha).
    apply Forall_inv in Hpre. apply t_ltb_leb. exact Hpre.
  - f_equal. clear Hpre. induction Hpost as [| b post Hb _ IH]; [reflexivity |].
    cbn [filter]. unfold t_ltb in Hb. apply negb_true_iff in Hb.
    rewrite Hb. exact IH.
Qed.
End Sorting.

(* ================================================================== *)
(** ** The Breslow baseline hazards *)

Section Breslow.
Context {X T F : Type} `{TimeLaws T} `{NumberLaws F} `{Transcendental F}
        `{External X T F}.

Lemma xexp_no_nan_ninf (g : xreal F) :
  isnan g = false -> no_nan_ninf (xexp g) = true.
Proof. destruct g as [x | | |]; cbn; auto. now destruct (exp_overflows x). Qed.

Lemma no_nan_ninf_not_nan (a : xreal F) :
  no_nan_ninf a = true -> isnan a = false.
Proof. now destruct a. Qed.

Lemma xadd_no_nan_ninf (a b : xreal F) :
  no_nan_ninf a = true -> no_nan_ninf b = true ->
  no_nan_ninf (xadd a b) = true.
Proof. destruct a, b; cbn; auto. Qed.

Lemma fold_xadd_no_nan_ninf (l : list (xreal F)) (acc : xreal F) :
  no_nan_ninf acc = true ->
  Forall (fun x => no_nan_ninf x = true) l ->
  no_nan_ninf (fold_left xadd l acc) = true.
Proof.
  intros Hacc Hl. revert acc Hacc.
  induction Hl as [| x l Hx _ IH]; intros acc Hacc; cbn; auto.
  apply IH. now apply xadd_no_nan_ninf.
Qed.

Lemma nansum_no_nan (l : list (xreal F)) :
  Forall (fun x => isnan x = false) l -> nansum l = xsum l.
Proof.
  intro Hl. unfold nansum, xsum. generalize (@Fin F f0).
  induction Hl as [| x l Hx _ IH]; intro acc; cbn; [reflexivity |].
  now rewrite Hx, IH.
Qed.

Lemma xsum_snoc (l : list (xreal F)) (x : xreal F) :
  xsum (l ++ [x]) = xadd (xsum l) x.
Proof. unfold xsum. now rewrite fold_left_app. Qed.

Lemma np_cumsum_from_zero (l : list (xreal F)) :
  np_cumsum l = np_cumsum_from (Fin f0) l.
Proof.
  destruct l as [| x l]; [reflexivity |].
  cbn [np_cumsum np_cumsum_from]. now rewrite xadd_0_l.
Qed.

(** The running total over a strictly descending list of keys is, at
    each key, the sum over the keys that are at least as large. *)
Lemma np_cumsum_from_descending (f : T -> xreal F) (pre keys : list T) :
  StronglySorted (fun a b => t_ltb b a = true) (pre ++ keys) ->
  np_cumsum_from (xsum (map f pre)) (map f keys)
  = map (fun t => xsum (map f (filter (fun t' => t_leb t t') (pre ++ keys))))
        keys.
Proof.
  revert pre. induction keys as [| t keys IH]; intros pre Hs; [reflexivity |].
  cbn [map np_cumsum_from]. rewrite <- xsum_snoc, <- map_last.
  f_equal.
  - now rewrite filter_ge_descending.
  - replace (pre ++ t :: keys) with ((pre ++ [t]) ++ keys) in *
      by now rewrite <- app_assoc.
    now apply IH.
Qed.

Lemma zip_with_map {A B C D} (f : B -> C -> D) (g : A -> B) (h : A -> C)
      (l : list A) :
  zip_with f (map g l) (map h l) = map (fun a => f (g a) (h a)) l.
Proof. induction l; cbn; congruence. Qed.

Lemma filter_map_comm {A B} (p : B -> bool) (f : A -> B) (l : list A) :
  filter p (map f l) = map f (filter (fun a => p (f a)) l).
Proof.
  induction l as [| a l IH]; cbn; [reflexivity |].
  destruct (p (f a)); cbn; congruence.
Qed.

Lemma map_fst_filter_combine {A B} (p : A -> bool) (l : list A) (m : list B) :
  length l = length m ->
  map fst (filter (fun r => p (fst r)) (combine l m)) = filter p l.
Proof.
  revert m. induction l as [| a l IH]; intros [| b m] Hlen; cbn in *;
    try discriminate; auto.
  destruct (p a); cbn; rewrite IH by lia; reflexivity.
Qed.
Lemma Forall_snd_filter_combine {A B} (P : B -> Prop) (p : A * B -> bool)
      (l : list A) (m : list B) :
  Forall P m -> Forall P (map snd (filter p (combine l m))).
Proof.
  intro Hm. apply Forall_forall. intros b Hb.
  apply in_map_iff in Hb. destruct Hb as ([a b'] & <- & Hin).
  apply filter_In in Hin. destruct Hin as [Hin _].
  apply in_combine_r in Hin. rewrite Forall_forall in Hm. now apply Hm.
Qed.

Lemma sum_expg_no_nan_ninf (df : list (row T F)) (expg : list (xreal F)) (t : T) :
  Forall (fun x => no_nan_ninf x = true) expg ->
  no_nan_ninf (sum_expg df expg t) = true.
Proof.
  intro He. unfold sum_expg, xsum. apply fold_xadd_no_nan_ninf; [reflexivity |].
  now apply Forall_snd_filter_combine.
Qed.

(** The grouped table holds, per distinct duration, [sum_expg] and
    [num_events]. *)
Lemma groupby_agg_sum_spec (df : list (row T F)) (expg : list (xreal F)) :
  length df = length expg ->
  Forall (fun x => no_nan_ninf x = true) expg ->
  groupby_agg_sum (combine df expg)
  = map (fun t => (t, (sum_expg df expg t, num_events df t)))
        (group_keys (map (@duration T F) df)).
Proof.
  intros Hlen He. unfold groupby_agg_sum.
  rewrite <- (map_map fst (@duration T F)), map_fst_combine by assumption.
  apply map_ext. intro t. f_equal. f_equal.
  - unfold sum_expg. apply nansum_no_nan.
    apply Forall_snd_filter_combine.
    eapply Forall_impl; [| exact He]. apply no_nan_ninf_not_nan.
  - unfold num_events. rewrite <- (map_map fst (@event T F)).
    now rewrite (map_fst_filter_combine (fun r => t_eqb (duration r) t)).
Qed.

(** After the descending sort, the running total of [sum_expg] is
    [risk_set_expg]. *)
Lemma assign_cumsum_expg_spec (df : list (row T F)) (expg : list (xreal F)) :
  Forall (fun x => no_nan_ninf x = true) expg ->
  assign_cumsum_expg
    (map (fun t => (t, (sum_expg df expg t, num_events df t)))
         (durations_desc df))
  = map (fun t => (t, (risk_set_expg df expg t, num_events df t)))
        (durations_desc df).
Proof.
  intro He. unfold assign_cumsum_expg. rewrite map_map. cbn [fst snd].
  rewrite cumsum_values_no_nan, np_cumsum_from_zero.
  - change (@Fin F f0) with (xsum (map (sum_expg df expg) [])).
    rewrite np_cumsum_from_descending.
    + cbn [app]. fold (risk_set_expg df expg).
      unfold risk_set_expg. rewrite zip_with_map. reflexivity.
    + cbn [app]. unfold durations_desc.
      apply (StronglySorted_rev (fun a b => t_ltb a b = true)).
      apply group_keys_sorted.
  - apply Forall_map. apply Forall_forall. intros t _.
    apply no_nan_ninf_not_nan. now apply sum_expg_no_nan_ninf.
Qed.

(** The series returned by [_compute_baseline_hazards]. *)
Lemma _compute_baseline_hazards_spec
      (self : model X T F) (input : X) (df : list (row T F))
      (max_duration : option T) :
  klass self <> CoxBase ->
  length (predict input) = length df ->
  Forall (fun g => isnan g = false) (predict input) ->
  _compute_baseline_hazards self input df max_duration
  = Ok (map (fun t => (t, breslow_hazard df (map xexp (predict input)) t))
            (filter (le_max_duration max_duration)
                    (group_keys (map (@duration T F) df)))).
Proof.
  intros Hk Hlen Hnan.
  set (expg := map xexp (predict input)).
  assert (He : Forall (fun x => no_nan_ninf x = true) expg).
  { apply Forall_map. eapply Forall_impl; [| exact Hnan].
    apply xexp_no_nan_ninf. }
  assert (Hlen' : length df = length expg).
  { unfold expg. now rewrite length_map. }
  assert (Hbody :
    rbind (assign df expg) (fun df0 =>
      Ok (filter (fun p => le_max_duration max_duration (fst p))
            (rev (fillna (events_over_expg (assign_cumsum_expg
               (sort_desc fst (groupby_agg_sum df0))))))))
    = Ok (map (fun t => (t, breslow_hazard df expg t))
            (filter (le_max_duration max_duration)
                    (group_keys (map (@duration T F) df))))).
  { unfold assign. rewrite Hlen', Nat.eqb_refl. cbn [rbind]. f_equal.
    rewrite groupby_agg_sum_spec by assumption.
    rewrite sort_desc_ascending.
    2:{ apply StronglySorted_map. cbn [fst]. apply group_keys_sorted. }
    rewrite <- map_rev. fold (durations_desc df).
    rewrite assign_cumsum_expg_spec by assumption.
    unfold events_over_expg, fillna. rewrite !map_map. cbn [fst snd].
    rewrite <- map_rev. unfold durations_desc. rewrite rev_involutive.
    rewrite filter_map_comm. reflexivity. }
  unfold _compute_baseline_hazards. fold expg.
  destruct (klass self); [contradiction | exact Hbody | exact Hbody].
Qed.

Lemma breslow_hazard_cases (df : list (row T F)) (expg : list (xreal F)) (t : T) :
  (forall d, risk_set_expg df expg t = Fin d -> d <> f0 ->
             breslow_hazard df expg t = Fin (fdiv (num_events df t) d))
  /\ (risk_set_expg df expg t = Fin f0 -> num_events df t = f0 ->
      breslow_hazard df expg t = Fin f0)
  /\ (risk_set_expg df expg t = Fin f0 -> f_ltb f0 (num_events df t) = true ->
      breslow_hazard df expg t = PInf)
  /\ (risk_set_expg df expg t = PInf -> breslow_hazard df expg t = Fin f0).
Proof.
  unfold breslow_hazard. repeat split.
  - intros d -> Hd. cbn. now rewrite (f_eqb_neq _ _ Hd).
  - intros -> ->. cbn. unfold fsign. now rewrite !f_eqb_refl.
  - intros -> Hpos. cbn. unfold fsign. rewrite f_eqb_refl.
    rewrite (f_eqb_neq (num_events df t) f0).
    + now rewrite (f_ltb_leb _ _ Hpos).
    + intro Heq. apply (f_ltb_neq _ _ Hpos). now symmetry.
  - intros ->. reflexivity.
Qed.
End Breslow.

Section BreslowTheorem.
Context {X T F : Type} `{TimeLaws T} `{NumberLaws F} `{Transcendental F}
        `{External X T F}.

(** C1 (as amended).  For a cohort with an aligned vector of scores that
    are not [NaN], the series returned by [_compute_baseline_hazards]
    lists the distinct durations up to [max_duration] in ascending order
    (all of them when there is no cutoff), each with the float quotient
    [num_events(t) / risk_set_expg(t)] in which a missing result is
    replaced by zero: the exact quotient for a finite non-zero
    denominator, 0 for the quotient 0/0, 0 for an infinite denominator,
    and [+inf] for a positive event count over a zero denominator. *)
Theorem baseline_hazards_breslow :
  forall (self : model X T F) (input : X) (df : list (row T F))
         (max_duration : option T),
    klass self <> CoxBase ->
    length (predict input) = length df ->
    Forall (fun g => isnan g = false) (predict input) ->
    let expg := map xexp (predict input) in
    let keys := group_keys (map (@duration T F) df) in
    _compute_baseline_hazards self input df max_duration
    = Ok (map (fun t => (t, breslow_hazard df expg t))
              (filter (le_max_duration max_duration) keys))
    /\ StronglySorted (fun a b => t_ltb a b = true) keys
    /\ (forall t, In t keys <-> In t (map (@duration T F) df))
    /\ (forall t,
           (forall d, risk_set_expg df expg t = Fin d -> d <> f0 ->
                      breslow_hazard df expg t = Fin (fdiv (num_events df t) d))
           /\ (risk_set_expg df expg t = Fin f0 -> num_events df t = f0 ->
               breslow_hazard df expg t = Fin f0)
           /\ (risk_set_expg df expg t = Fin f0 ->
               f_ltb f0 (num_events df t) = true ->
               breslow_hazard df expg t = PInf)
           /\ (risk_set_expg df expg t = PInf ->
               breslow_hazard df expg t = Fin f0)).
Proof.
  intros self input df md Hk Hlen Hnan expg keys.
  split; [now apply _compute_baseline_hazards_spec |].
  split; [apply group_keys_sorted |].
  split; [intro t; apply In_group_keys |].
  intro t. apply breslow_hazard_cases.
Qed.
End BreslowTheorem.

Lemma R_f_eqb_true (a b : R) : a = b -> @f_eqb R _ a b = true.
Proof. intro Hab. now apply R_eqb_eq. Qed.

Lemma R_f_eqb_false (a b : R) : a <> b -> @f_eqb R _ a b = false.
Proof.
  intro Hab. destruct (f_eqb a b) eqn:E; auto.
  apply R_eqb_eq in E. contradiction.
Qed.

Lemma R_f_leb_true (a b : R) : (a <= b)%R -> @f_leb R _ a b = true.
Proof. intro Hab. now apply R_leb_le. Qed.

(** The instance of C1 that fails: one subject with an event and the
    score [-inf].  The denominator [risk_set_expg(1)] is zero, and the
    hazard returned for the duration 1 is [+inf], not 0. *)
Lemma baseline_hazard_zero_denominator_is_inf :
  risk_set_expg lone_event_df (map xexp lone_event_scores) 1%Z = Fin 0%R
  /\ _compute_baseline_hazards fresh_model lone_event_scores lone_event_df None
     = Ok [(1%Z, PInf)]
  /\ @PInf R <> Fin 0%R.
Proof.
  assert (Hrisk : risk_set_expg lone_event_df (map xexp lone_event_scores) 1%Z
                  = Fin 0%R).
  { cbv [risk_set_expg durations_desc lone_event_df range_rows map duration
         group_keys fold_right insert_key rev app filter t_leb Z_Time
         sum_expg lone_event_scores xexp combine t_eqb fst snd xsum fold_left
         xadd f0 fadd R_Number].
    cbn [Z.leb Z.compare Pos.compare Pos.compare_cont andb].
    cbv [filter map fold_left fst snd t_eqb t_leb Z_Time duration xadd].
    cbn [Z.leb Z.compare Pos.compare Pos.compare_cont andb map fold_left].
    f_equal. lra. }
  split; [exact Hrisk |]. split; [| discriminate].
  rewrite _compute_baseline_hazards_spec.
  - cbn [predict list_External].
    cbv [lone_event_df range_rows map duration group_keys fold_right
         insert_key le_max_duration filter].
    f_equal. f_equal. f_equal.
    destruct (breslow_hazard_cases lone_event_df
                (map xexp lone_event_scores) 1%Z)
      as (_ & _ & Hinf & _).
    apply Hinf; [exact Hrisk |].
    cbv [num_events lone_event_df range_rows filter duration t_eqb t_leb
         Z_Time map event fsum fold_left].
    cbn [Z.leb Z.compare Pos.compare Pos.compare_cont andb fold_left map].
    unfold f_ltb. rewrite (proj2 (negb_true_iff _)); [reflexivity |].
    destruct (f_leb (fadd f0 1%R) f0) eqn:E; auto.
    apply R_leb_le in E. cbn in E. lra.
  - discriminate.
  - reflexivity.
  - repeat constructor.
Qed.

(** The Breslow characterisation at the cohort of the specification,
    cut off at duration 2. *)
Lemma baseline_hazards_breslow_witness :
  klass fresh_model <> CoxBase
  /\ length (predict (T := Z) cohort_scores) = length cohort_df
  /\ Forall (fun g : xreal R => isnan g = false) cohort_scores
  /\ _compute_baseline_hazards fresh_model cohort_scores cohort_df (Some 2%Z)
     = Ok [(2%Z, breslow_hazard cohort_df (map xexp cohort_scores) 2%Z)].
Proof.
  split; [discriminate |]. split; [reflexivity |].
  split; [repeat constructor |].
  exact (proj1 (baseline_hazards_breslow
                  fresh_model cohort_scores cohort_df (Some 2%Z)
                  ltac:(discriminate) eq_refl
                  ltac:(repeat constructor))).
Defined.

(* ================================================================== *)
(** ** The cohort of the specification *)

(** Evaluation over the reals: unfold everything but the real-number
    operations, then decide the comparisons that are left. *)
Ltac r_eval :=
  cbv - [Rplus Rminus Rmult Rdiv Ropp Rinv Rle_dec Req_dec_T IZR exp ln Rlt Rle].

Ltac r_decide :=
  repeat match goal with
    | |- context [if Req_dec_T ?a ?b then _ else _] =>
        destruct (Req_dec_T a b); try lra
    | |- context [if Rle_dec ?a ?b then _ else _] =>
        destruct (Rle_dec a b); try lra
    end.

Section Cohort.
Context {X : Type} `{External X Z R}.

Lemma xexp_Fin_not_nan (g : xreal R) (x : R) :
  xexp g = Fin x -> isnan g = false.
Proof. destruct g; cbn; auto; discriminate. Qed.

(** C5.  For durations [2,2,3], events [1,0,1] and [exp(g) = [1,1,2]] the
    baseline hazards are 1/4 at duration 2 and 1/2 at duration 3, and the
    cumulative hazards derived from them are 1/4 and 3/4. *)
Theorem cohort_hazards :
  forall (self : model X Z R) (input : X),
    klass self <> CoxBase ->
    map xexp (predict input) = [Fin 1%R; Fin 1%R; Fin 2%R] ->
    _compute_baseline_hazards self input cohort_df None
    = Ok [(2%Z, Fin (1 / 4)%R); (3%Z, Fin (1 / 2)%R)]
    /\ forall max_duration sample set_hazards,
        fst (compute_baseline_cumulative_hazards
               None TargetNone max_duration sample set_hazards
               (Some [(2%Z, Fin (1 / 4)%R); (3%Z, Fin (1 / 2)%R)]) self)
        = Ok [(2%Z, Fin (1 / 4)%R); (3%Z, Fin (3 / 4)%R)].
Proof.
  intros self input Hk Hexp. split.
  - rewrite _compute_baseline_hazards_spec; auto.
    + rewrite Hexp. f_equal.
      change (filter (le_max_duration None)
                     (group_keys (map (@duration Z R) cohort_df)))
        with [2%Z; 3%Z].
      cbn [map]. repeat f_equal.
      * r_eval. r_decide. f_equal. lra.
      * r_eval. r_decide. f_equal. lra.
    + apply (f_equal (@length _)) in Hexp. rewrite length_map in Hexp.
      exact Hexp.
    + destruct (predict input) as [| g1 [| g2 [| g3 [| g4 l]]]];
        try discriminate.
      cbn [map] in Hexp. injection Hexp as H1 H2 H3.
      repeat constructor; eapply xexp_Fin_not_nan; eauto.
  - intros md sample sh.
    rewrite (compute_baseline_cumulative_hazards_of_series
               md sample sh
               [(2%Z, Fin (1 / 4)%R); (3%Z, Fin (1 / 2)%R)] self).
    change (is_monotonic_increasing
              (index [(2%Z, Fin (1 / 4)%R); (3%Z, Fin (1 / 2)%R)]))
      with true.
    cbn [fst]. f_equal. r_eval.
    replace (1 / 4 + 1 / 2)%R with (3 / 4)%R by lra. reflexivity.
Qed.
End Cohort.

Lemma exp_cohort_scores :
  map xexp (predict (T := Z) cohort_scores) = [Fin 1%R; Fin 1%R; Fin 2%R].
Proof.
  cbn. rewrite exp_0, exp_ln by lra. reflexivity.
Qed.

(** The cohort with the scores [0, 0, ln 2]. *)
Lemma cohort_hazards_witness :
  _compute_baseline_hazards fresh_model cohort_scores cohort_df None
  = Ok [(2%Z, Fin (1 / 4)%R); (3%Z, Fin (1 / 2)%R)].
Proof.
  exact (proj1 (cohort_hazards fresh_model cohort_scores
                               ltac:(discriminate) exp_cohort_scores)).
Defined.

(* ================================================================== *)
(** ** The partial log-likelihood *)

Section GroupMax.
Context {T F : Type} `{TimeLaws T} `{NumberLaws F}.



Lemma StronglySorted_map_snd_filter {A B} (R : B -> B -> Prop)
      (p : A * B -> bool) (l : list (A * B)) :
  StronglySorted R (map snd l) -> StronglySorted R (map snd (filter p l)).
Proof.
  induction l as [| x l IH]; cbn; intro Hs; [constructor |].
  apply StronglySorted_inv in Hs. destruct Hs as [Hs Hall].
  destruct (p x); cbn; auto.
  constructor; auto.
  apply Forall_forall. intros b Hb.
  rewrite Forall_forall in Hall. apply Hall.
  apply in_map_iff in Hb. destruct Hb as (y & <- & Hy).
  apply filter_In in Hy. apply in_map. tauto.
Qed.

Lemma filter_nil {A} (p : A -> bool) (l : list A) :
  (forall a, In a l -> p a = false) -> filter p l = [].
Proof.
  induction l as [| a l IH]; cbn; intro Hp; [reflexivity |].
  rewrite (Hp a) by auto. apply IH. auto.
Qed.


End GroupMax.

Section SortDesc.
Context {T : Type} `{TimeLaws T}.



Lemma insert_desc_perm {A} (key : A -> T) (a : A) (l : list A) :
  Permutation (insert_desc key a l) (a :: l).
Proof.
  induction l as [| b l IH]; cbn; [reflexivity |].
  destruct (t_ltb (key b) (key a)); [reflexivity |].
  rewrite IH. apply perm_swap.
Qed.

Lemma sort_desc_perm {A} (key : A -> T) (l : list A) :
  Permutation (sort_desc key l) l.
Proof.
  unfold sort_desc. rewrite (Permutation_rev l) at 2.
  induction (rev l) as [| a m IH]; cbn; [reflexivity |].
  rewrite insert_desc_perm. now constructor.
Qed.


End SortDesc.

Section Sums.
Context {F : Type} `{NumberLaws F}.






End Sums.

Section Likelihood.
Context {X T F : Type} {HT : Time T} {HTL : TimeLaws T}
        {HN : Number F} {HNL : NumberLaws F}
        {HTr : Transcendental F} {HE : ExpLaws F}
        {HX : External X T F}.




Lemma length_range_rows (start : nat) (durations : list T) (events : list F) :
  length durations = length events ->
  length (range_rows start durations events) = length durations.
Proof.
  revert start events. induction durations as [| d ds IH];
    intros start [| e es] Hlen; cbn in *; try discriminate; auto.
Qed.


End Likelihood.

Section LikelihoodReal.
Context {X : Type} {HX : External X Z R}.

End LikelihoodReal.


(* ================================================================== *)
(** ** The theorems at concrete inputs *)

(** The survival value of the entry [H = 1000] under the exponential
    with the range of binary64. *)
Lemma survival_is_exp_neg_cumulative_hazard_witness :
  exists u : R,
    @xexp R R_Number float_exp (xopp (Fin 1000%R)) = Fin u
    /\ (0 <= u <= 1)%R.
Proof.
  apply (proj1 (proj2 (proj2 (proj2
           (@survival_is_exp_neg_cumulative_hazard
              (list (xreal R)) Z Z_Time (list_External Z R)
              float_exp float_exp_laws))))).
  lra.
Defined.

(** One subject with the score 0 on a model with a single cached
    entry: the cumulative hazard is the entry, the survival value its
    exponential. *)
Lemma one_entry_prediction (h : R) :
  predict_cumulative_hazards (H1 := float_exp)
                             (InputArray [Fin 0%R]) None None
                             (one_entry_model h)
  = (Ok (mk_table (Some [1%Z]) [[Fin h]]), one_entry_model h)
  /\ predict_survival_function (H1 := float_exp)
                               (InputArray [Fin 0%R]) None None
                               (one_entry_model h)
     = (Ok (mk_table (Some [1%Z])
                     [[@xexp R R_Number float_exp (Fin (- h)%R)]]),
        one_entry_model h).
Proof.
  assert (Hexp : @xexp R R_Number float_exp (Fin 0%R) = Fin 1%R)
    by (apply float_exp_one; lra).
  assert (Hh : predict_cumulative_hazards
                 (H1 := float_exp) (InputArray [Fin 0%R]) None None
                 (one_entry_model h)
               = (Ok (mk_table (Some [1%Z]) [[Fin h]]), one_entry_model h)).
  { cbv [predict_cumulative_hazards resolve_input bind get ret raise lift
         has_baseline_hazards_ is_some deref get_baseline_hazards_
         get_baseline_cumulative_hazards_ _predict_cumulative_hazards
         baseline_hazards_ baseline_cumulative_hazards_ klass one_entry_model
         is_monotonic_increasing index values map fst snd filter
         le_max_duration outer predict list_External].
    rewrite Hexp. cbn [xmul]. repeat f_equal. cbn. lra. }
  split; [exact Hh |].
  unfold predict_survival_function, bind. rewrite Hh. reflexivity.
Qed.

(** The instances at which C4 fails as it was stated.  With the
    cumulative hazard 1000, a finite number that is not negative, the
    survival value is 0, which is not in (0, 1]; with a negative
    cumulative hazard next to 0 it is 1, which is not greater than 1. *)
Lemma survival_underflows_to_zero :
  (predict_cumulative_hazards (H1 := float_exp)
                              (InputArray [Fin 0%R]) None None late_model
   = (Ok (mk_table (Some [1%Z]) [[Fin 1000%R]]), late_model)
   /\ predict_survival_function (H1 := float_exp)
                                (InputArray [Fin 0%R]) None None late_model
      = (Ok (mk_table (Some [1%Z]) [[Fin 0%R]]), late_model)
   /\ ~ (0 < 0)%R)
  /\ (predict_cumulative_hazards (H1 := float_exp)
                                 (InputArray [Fin 0%R]) None None
                                 negative_model
      = (Ok (mk_table (Some [1%Z]) [[Fin (- (1 / 100000000000000000))%R]]),
         negative_model)
      /\ (- (1 / 100000000000000000) < 0)%R
      /\ predict_survival_function (H1 := float_exp)
                                   (InputArray [Fin 0%R]) None None
                                   negative_model
         = (Ok (mk_table (Some [1%Z]) [[Fin 1%R]]), negative_model)
      /\ ~ (1 < 1)%R).
Proof.
  split.
  - destruct (one_entry_prediction 1000) as [Hh Hs].
    split; [exact Hh |]. split; [| lra].
    unfold late_model. rewrite Hs, float_exp_underflow by lra. reflexivity.
  - destruct (one_entry_prediction (- (1 / 100000000000000000)))
      as [Hh Hs].
    split; [exact Hh |]. split; [lra |]. split; [| lra].
    unfold negative_model. rewrite Hs, float_exp_one by lra. reflexivity.
Qed.

Lemma cohort_baseline_nonneg :
  Forall (fun x : xreal R => nonneg x = true) (values cohort_baseline).
Proof.
  repeat constructor; cbn; apply R_f_leb_true; lra.
Qed.

(** At the baseline hazards of the cohort: the cumulative value at duration 2 is at most the one at
    duration 3. *)
Lemma cumulative_hazards_prefix_sums_monotone_witness :
  is_monotonic_increasing (index cohort_baseline) = true
  /\ forall v1 v2 : xreal R,
      nth_error (cumsum cohort_baseline) 0 = Some (2%Z, v1) ->
      nth_error (cumsum cohort_baseline) 1 = Some (3%Z, v2) ->
      xleb v1 v2 = true.
Proof.
  split; [reflexivity |].
  intros v1 v2 H1 H2.
  destruct (cumulative_hazards_prefix_sums_monotone
              (X := list (xreal R)) None None false
              cohort_baseline fresh_model) as [_ Hm].
  destruct (Hm eq_refl) as (_ & _ & _ & Hmono).
  exact (Hmono cohort_baseline_nonneg 0%nat 1%nat 2%Z v1 3%Z v2 H1 H2 eq_refl).
Defined.

(** The round trip at the baseline hazards of the cohort. *)
Lemma cumulative_then_diff_roundtrip_witness :
  is_strictly_increasing (index cohort_baseline) = true
  /\ Forall (fun x : xreal R => isnan x = false) (values cohort_baseline)
  /\ exists bch : list (Z * xreal R),
      fst (compute_baseline_cumulative_hazards
             None TargetNone None None false (Some cohort_baseline)
             fresh_model)
      = Ok bch
      /\ index bch = index cohort_baseline
      /\ diff (values bch) = values cohort_baseline.
Proof.
  assert (Hinc : is_strictly_increasing (index cohort_baseline) = true)
    by reflexivity.
  assert (Hnan : Forall (fun x : xreal R => isnan x = false)
                        (values cohort_baseline))
    by (repeat constructor).
  split; [exact Hinc |]. split; [exact Hnan |].
  destruct (cumulative_then_diff_roundtrip
              (X := list (xreal R)) None None false cohort_baseline
              fresh_model Hinc Hnan)
    as (bch & Hrun & Hix & _ & _ & Hexact).
  exists bch. split; [exact Hrun |]. split; [exact Hix |].
  exact (Hexact R_NumberLaws eq_refl).
Defined.

(** The instances at which C7 fails as it was stated.  With an infinite
    hazard the running total is infinite from there on and the
    differences are [NaN]; a missing value stays missing in the running
    total and makes the next difference [NaN]; and in binary64 the hazards 0.1, 0.2, 0.3 sum
    to 0.1, 0.30000000000000004, 0.6000000000000001, whose differences
    are 0.1, 0.20000000000000004, 0.30000000000000004. *)
Lemma roundtrip_fails_on_infinite_and_rounded :
  (is_strictly_increasing (index infinite_baseline) = true
   /\ fst (compute_baseline_cumulative_hazards
             None TargetNone None None false (Some infinite_baseline)
             fresh_model)
      = Ok [(1%Z, PInf); (2%Z, PInf)]
   /\ diff (values [(1%Z, @PInf R); (2%Z, PInf)]) = [PInf; NaN]
   /\ diff (values [(1%Z, @PInf R); (2%Z, PInf)])
      <> values infinite_baseline)
  /\ (is_strictly_increasing (index missing_baseline) = true
      /\ fst (compute_baseline_cumulative_hazards
                None TargetNone None None false (Some missing_baseline)
                fresh_model)
         = Ok [(1%Z, NaN); (2%Z, Fin 1%R)]
      /\ diff (values [(1%Z, @NaN R); (2%Z, Fin 1%R)]) = [NaN; NaN]
      /\ diff (values [(1%Z, @NaN R); (2%Z, Fin 1%R)])
         <> values missing_baseline)
  /\ (is_strictly_increasing (index tenths) = true
      /\ forallb isfinite (values tenths) = true
      /\ exists bch : list (Z * xreal Qc),
          fst (cumulative_of_baseline (H0 := binary64) false tenths
                                      rounding_model)
          = Ok bch
          /\ map xreal_this (values bch)
             = [Fin (3602879701896397 # 36028797018963968);
                Fin (1351079888211149 # 4503599627370496);
                Fin (1351079888211149 # 2251799813685248)]
          /\ map xreal_this (diff (H0 := binary64) (values bch))
             = [Fin (3602879701896397 # 36028797018963968);
                Fin (7205759403792795 # 36028797018963968);
                Fin (1351079888211149 # 4503599627370496)]
          /\ map xreal_this (values tenths)
             = [Fin (3602879701896397 # 36028797018963968);
                Fin (3602879701896397 # 18014398509481984);
                Fin (5404319552844595 # 18014398509481984)]
          /\ diff (H0 := binary64) (values bch) <> values tenths).
Proof.
  split; [| split].
  - split; [reflexivity |]. split; [| split; [reflexivity | discriminate]].
    rewrite (compute_baseline_cumulative_hazards_of_series
               (X := list (xreal R)) None None false infinite_baseline
               fresh_model).
    reflexivity.
  - split; [reflexivity |]. split; [| split; [reflexivity | discriminate]].
    rewrite (compute_baseline_cumulative_hazards_of_series
               (X := list (xreal R)) None None false missing_baseline
               fresh_model).
    cbn. replace (0 + 1)%R with 1%R by lra. reflexivity.
  - split; [reflexivity |]. split; [reflexivity |].
    exists (cumsum (H0 := binary64) tenths).
    split; [reflexivity |].
    split; [vm_compute; reflexivity |].
    split; [vm_compute; reflexivity |].
    split; [vm_compute; reflexivity |].
    intro Heq. apply (f_equal (map xreal_this)) in Heq.
    vm_compute in Heq. discriminate Heq.
Qed.

(** The failing call of C8: a fresh model, an array of covariates and the
    baseline hazards of the cohort passed explicitly. *)
Lemma predict_cumulative_hazards_explicit_series_example :
  predict_cumulative_hazards (InputArray cohort_scores) None
                             (Some (Fresh cohort_baseline)) fresh_model
  = (Raise AttributeError, fresh_model).
Proof.
  destruct (predict_cumulative_hazards_explicit_series_raises
              (X := list (xreal R)) CoxPH None false None
              (InputArray cohort_scores) None cohort_baseline)
    as (e & Heq & He).
  rewrite (He cohort_scores eq_refl eq_refl) in Heq. exact Heq.
Defined.

(** Running the pipeline on rationals. *)
Example cumsum_small_baseline :
  map xreal_this (values (cumsum small_baseline))
  = [Fin (1 # 4); Fin (3 # 4); Fin (3 # 4)].
Proof. vm_compute. reflexivity. Qed.

(** The call of C9 with no argument at all, on a fresh model: it gets as
    far as the inner call, whose six arguments cannot be bound. *)
Lemma compute_baseline_hazards_df_always_raises_witness :
  nth 0 [] (@PyNone (list (xreal R)) Z R) = PyNone
  /\ is_ok (fst (compute_baseline_hazards_df 1 [] fresh_model)) = false
  /\ compute_baseline_hazards_df 1 [] fresh_model
     = (Raise TypeError, fresh_model).
Proof.
  destruct (compute_baseline_hazards_df_always_raises
              (X := list (xreal R)) (T := Z) (F := R))
    as (Hnever & _ & Hinner).
  split; [reflexivity |]. split; [apply Hnever |].
  apply Hinner. left. reflexivity.
Defined.

(** An array passed for [df] on a fitted model: indexing it by the
    column names raises [IndexError], before the inner call. *)
Example compute_baseline_hazards_df_on_array :
  compute_baseline_hazards_df (T := Z) (F := R) 1 [PyArray cohort_scores]
                              (mk_model CoxPH None true None None)
  = (Raise IndexError, mk_model CoxPH None true None None).
Proof. reflexivity. Qed.

Example diff_cumsum_small_baseline :
  map xreal_this (diff (values (cumsum small_baseline)))
  = map xreal_this (values small_baseline).
Proof. vm_compute. reflexivity. Qed.

Example breslow_pipeline_Qc :
  map (fun p => (fst p, xreal_this (snd p)))
      (rev (fillna (events_over_expg (assign_cumsum_expg (sort_desc fst
         (groupby_agg_sum (combine cohort_df_Qc cohort_expg_Qc)))))))
  = [(2%Z, Fin (1 # 4)); (3%Z, Fin (1 # 2))].
Proof. vm_compute. reflexivity. Qed.

Example breslow_pipeline_zero_expg_Qc :
  map (fun p => (fst p, xreal_this (snd p)))
      (rev (fillna (events_over_expg (assign_cumsum_expg (sort_desc fst
         (groupby_agg_sum (combine (range_rows 0 [1; 2]%Z [q 1; q 0])
                                   [Fin (q 0); Fin (q 0)])))))))
  = [(1%Z, PInf); (2%Z, Fin 0%Q)].
Proof. vm_compute. reflexivity. Qed.

Example search_sorted_idx_single_entry :
  search_sorted_idx [1]%Z [2]%Z = Ok ([0]%Z, true).
Proof. vm_compute. reflexivity. Qed.

(* ================================================================== *)
(** * Further properties *)

(** ** Time-index resolution, query by query *)

Section QueryByQuery.
Context {T : Type} `{TimeLaws T}.

Lemma np_getitem_in_range {A} (array : list A) (k : Z) :
  (0 <= k < Z.of_nat (length array))%Z ->
  exists a, np_getitem array k = Ok a.
Proof.
  intro Hk. unfold np_getitem.
  destruct (Z.ltb_spec k 0); [lia |].
  destruct (Z.leb_spec 0 k); [| lia].
  destruct (Z.ltb_spec k (Z.of_nat (length array))); [| lia].
  cbn [andb].
  destruct (nth_error array (Z.to_nat k)) as [a |] eqn:Ha; [now exists a |].
  apply nth_error_None in Ha. lia.
Qed.

Lemma existsb_map_comp {A B} (p : B -> bool) (f : A -> B) (l : list A) :
  existsb p (map f l) = existsb (fun a => p (f a)) l.
Proof. induction l as [| a l IH]; cbn; congruence. Qed.

(** The insertion point after the move from [n] to [n-1]. *)
Lemma clamped_insertion_point_range (a0 : T) (rest : list T) (v : T) :
  let n := Z.of_nat (length (a0 :: rest)) in
  let k := Z.of_nat (searchsorted (a0 :: rest) v) in
  (0 <= (if (k =? n)%Z then (n - 1)%Z else k) < n)%Z.
Proof.
  intros n k.
  pose proof (searchsorted_le_length (a0 :: rest) v) as Hle.
  assert (Hn : (0 < n)%Z) by (unfold n; cbn [length]; lia).
  destruct (Z.eqb_spec k n); unfold k, n in *; lia.
Qed.

Lemma resolve_query_range (a0 : T) (rest : list T) (v : T) :
  (-1 <= resolve_query (a0 :: rest) v < Z.of_nat (length (a0 :: rest)))%Z.
Proof.
  unfold resolve_query.
  pose proof (clamped_insertion_point_range a0 rest v) as Hk. cbv zeta in Hk.
  destruct (np_getitem _ _) as [a | e]; [| lia].
  destruct (t_eqb v a); lia.
Qed.

(** On a non-empty array the function treats every query on its own. *)
Lemma search_sorted_idx_normal_form (a0 : T) (rest values : list T) :
  search_sorted_idx (a0 :: rest) values
  = Ok (map (fun v => Z.max 0 (resolve_query (a0 :: rest) v)) values,
        existsb (fun v => (resolve_query (a0 :: rest) v <? 0)%Z) values).
Proof.
  set (array := a0 :: rest).
  set (n := Z.of_nat (length array)).
  set (clamp := fun v : T =>
         let k := Z.of_nat (searchsorted array v) in
         if (k =? n)%Z then (n - 1)%Z else k).
  assert (Htake : forall vs,
             exists l, np_take array (map clamp vs) = Ok l
                       /\ zip_with (fun i (b : bool) => (i - (if b then 1 else 0))%Z)
                                   (map clamp vs)
                                   (zip_with (fun v a => negb (t_eqb v a)) vs l)
                          = map (resolve_query array) vs).
  { induction vs as [| v vs IH]; [exists []; split; reflexivity |].
    destruct IH as (l & Hl & Hz).
    destruct (np_getitem_in_range array (clamp v)
                (clamped_insertion_point_range a0 rest v)) as (a & Ha).
    exists (a :: l). cbn [map np_take]. rewrite Ha, Hl. cbn [rbind].
    split; [reflexivity |]. cbn [zip_with]. rewrite Hz. f_equal.
    unfold resolve_query. fold array. fold n. fold (clamp v). rewrite Ha.
    destruct (t_eqb v a); cbn [negb]; lia. }
  unfold search_sorted_idx. fold array. fold n.
  rewrite map_map. fold clamp.
  change (map (fun x : T => if (Z.of_nat (searchsorted array x) =? n)%Z
                            then (n - 1)%Z
                            else Z.of_nat (searchsorted array x)) values)
    with (map clamp values).
  destruct (Htake values) as (l & Hl & Hz). rewrite Hl. cbn [rbind].
  rewrite Hz, existsb_map_comp.
  destruct (existsb _ values) eqn:Hw.
  - f_equal. f_equal. rewrite map_map. apply map_ext. intro v.
    destruct (Z.ltb_spec (resolve_query array v) 0); lia.
  - f_equal. f_equal. rewrite <- (map_id (map _ values)) at 1.
    rewrite map_map. apply map_ext_in. intros v Hv.
    assert (Hnn : (resolve_query array v <? 0)%Z = false).
    { destruct (resolve_query array v <? 0)%Z eqn:E; auto.
      assert (existsb (fun v => (resolve_query array v <? 0)%Z) values = true)
        by (apply existsb_exists; eauto).
      congruence. }
    apply Z.ltb_ge in Hnn. lia.
Qed.
End QueryByQuery.

Section QueryLists.
Context {T : Type} `{Time T}.

(** X4.  On an empty array every call with at least one query raises
    [IndexError]: the insertion point 0 is moved to [n-1 = -1], which
    does not exist. *)
Theorem search_sorted_idx_empty_array :
  forall (v : T) (values : list T),
    search_sorted_idx [] (v :: values) = Raise IndexError.
Proof. intros v values. reflexivity. Qed.
End QueryLists.

Section QueryBounds.
Context {T : Type} `{TimeLaws T}.

(** X5.  On a non-empty array, sorted or not, the call never raises; it
    returns one index per query and every index is a valid position of
    the array. *)
Theorem search_sorted_idx_in_bounds :
  forall (array values : list T),
    array <> [] ->
    exists (idx : list Z) (warned : bool),
      search_sorted_idx array values = Ok (idx, warned)
      /\ length idx = length values
      /\ Forall (fun i => (0 <= i < Z.of_nat (length array))%Z) idx.
Proof.
  intros [| a0 rest] values Hne; [contradiction |].
  rewrite search_sorted_idx_normal_form.
  eexists. eexists. split; [reflexivity |]. split; [apply length_map |].
  apply Forall_map, Forall_forall. intros v _.
  pose proof (resolve_query_range a0 rest v) as Hr.
  cbn beta. cbn [length] in *. lia.
Qed.

(** X6.  On an array sorted in ascending order, queries are resolved
    independently of each other: the result for two lists of queries put
    one after the other is the two results put one after the other, and
    the warning is emitted when either part emits it. *)
Theorem search_sorted_idx_app :
  forall (array values1 values2 : list T) idx1 idx2 (w1 w2 : bool),
    is_monotonic_increasing array = true ->
    search_sorted_idx array values1 = Ok (idx1, w1) ->
    search_sorted_idx array values2 = Ok (idx2, w2) ->
    search_sorted_idx array (values1 ++ values2)
    = Ok (idx1 ++ idx2, w1 || w2).
Proof.
  intros [| a0 rest] v1 v2 i1 i2 w1 w2 _.
  - destruct v1 as [| x v1]; [| discriminate].
    destruct v2 as [| y v2]; [| discriminate].
    cbn. intros H1 H2. injection H1 as <- <-. injection H2 as <- <-.
    reflexivity.
  - rewrite !search_sorted_idx_normal_form.
    intros H1 H2. injection H1 as <- <-. injection H2 as <- <-.
    now rewrite map_app, existsb_app.
Qed.
End QueryBounds.

(** An array of three entries and a query in between two of them. *)
Lemma search_sorted_idx_in_range_witness :
  search_sorted_idx [1; 3; 5]%Z [4]%Z = Ok ([1]%Z, false).
Proof.
  apply (search_sorted_idx_in_range (T := Z) [1; 3; 5]%Z 4%Z 1).
  - repeat constructor.
  - reflexivity.
  - right. right. left. reflexivity.
Defined.

Lemma search_sorted_idx_below_range_witness :
  search_sorted_idx [1; 3; 5]%Z [0]%Z = Ok ([0]%Z, true).
Proof.
  apply (search_sorted_idx_below_range (T := Z) 1%Z [3; 5]%Z 0%Z);
    reflexivity.
Defined.

Lemma search_sorted_idx_above_range_witness :
  search_sorted_idx [1; 3; 5]%Z [6]%Z = Ok ([1]%Z, false).
Proof.
  apply (search_sorted_idx_above_range (T := Z) [1]%Z 3%Z 5%Z 6%Z).
  repeat constructor.
Defined.

Lemma search_sorted_idx_in_bounds_witness :
  exists (idx : list Z) (warned : bool),
    search_sorted_idx [5; 1; 3]%Z [0; 2; 9]%Z = Ok (idx, warned)
    /\ length idx = 3%nat
    /\ Forall (fun i => (0 <= i < 3)%Z) idx.
Proof.
  apply (search_sorted_idx_in_bounds (T := Z) [5; 1; 3]%Z [0; 2; 9]%Z).
  discriminate.
Defined.

Lemma search_sorted_idx_app_witness :
  search_sorted_idx [1; 3; 5]%Z ([0; 1] ++ [2; 3; 6])%Z
  = Ok ([0; 0] ++ [0; 1; 1], true || false)%Z.
Proof.
  apply (search_sorted_idx_app (T := Z) [1; 3; 5]%Z [0; 1]%Z [2; 3; 6]%Z);
    reflexivity.
Defined.

(* ================================================================== *)
(** ** What the hazard methods do to the model *)

Lemma bind_inv {S A B : Type} (m : M S A) (k : A -> M S B) (s s' : S)
      (r : result B) :
  bind m k s = (r, s') ->
  (exists a s1, m s = (Ok a, s1) /\ k a s1 = (r, s'))
  \/ (exists e, m s = (Raise e, s') /\ r = Raise e).
Proof.
  unfold bind. destruct (m s) as [[a | e] s1]; intro Hk.
  - left. eauto.
  - right. injection Hk as <- <-. eauto.
Qed.

Lemma lift_inv {S A : Type} (x : result A) (s s' : S) (r : result A) :
  lift x s = (r, s') -> r = x /\ s' = s.
Proof. unfold lift. intro Hx. injection Hx as <- <-. auto. Qed.

Lemma ret_inv {S A : Type} (a : A) (s s' : S) (r : result A) :
  ret a s = (r, s') -> r = Ok a /\ s' = s.
Proof. unfold ret. intro Hx. injection Hx as <- <-. auto. Qed.

Lemma raise_inv {S A : Type} (e : exn) (s s' : S) (r : result A) :
  @raise S A e s = (r, s') -> r = Raise e /\ s' = s.
Proof. unfold raise. intro Hx. injection Hx as <- <-. auto. Qed.

Section ModelEffects.
Context {X T F : Type} `{Time T} `{Number F} `{Transcendental F}
        `{External X T F}.

Lemma cumulative_of_baseline_effect (set_hazards : bool)
      (b : @Series T F) (self : model X T F) :
  cumulative_of_baseline set_hazards b self
  = if is_monotonic_increasing (index b)
    then (Ok (cumsum b), if set_hazards then with_hazards self b else self)
    else (Raise AssertionError, self).
Proof.
  unfold cumulative_of_baseline.
  destruct (is_monotonic_increasing (index b)); [| reflexivity].
  now destruct set_hazards.
Qed.

Lemma compute_baseline_hazards_run
      (input : option X) (target : target_arg T F) (max_duration : option T)
      (sample : option F) (set_hazards : bool) (self s' : model X T F)
      (r : result (@Series T F)) :
  compute_baseline_hazards input target max_duration sample set_hazards self
  = (r, s') ->
  match r with
  | Ok b => s' = if set_hazards then with_hazards self b else self
  | Raise _ => s' = self
  end.
Proof.
  unfold compute_baseline_hazards. intro Hc.
  apply bind_inv in Hc as [(self0 & s1 & Hg & Hc) | (e & Hg & ->)];
    [| discriminate Hg].
  injection Hg as <- <-.
  apply bind_inv in Hc as [(it & s1 & Hit & Hc) | (e & Hit & ->)].
  2:{ destruct input, target; try discriminate Hit.
      destruct (training_data self); [discriminate Hit |].
      now apply raise_inv in Hit. }
  assert (s1 = self) as ->.
  { destruct input, target; try (now apply ret_inv in Hit).
    destruct (training_data self); [now apply ret_inv in Hit |].
    now apply raise_inv in Hit. }
  clear Hit.
  apply bind_inv in Hc as [(df & s1 & Hdf & Hc) | (e & Hdf & ->)];
    apply lift_inv in Hdf as [_ ->]; [| reflexivity].
  apply bind_inv in Hc as [(df0 & s1 & Hs & Hc) | (e & Hs & ->)].
  2:{ destruct sample; [now apply lift_inv in Hs | now apply ret_inv in Hs]. }
  assert (s1 = self) as ->.
  { destruct sample; [now apply lift_inv in Hs | now apply ret_inv in Hs]. }
  clear Hs.
  apply bind_inv in Hc as [(x0 & s1 & Hx & Hc) | (e & Hx & ->)];
    apply lift_inv in Hx as [_ ->]; [| reflexivity].
  apply bind_inv in Hc as [(b & s1 & Hb & Hc) | (e & Hb & ->)];
    apply lift_inv in Hb as [_ ->]; [| reflexivity].
  apply bind_inv in Hc as [([] & s1 & Hset & Hc) | (e & Hset & ->)].
  - apply ret_inv in Hc as [-> ->].
    destruct set_hazards; [| now apply ret_inv in Hset].
    apply bind_inv in Hset as [(c & s2 & Hcum & Hset) | (e & Hcum & Hx)];
      [| discriminate Hx].
    apply ret_inv in Hset as [_ ->].
    rewrite cumulative_of_baseline_effect in Hcum.
    destruct (is_monotonic_increasing (index b)); [| discriminate Hcum].
    now injection Hcum.
  - destruct set_hazards; [| now apply ret_inv in Hset].
    apply bind_inv in Hset as [(c & s2 & Hcum & Hset) | (e0 & Hcum & Hx)].
    + now apply ret_inv in Hset.
    + rewrite cumulative_of_baseline_effect in Hcum.
      destruct (is_monotonic_increasing (index b)); [discriminate Hcum |].
      now injection Hcum.
Qed.

Lemma compute_baseline_cumulative_hazards_run
      (input : option X) (target : target_arg T F) (max_duration : option T)
      (sample : option F) (set_hazards : bool)
      (baseline_hazards_ : option (@Series T F)) (self s' : model X T F)
      (r : result (@Series T F)) :
  compute_baseline_cumulative_hazards
    input target max_duration sample set_hazards baseline_hazards_ self
  = (r, s') ->
  match r with
  | Ok c =>
      if set_hazards
      then exists b, s' = with_hazards self b /\ c = cumsum b
      else s' = self
  | Raise _ => s' = self
  end.
Proof.
  unfold compute_baseline_cumulative_hazards.
  destruct ((is_some input || negb (target_is_none target))
            && is_some baseline_hazards_).
  { intro Hc. now apply raise_inv in Hc as [-> ->]. }
  intro Hc.
  apply bind_inv in Hc as [(b & s1 & Hb & Hc) | (e & Hb & ->)].
  - assert (s1 = self) as ->.
    { destruct baseline_hazards_; [now apply ret_inv in Hb |].
      now apply compute_baseline_hazards_run in Hb. }
    rewrite cumulative_of_baseline_effect in Hc.
    destruct (is_monotonic_increasing (index b)); injection Hc as <- <-;
      [| reflexivity].
    destruct set_hazards; [| reflexivity].
    exists b. auto.
  - destruct baseline_hazards_; [discriminate Hb |].
    now apply compute_baseline_hazards_run in Hb.
Qed.

(** X7.  [compute_baseline_hazards] and
    [compute_baseline_cumulative_hazards] change the model in one case
    only: when they return and [set_hazards] is true.  Then
    [baseline_hazards_] is the baseline series used and
    [baseline_cumulative_hazards_] is its running total (the series
    [compute_baseline_cumulative_hazards] returns), the other attributes
    staying as they were.  A call that raises, or one with
    [set_hazards=False], leaves the model as it was. *)
Theorem set_hazards_effect :
  forall (input : option X) (target : target_arg T F)
         (max_duration : option T) (sample : option F) (set_hazards : bool)
         (self : model X T F),
    (match fst (compute_baseline_hazards input target max_duration sample
                                         set_hazards self) with
     | Ok b =>
         snd (compute_baseline_hazards input target max_duration sample
                                       set_hazards self)
         = if set_hazards then with_hazards self b else self
     | Raise _ =>
         snd (compute_baseline_hazards input target max_duration sample
                                       set_hazards self) = self
     end)
    /\ (forall baseline_hazards_ : option (@Series T F),
           match fst (compute_baseline_cumulative_hazards
                        input target max_duration sample set_hazards
                        baseline_hazards_ self) with
           | Ok c =>
               if set_hazards
               then exists b,
                   snd (compute_baseline_cumulative_hazards
                          input target max_duration sample set_hazards
                          baseline_hazards_ self) = with_hazards self b
                   /\ c = cumsum b
               else snd (compute_baseline_cumulative_hazards
                           input target max_duration sample set_hazards
                           baseline_hazards_ self) = self
           | Raise _ =>
               snd (compute_baseline_cumulative_hazards
                      input target max_duration sample set_hazards
                      baseline_hazards_ self) = self
           end).
Proof.
  intros. split.
  - destruct (compute_baseline_hazards input target max_duration sample
                                       set_hazards self) as [r s'] eqn:Hc.
    apply compute_baseline_hazards_run in Hc. exact Hc.
  - intro bh.
    destruct (compute_baseline_cumulative_hazards
                input target max_duration sample set_hazards bh self)
      as [r s'] eqn:Hc.
    apply compute_baseline_cumulative_hazards_run in Hc. exact Hc.
Qed.

Lemma resolve_input_run (input : input_arg X T F) (self s' : model X T F)
      (r : result X) :
  resolve_input input self = (r, s') -> s' = self.
Proof.
  unfold resolve_input. intro Hc.
  apply bind_inv in Hc as [(self0 & s1 & Hg & Hc) | (e & Hg & ->)];
    [| discriminate Hg].
  injection Hg as <- <-.
  destruct input; [now apply ret_inv in Hc | now apply lift_inv in Hc].
Qed.

Lemma get_baseline_hazards__run (self s' : model X T F)
      (r : result (@Series T F)) :
  get_baseline_hazards_ self = (r, s') -> s' = self.
Proof.
  unfold get_baseline_hazards_, bind, get.
  destruct (baseline_hazards_ self); intro Hc; now injection Hc.
Qed.

Lemma get_baseline_cumulative_hazards__run (self s' : model X T F)
      (r : result (@Series T F)) :
  get_baseline_cumulative_hazards_ self = (r, s') -> s' = self.
Proof.
  unfold get_baseline_cumulative_hazards_, bind, get.
  destruct (baseline_cumulative_hazards_ self); intro Hc; now injection Hc.
Qed.

Lemma deref_run (ref : series_ref T F) (self s' : model X T F)
      (r : result (@Series T F)) :
  deref ref self = (r, s') -> s' = self.
Proof.
  destruct ref; cbn [deref].
  - apply get_baseline_hazards__run.
  - intro Hc. now apply ret_inv in Hc.
Qed.

Lemma compute_cumulative_no_set_run
      (bh : option (@Series T F)) (self s' : model X T F)
      (r : result (@Series T F)) :
  compute_baseline_cumulative_hazards None TargetNone None None false bh self
  = (r, s') -> s' = self.
Proof.
  intro Hc. apply compute_baseline_cumulative_hazards_run in Hc.
  now destruct r.
Qed.

Lemma _predict_cumulative_hazards_run
      (x : X) (max_duration : option T) (ref : series_ref T F)
      (self s' : model X T F) (r : result (table T F)) :
  _predict_cumulative_hazards x max_duration ref self = (r, s') -> s' = self.
Proof.
  unfold _predict_cumulative_hazards. intro Hc.
  apply bind_inv in Hc as [(self0 & s1 & Hg & Hc) | (e & Hg & ->)];
    [| discriminate Hg].
  injection Hg as <- <-.
  assert (Hrest : forall s2 r2,
    (_ <- get_baseline_hazards_ ;;
     bch <- (match ref with
             | Cached => get_baseline_cumulative_hazards_
             | Fresh s =>
                 compute_baseline_cumulative_hazards
                   None TargetNone None None false (Some s)
             end) ;;
     ret (mk_table
            (Some (index (filter (fun p => le_max_duration max_duration
                                                           (fst p)) bch)))
            (outer (values (filter (fun p => le_max_duration max_duration
                                                             (fst p)) bch))
                   (map xexp (predict x))))) self = (r2, s2) -> s2 = self).
  { intros s2 r2 Hr.
    apply bind_inv in Hr as [(b & s1 & Hb & Hr) | (e & Hb & ->)];
      apply get_baseline_hazards__run in Hb; subst; [| reflexivity].
    apply bind_inv in Hr as [(c & s1 & Hcum & Hr) | (e & Hcum & ->)].
    - assert (s1 = self) as ->.
      { destruct ref; [now apply get_baseline_cumulative_hazards__run in Hcum |].
        now apply compute_cumulative_no_set_run in Hcum. }
      now apply ret_inv in Hr.
    - destruct ref; [now apply get_baseline_cumulative_hazards__run in Hcum |].
      now apply compute_cumulative_no_set_run in Hcum. }
  destruct (klass self); [now apply raise_inv in Hc | |];
    exact (Hrest _ _ Hc).
Qed.

Lemma predict_cumulative_hazards_run
      (input : input_arg X T F) (max_duration : option T)
      (baseline_hazards_ : option (series_ref T F))
      (self s' : model X T F) (r : result (table T F)) :
  predict_cumulative_hazards input max_duration baseline_hazards_ self
  = (r, s') -> s' = self.
Proof.
  unfold predict_cumulative_hazards. intro Hc.
  apply bind_inv in Hc as [(x & s1 & Hx & Hc) | (e & Hx & ->)];
    apply resolve_input_run in Hx; subst; [| reflexivity].
  apply bind_inv in Hc as [(self0 & s1 & Hg & Hc) | (e & Hg & ->)];
    [| discriminate Hg].
  injection Hg as <- <-.
  apply bind_inv in Hc as [(ref & s1 & Href & Hc) | (e & Href & ->)].
  2:{ destruct baseline_hazards_; [discriminate Href |].
      destruct (has_baseline_hazards_ self); [discriminate Href |].
      now apply raise_inv in Href. }
  assert (s1 = self) as ->.
  { destruct baseline_hazards_; [now apply ret_inv in Href |].
    destruct (has_baseline_hazards_ self);
      [now apply ret_inv in Href | now apply raise_inv in Href]. }
  apply bind_inv in Hc as [(s & s1 & Hs & Hc) | (e & Hs & ->)];
    apply deref_run in Hs; subst; [| reflexivity].
  destruct (is_monotonic_increasing (index s)).
  - now apply _predict_cumulative_hazards_run in Hc.
  - now apply raise_inv in Hc.
Qed.

Lemma predict_cumulative_hazards_at_times_run
      (times : list T) (input : input_arg X T F) (return_df : bool)
      (baseline_hazards_ : option (series_ref T F))
      (self s' : model X T F) (r : result (table T F)) :
  predict_cumulative_hazards_at_times times input return_df
                                      baseline_hazards_ self
  = (r, s') -> s' = self.
Proof.
  unfold predict_cumulative_hazards_at_times. intro Hc.
  apply bind_inv in Hc as [(self0 & s1 & Hg & Hc) | (e & Hg & ->)];
    [| discriminate Hg].
  injection Hg as <- <-.
  assert (Hrest : forall s2 r2,
    (input0 <- resolve_input input ;;
     bch <- (match baseline_hazards_ with
             | None => get_baseline_cumulative_hazards_
             | Some r =>
                 s <- deref r ;;
                 compute_baseline_cumulative_hazards
                   None TargetNone None None false (Some s)
             end) ;;
     times_idx <- lift (search_sorted_idx (index bch) times) ;;
     rows <- lift (np_take (values bch) (fst times_idx)) ;;
     ret (mk_table (if return_df then Some times else None)
                   (outer rows (map xexp (predict input0))))) self
    = (r2, s2) -> s2 = self).
  { intros s2 r2 Hr.
    apply bind_inv in Hr as [(x & s1 & Hx & Hr) | (e & Hx & ->)];
      apply resolve_input_run in Hx; subst; [| reflexivity].
    assert (Hb : forall r3 s3,
      (match baseline_hazards_ with
       | None => get_baseline_cumulative_hazards_
       | Some r =>
           s <- deref r ;;
           compute_baseline_cumulative_hazards
             None TargetNone None None false (Some s)
       end) self = (r3, s3) -> s3 = self).
    { intros r3 s3 Hb. destruct baseline_hazards_ as [ref |];
        [| now apply get_baseline_cumulative_hazards__run in Hb].
      apply bind_inv in Hb as [(s & s1 & Hs & Hb) | (e & Hs & ->)];
        apply deref_run in Hs; subst; [| reflexivity].
      now apply compute_cumulative_no_set_run in Hb. }
    apply bind_inv in Hr as [(c & s1 & Hcum & Hr) | (e & Hcum & ->)];
      apply Hb in Hcum; subst; [| reflexivity].
    apply bind_inv in Hr as [(ti & s1 & Hti & Hr) | (e & Hti & ->)];
      apply lift_inv in Hti as [_ ->]; [| reflexivity].
    apply bind_inv in Hr as [(rows & s1 & Hrows & Hr) | (e & Hrows & ->)];
      apply lift_inv in Hrows as [_ ->]; [| reflexivity].
    now apply ret_inv in Hr. }
  destruct (klass self); [now apply raise_inv in Hc | |];
    exact (Hrest _ _ Hc).
Qed.

(** X8.  Prediction never writes to the model: whatever the arguments,
    and whether they return or raise, [predict_cumulative_hazards],
    [predict_survival_function], [predict_cumulative_hazards_at_times]
    and [predict_survival_at_times] leave every attribute of [self] as
    it was; in particular an explicit [baseline_hazards_] argument is
    never cached. *)
Theorem prediction_leaves_model_unchanged :
  forall (input : input_arg X T F) (max_duration : option T)
         (times : list T) (return_df : bool)
         (baseline_hazards_ : option (series_ref T F)) (self : model X T F),
    snd (predict_cumulative_hazards input max_duration baseline_hazards_
                                    self) = self
    /\ snd (predict_survival_function input max_duration baseline_hazards_
                                      self) = self
    /\ snd (predict_cumulative_hazards_at_times times input return_df
                                                baseline_hazards_ self) = self
    /\ snd (predict_survival_at_times times input return_df
                                      baseline_hazards_ self) = self.
Proof.
  intros input max_duration times return_df bh self.
  assert (H1' : snd (predict_cumulative_hazards input max_duration bh self)
                = self).
  { destruct (predict_cumulative_hazards _ _ _ self) as [r s'] eqn:Hc.
    now apply predict_cumulative_hazards_run in Hc. }
  assert (H2' : snd (predict_cumulative_hazards_at_times
                       times input return_df bh self) = self).
  { destruct (predict_cumulative_hazards_at_times _ _ _ _ self)
      as [r s'] eqn:Hc.
    now apply predict_cumulative_hazards_at_times_run in Hc. }
  repeat split; try assumption.
  - unfold predict_survival_function, bind.
    destruct (predict_cumulative_hazards _ _ _ self) as [[h | e] s'];
      exact H1'.
  - unfold predict_survival_at_times, bind.
    destruct (predict_cumulative_hazards_at_times _ _ _ _ self)
      as [[h | e] s']; exact H2'.
Qed.
End ModelEffects.

(* ================================================================== *)
(** ** The baseline series the model computes for itself *)

Section ComputedBaseline.
Context {X T F : Type} `{TimeLaws T} `{Number F} `{Transcendental F}
        `{External X T F}.

Lemma map_fst_zip_with_left {A B C D} (f : A * B -> C -> D)
      (l : list (A * B)) (m : list C) :
  length l = length m ->
  map fst (zip_with (fun g c => (fst g, f g c)) l m) = map fst l.
Proof.
  revert m. induction l as [| a l IH]; intros [| b m] Hlen; cbn in *;
    try discriminate; auto.
  f_equal. apply IH. lia.
Qed.

Lemma map_fst_filter_fst {A B} (p : A -> bool) (l : list (A * B)) :
  map fst (filter (fun x => p (fst x)) l) = filter p (map fst l).
Proof.
  induction l as [| a l IH]; cbn; [reflexivity |].
  destruct (p (fst a)); cbn; congruence.
Qed.

Lemma StronglySorted_filter_keep {A} (R : A -> A -> Prop) (p : A -> bool)
      (l : list A) :
  StronglySorted R l -> StronglySorted R (filter p l).
Proof.
  induction 1 as [| a l Hs IH Hall]; cbn; [constructor |].
  destruct (p a); [| exact IH].
  constructor; [exact IH |].
  apply Forall_forall. intros b Hb. apply filter_In in Hb.
  rewrite Forall_forall in Hall. apply Hall. tauto.
Qed.

Lemma strictly_increasing_of_sorted (ix : list T) :
  StronglySorted (fun a b => t_ltb a b = true) ix ->
  is_strictly_increasing ix = true.
Proof.
  induction 1 as [| a l Hs IH Hall]; [reflexivity |].
  destruct l as [| b l]; [reflexivity |].
  change (is_strictly_increasing (a :: b :: l))
    with (t_ltb a b && is_strictly_increasing (b :: l)).
  rewrite IH. apply Forall_inv in Hall. now rewrite Hall.
Qed.

(** Whatever the scores, the index of the series
    [_compute_baseline_hazards] returns is the list of distinct durations
    up to the cutoff. *)
Lemma _compute_baseline_hazards_index
      (self : model X T F) (input : X) (df : list (row T F))
      (max_duration : option T) (s : @Series T F) :
  _compute_baseline_hazards self input df max_duration = Ok s ->
  index s = filter (le_max_duration max_duration)
                   (group_keys (map (@duration T F) df)).
Proof.
  unfold _compute_baseline_hazards.
  assert (Hbody :
    rbind (assign df (map xexp (predict input))) (fun df0 =>
      Ok (filter (fun p => le_max_duration max_duration (fst p))
            (rev (fillna (events_over_expg (assign_cumsum_expg
               (sort_desc fst (groupby_agg_sum df0))))))))
    = Ok s ->
    index s = filter (le_max_duration max_duration)
                     (group_keys (map (@duration T F) df))).
  { unfold assign.
    destruct (Nat.eqb_spec (length df) (length (map xexp (predict input))))
      as [Hlen |]; [| discriminate].
    cbn [rbind]. intro Hs. injection Hs as <-.
    unfold index. rewrite map_fst_filter_fst.
    f_equal. rewrite map_rev.
    unfold fillna, events_over_expg. rewrite !map_map. cbn [fst].
    unfold assign_cumsum_expg.
    rewrite (map_fst_zip_with_left (fun g c => (c, snd (snd g)))).
    2:{ now rewrite length_cumsum_values, length_map. }
    unfold groupby_agg_sum.
    rewrite <- (map_map fst (@duration T F)), map_fst_combine by assumption.
    rewrite sort_desc_ascending.
    2:{ apply StronglySorted_map. cbn [fst]. apply group_keys_sorted. }
    rewrite map_rev, rev_involutive, map_map. cbn [fst]. apply map_id. }
  destruct (klass self); [discriminate | exact Hbody | exact Hbody].
Qed.

Lemma _compute_baseline_hazards_monotonic
      (self : model X T F) (input : X) (df : list (row T F))
      (max_duration : option T) (s : @Series T F) :
  _compute_baseline_hazards self input df max_duration = Ok s ->
  is_strictly_increasing (index s) = true.
Proof.
  intro Hs. rewrite (_compute_baseline_hazards_index _ _ _ _ _ Hs).
  apply strictly_increasing_of_sorted, StronglySorted_filter_keep,
    group_keys_sorted.
Qed.

(** A series [compute_baseline_hazards] returns comes out of
    [_compute_baseline_hazards]. *)
Lemma compute_baseline_hazards_source
      (input : option X) (target : target_arg T F) (max_duration : option T)
      (sample : option F) (set_hazards : bool) (self s' : model X T F)
      (b : @Series T F) :
  compute_baseline_hazards input target max_duration sample set_hazards self
  = (Ok b, s') ->
  exists x df, _compute_baseline_hazards self x df max_duration = Ok b.
Proof.
  unfold compute_baseline_hazards. intro Hc.
  apply bind_inv in Hc as [(self0 & s1 & Hg & Hc) | (e & _ & Hx)];
    [| discriminate Hx].
  injection Hg as <- <-.
  apply bind_inv in Hc as [(it & s1 & _ & Hc) | (e & _ & Hx)];
    [| discriminate Hx].
  apply bind_inv in Hc as [(df & s2 & _ & Hc) | (e & _ & Hx)];
    [| discriminate Hx].
  apply bind_inv in Hc as [(df0 & s3 & _ & Hc) | (e & _ & Hx)];
    [| discriminate Hx].
  apply bind_inv in Hc as [(x0 & s4 & _ & Hc) | (e & _ & Hx)];
    [| discriminate Hx].
  apply bind_inv in Hc as [(b0 & s5 & Hb & Hc) | (e & _ & Hx)];
    [| discriminate Hx].
  apply lift_inv in Hb as [Hb _].
  apply bind_inv in Hc as [(u & s6 & _ & Hc) | (e & _ & Hx)];
    [| discriminate Hx].
  apply ret_inv in Hc as [Hc _]. injection Hc as <-.
  exists x0, df0. now symmetry.
Qed.

(** The run with [set_hazards=True] in terms of the run without. *)
Lemma compute_baseline_hazards_set
      (input : option X) (target : target_arg T F) (max_duration : option T)
      (sample : option F) (self : model X T F) :
  compute_baseline_hazards input target max_duration sample true self
  = match compute_baseline_hazards input target max_duration sample false
                                   self with
    | (Ok b, _) =>
        if is_monotonic_increasing (index b)
        then (Ok b, with_hazards self b)
        else (Raise AssertionError, self)
    | (Raise e, _) => (Raise e, self)
    end.
Proof.
  unfold compute_baseline_hazards.
  do 2 erewrite (bind_ok get _ self self self eq_refl).
  destruct (match input, target with
            | None, TargetNone =>
                match training_data self with
                | Some d => ret d
                | None => raise ValueError
                end
            | _, _ => ret (input, target)
            end self) as [[it | e] s1] eqn:Hit.
  2:{ assert (s1 = self) as ->.
      { destruct input, target; try discriminate Hit.
        destruct (training_data self); [discriminate Hit |].
        now apply raise_inv in Hit. }
      do 2 erewrite (bind_raise _ _ _ _ _ Hit). reflexivity. }
  assert (s1 = self) as ->.
  { destruct input, target; try (now apply ret_inv in Hit).
    destruct (training_data self); [now apply ret_inv in Hit |].
    now apply raise_inv in Hit. }
  do 2 erewrite (bind_ok _ _ _ _ _ Hit). clear Hit.
  destruct (target_to_df (snd it)) as [df | e].
  2:{ do 2 erewrite (bind_raise (lift (Raise e)) _ self self e eq_refl).
      reflexivity. }
  do 2 erewrite (bind_ok (lift (Ok df)) _ self self df eq_refl).
  destruct (match sample with
            | Some s => lift (if f_leb f1 s then df_sample_n s df
                              else df_sample_frac s df)
            | None => ret df
            end self) as [[df0 | e] s1] eqn:Hs.
  2:{ assert (s1 = self) as ->.
      { destruct sample;
          [now apply lift_inv in Hs | now apply ret_inv in Hs]. }
      do 2 erewrite (bind_raise _ _ _ _ _ Hs). reflexivity. }
  assert (s1 = self) as ->.
  { destruct sample; [now apply lift_inv in Hs | now apply ret_inv in Hs]. }
  do 2 erewrite (bind_ok _ _ _ _ _ Hs). clear Hs.
  destruct (input_iloc (fst it) (map (@label T F) df0)) as [x0 | e].
  2:{ do 2 erewrite (bind_raise (lift (Raise e)) _ self self e eq_refl).
      reflexivity. }
  do 2 erewrite (bind_ok (lift (Ok x0)) _ self self x0 eq_refl).
  destruct (_compute_baseline_hazards self x0 df0 max_duration) as [b | e].
  2:{ do 2 erewrite (bind_raise (lift (Raise e)) _ self self e eq_refl).
      reflexivity. }
  do 2 erewrite (bind_ok (lift (Ok b)) _ self self b eq_refl).
  unfold bind, ret. rewrite cumulative_of_baseline_effect.
  destruct (is_monotonic_increasing (index b)); reflexivity.
Qed.

(** X9.  Caching never changes what [compute_baseline_hazards] returns
    or raises: the series it computes has a strictly increasing index
    (the distinct durations), so the assertion of line 92 cannot fail on
    it, and the call with [set_hazards=True] gives exactly what the call
    with [set_hazards=False] gives.  Without a baseline argument
    [compute_baseline_cumulative_hazards] returns the running total of
    that same series, or raises the same exception.  (When [sample] is
    given, the calls compared draw the same sample.) *)
Theorem computed_baseline_passes_assertion :
  forall (input : option X) (target : target_arg T F)
         (max_duration : option T) (sample : option F) (self : model X T F),
    (forall (set_hazards : bool) (b : @Series T F),
        fst (compute_baseline_hazards input target max_duration sample
                                      set_hazards self) = Ok b ->
        is_strictly_increasing (index b) = true)
    /\ fst (compute_baseline_hazards input target max_duration sample true
                                     self)
       = fst (compute_baseline_hazards input target max_duration sample false
                                       self)
    /\ (forall set_hazards : bool,
           fst (compute_baseline_cumulative_hazards
                  input target max_duration sample set_hazards None self)
           = rmap cumsum
                  (fst (compute_baseline_hazards input target max_duration
                                                 sample false self))).
Proof.
  intros input target md sample self.
  assert (Hinc : forall sh b,
             fst (compute_baseline_hazards input target md sample sh self)
             = Ok b -> is_strictly_increasing (index b) = true).
  { intros sh b Hb.
    destruct (compute_baseline_hazards input target md sample sh self)
      as [r s'] eqn:Hc. cbn [fst] in Hb. subst r.
    apply compute_baseline_hazards_source in Hc as (x & df & Hc).
    eapply _compute_baseline_hazards_monotonic; eauto. }
  split; [exact Hinc |]. split.
  - rewrite compute_baseline_hazards_set.
    specialize (Hinc false).
    destruct (compute_baseline_hazards input target md sample false self)
      as [[b | e] s']; [| reflexivity].
    cbn [fst] in *.
    now rewrite (is_strictly_increasing_monotonic _ (Hinc b eq_refl)).
  - intro sh. unfold compute_baseline_cumulative_hazards.
    cbn [is_some andb]. rewrite andb_false_r.
    unfold bind. specialize (Hinc false).
    destruct (compute_baseline_hazards input target md sample false self)
      as [[b | e] s']; [| reflexivity].
    cbn [fst] in *. rewrite cumulative_of_baseline_effect.
    now rewrite (is_strictly_increasing_monotonic _ (Hinc b eq_refl)).
Qed.
End ComputedBaseline.

(** The cohort of the specification, on a fresh model. *)
Lemma computed_baseline_passes_assertion_witness :
  fst (compute_baseline_hazards
         (Some cohort_scores) (TargetTuple cohort_durations cohort_events)
         None None true fresh_model)
  = fst (compute_baseline_hazards
           (Some cohort_scores) (TargetTuple cohort_durations cohort_events)
           None None false fresh_model).
Proof.
  exact (proj1 (proj2 (computed_baseline_passes_assertion
                         (Some cohort_scores)
                         (TargetTuple cohort_durations cohort_events)
                         None None fresh_model))).
Defined.

(* ================================================================== *)
(** ** Prediction from the cached hazards *)

Section CachedPrediction.
Context {X T F : Type} `{TimeLaws T} `{Number F} `{Transcendental F}
        `{External X T F}.

Lemma _compute_baseline_hazards_class
      (self : model X T F) (x : X) (df : list (row T F))
      (max_duration : option T) (b : @Series T F) :
  _compute_baseline_hazards self x df max_duration = Ok b ->
  klass self <> CoxBase.
Proof.
  unfold _compute_baseline_hazards. intros Hb Hk. rewrite Hk in Hb.
  discriminate Hb.
Qed.

(** With both series cached the call reads the cumulative one. *)
Lemma predict_cumulative_hazards_cached
      (self : model X T F) (b0 c0 : @Series T F) (x : X)
      (max_duration : option T) (arg : option (series_ref T F)) :
  klass self <> CoxBase ->
  baseline_hazards_ self = Some b0 ->
  baseline_cumulative_hazards_ self = Some c0 ->
  arg = None \/ arg = Some Cached ->
  predict_cumulative_hazards (InputArray x) max_duration arg self
  = if is_monotonic_increasing (index b0)
    then (Ok (hazard_table c0 max_duration (map xexp (predict x))), self)
    else (Raise AssertionError, self).
Proof.
  intros Hk Hb Hc Harg.
  destruct self as [k td ic bh bch]. cbn in Hk, Hb, Hc. subst bh bch.
  destruct Harg as [-> | ->];
    (destruct k; [contradiction | |]);
    cbv [predict_cumulative_hazards resolve_input bind get ret raise lift
         has_baseline_hazards_ is_some deref get_baseline_hazards_
         get_baseline_cumulative_hazards_ _predict_cumulative_hazards
         baseline_hazards_ baseline_cumulative_hazards_ klass];
    destruct (is_monotonic_increasing (index b0)); reflexivity.
Qed.

(** With some baseline series cached, an explicit one is used instead. *)
Lemma predict_cumulative_hazards_explicit
      (self : model X T F) (b0 b : @Series T F) (x : X)
      (max_duration : option T) :
  klass self <> CoxBase ->
  baseline_hazards_ self = Some b0 ->
  predict_cumulative_hazards (InputArray x) max_duration (Some (Fresh b)) self
  = if is_monotonic_increasing (index b)
    then (Ok (hazard_table (cumsum b) max_duration (map xexp (predict x))),
          self)
    else (Raise AssertionError, self).
Proof.
  intros Hk Hb.
  destruct self as [k td ic bh bch]. cbn in Hk, Hb. subst bh.
  (destruct k; [contradiction | |]);
    cbv [predict_cumulative_hazards resolve_input bind get ret raise lift
         has_baseline_hazards_ is_some deref get_baseline_hazards_
         get_baseline_cumulative_hazards_ _predict_cumulative_hazards
         baseline_hazards_ baseline_cumulative_hazards_ klass
         compute_baseline_cumulative_hazards target_is_none negb orb andb
         cumulative_of_baseline];
    destruct (is_monotonic_increasing (index b)); reflexivity.
Qed.

Lemma nth_error_outer (col row : list (xreal F)) (i j : nat)
      (h e : xreal F) :
  nth_error col i = Some h -> nth_error row j = Some e ->
  exists r, nth_error (outer col row) i = Some r
            /\ nth_error r j = Some (xmul h e).
Proof.
  intros Hi Hj. exists (map (xmul h) row). split.
  - unfold outer. now rewrite nth_error_map, Hi.
  - now rewrite nth_error_map, Hj.
Qed.

(** X10.  On a model that holds both cached series,
    [predict_cumulative_hazards] on an array of covariates asserts that
    the index of the baseline series in use is monotonic (raising
    [AssertionError] otherwise) and returns the table with one row per
    duration up to [max_duration] and one column per input row, whose
    entries are [H0(t) * exp(g(x))].  Without a baseline argument [H0]
    is the cached cumulative series; with another series [b] it is the
    running total of [b], and the cache is not consulted. *)
Theorem predict_cumulative_hazards_with_cache :
  forall (self : model X T F) (b0 c0 : @Series T F) (x : X)
         (max_duration : option T),
    klass self <> CoxBase ->
    baseline_hazards_ self = Some b0 ->
    baseline_cumulative_hazards_ self = Some c0 ->
    predict_cumulative_hazards (InputArray x) max_duration None self
    = (if is_monotonic_increasing (index b0)
       then (Ok (hazard_table c0 max_duration (map xexp (predict x))), self)
       else (Raise AssertionError, self))
    /\ (forall b : @Series T F,
           predict_cumulative_hazards (InputArray x) max_duration
                                      (Some (Fresh b)) self
           = if is_monotonic_increasing (index b)
             then (Ok (hazard_table (cumsum b) max_duration
                                    (map xexp (predict x))), self)
             else (Raise AssertionError, self))
    /\ (forall (c : @Series T F),
           tb_index (hazard_table c max_duration (map xexp (predict x)))
           = Some (filter (le_max_duration max_duration) (index c))
           /\ forall (i j : nat) (t : T) (h g : xreal F),
               nth_error (filter (fun p => le_max_duration max_duration
                                                           (fst p)) c) i
               = Some (t, h) ->
               nth_error (predict x) j = Some g ->
               exists r,
                 nth_error (tb_values
                              (hazard_table c max_duration
                                            (map xexp (predict x)))) i
                 = Some r
                 /\ nth_error r j = Some (xmul h (xexp g))).
Proof.
  intros self b0 c0 x md Hk Hb Hc.
  split; [apply predict_cumulative_hazards_cached; auto |].
  split; [intro b; eapply predict_cumulative_hazards_explicit; eauto |].
  intro c. split.
  - unfold hazard_table. cbn [tb_index]. unfold index.
    now rewrite map_fst_filter_fst.
  - intros i j t h g Hi Hj. unfold hazard_table. cbn [tb_values].
    apply nth_error_outer.
    + unfold values. now rewrite nth_error_map, Hi.
    + now rewrite nth_error_map, Hj.
Qed.

(** X11.  After [compute_baseline_hazards(input, target,
    set_hazards=True)] has returned the series [b], prediction without a
    baseline argument succeeds and uses the running total of [b]; it is
    the table that passing [b] explicitly gives. *)
Theorem set_hazards_then_predict :
  forall (input : option X) (target : target_arg T F)
         (max_duration0 : option T) (sample : option F)
         (self self1 : model X T F) (b : @Series T F) (x : X)
         (max_duration : option T),
    compute_baseline_hazards input target max_duration0 sample true self
    = (Ok b, self1) ->
    predict_cumulative_hazards (InputArray x) max_duration None self1
    = (Ok (hazard_table (cumsum b) max_duration (map xexp (predict x))),
       self1)
    /\ predict_cumulative_hazards (InputArray x) max_duration
                                  (Some (Fresh b)) self1
       = predict_cumulative_hazards (InputArray x) max_duration None self1.
Proof.
  intros input target md0 sample self self1 b x md Hrun.
  pose proof (compute_baseline_hazards_run _ _ _ _ _ _ _ _ Hrun) as Hs.
  cbn beta iota in Hs. subst self1.
  destruct (compute_baseline_hazards_source _ _ _ _ _ _ _ _ Hrun)
    as (x0 & df & Hb).
  pose proof (_compute_baseline_hazards_class _ _ _ _ _ Hb) as Hk.
  pose proof (is_strictly_increasing_monotonic
                _ (_compute_baseline_hazards_monotonic _ _ _ _ _ Hb)) as Hm.
  rewrite (predict_cumulative_hazards_cached
             (with_hazards self b) b (cumsum b) x md None Hk eq_refl eq_refl
             (or_introl eq_refl)).
  rewrite (predict_cumulative_hazards_explicit
             (with_hazards self b) b b x md Hk eq_refl).
  rewrite Hm. split; reflexivity.
Qed.
End CachedPrediction.

(** The cohort of the specification, run through the public method. *)
Lemma cohort_baseline_computed :
  _compute_baseline_hazards fresh_model cohort_scores cohort_df None
  = Ok cohort_baseline.
Proof.
  rewrite _compute_baseline_hazards_spec;
    [| discriminate | reflexivity | repeat constructor].
  rewrite exp_cohort_scores. f_equal.
  change (filter (le_max_duration None)
                 (group_keys (map (@duration Z R) cohort_df)))
    with [2%Z; 3%Z].
  cbn [map]. unfold cohort_baseline. repeat f_equal.
  - r_eval. r_decide. f_equal. lra.
  - r_eval. r_decide. f_equal. lra.
Qed.

Lemma cohort_baseline_run :
  compute_baseline_hazards
    (Some cohort_scores) (TargetTuple cohort_durations cohort_events)
    None None true fresh_model
  = (Ok cohort_baseline, with_hazards fresh_model cohort_baseline).
Proof.
  rewrite compute_baseline_hazards_set.
  assert (Hrun : compute_baseline_hazards
                   (Some cohort_scores)
                   (TargetTuple cohort_durations cohort_events)
                   None None false fresh_model
                 = (Ok cohort_baseline, fresh_model)).
  { unfold compute_baseline_hazards.
    erewrite (bind_ok get _ fresh_model fresh_model fresh_model eq_refl).
    erewrite (bind_ok (ret _) _ fresh_model fresh_model _ eq_refl).
    erewrite (bind_ok (lift _) _ fresh_model fresh_model cohort_df eq_refl).
    erewrite (bind_ok (ret _) _ fresh_model fresh_model _ eq_refl).
    erewrite (bind_ok (lift _) _ fresh_model fresh_model cohort_scores
                      eq_refl).
    rewrite cohort_baseline_computed.
    reflexivity. }
  rewrite Hrun. reflexivity.
Qed.

Lemma predict_cumulative_hazards_with_cache_witness :
  klass (with_hazards fresh_model cohort_baseline) <> CoxBase
  /\ predict_cumulative_hazards
       (InputArray cohort_scores) (Some 2%Z) None
       (with_hazards fresh_model cohort_baseline)
     = (if is_monotonic_increasing (index cohort_baseline)
        then (Ok (hazard_table (cumsum cohort_baseline) (Some 2%Z)
                               (map xexp (predict (T := Z) cohort_scores))),
              with_hazards fresh_model cohort_baseline)
        else (Raise AssertionError,
              with_hazards fresh_model cohort_baseline)).
Proof.
  split; [discriminate |].
  exact (proj1 (predict_cumulative_hazards_with_cache
                  (with_hazards fresh_model cohort_baseline)
                  cohort_baseline (cumsum cohort_baseline) cohort_scores
                  (Some 2%Z) ltac:(discriminate) eq_refl eq_refl)).
Defined.

Lemma set_hazards_then_predict_witness :
  predict_cumulative_hazards
    (InputArray cohort_scores) None None
    (with_hazards fresh_model cohort_baseline)
  = (Ok (hazard_table (cumsum cohort_baseline) None
                      (map xexp (predict (T := Z) cohort_scores))),
     with_hazards fresh_model cohort_baseline).
Proof.
  exact (proj1 (set_hazards_then_predict
                  (Some cohort_scores)
                  (TargetTuple cohort_durations cohort_events)
                  None None fresh_model
                  (with_hazards fresh_model cohort_baseline)
                  cohort_baseline cohort_scores None cohort_baseline_run)).
Defined.

(* ================================================================== *)
(** ** Prediction at given times *)

Section AtTimes.
Context {X T F : Type} `{TimeLaws T} `{Number F} `{Transcendental F}
        `{External X T F}.

Lemma np_take_in_range {A} (l : list A) (d : A) (idx : list Z) :
  Forall (fun i => (0 <= i < Z.of_nat (length l))%Z) idx ->
  np_take l idx = Ok (map (fun i => nth (Z.to_nat i) l d) idx).
Proof.
  induction 1 as [| i idx Hi _ IH]; [reflexivity |].
  cbn [np_take map]. rewrite IH. unfold np_getitem.
  destruct (Z.ltb_spec i 0); [lia |].
  destruct (Z.leb_spec 0 i); [| lia].
  destruct (Z.ltb_spec i (Z.of_nat (length l))); [| lia].
  cbn [andb].
  destruct (nth_error l (Z.to_nat i)) as [a |] eqn:Ha.
  - cbn [rbind]. now rewrite (nth_error_nth _ _ d Ha).
  - apply nth_error_None in Ha. lia.
Qed.

(** Looking up a non-empty series at a list of times. *)
Lemma lookup_rows (c : @Series T F) (times : list T) :
  c <> [] ->
  rbind (search_sorted_idx (index c) times)
        (fun times_idx => np_take (values c) (fst times_idx))
  = Ok (map (hazard_at c) times).
Proof.
  intro Hc. destruct c as [| [a0 h0] rest]; [contradiction |].
  unfold index. cbn [map]. rewrite search_sorted_idx_normal_form.
  cbn [rbind fst].
  rewrite (np_take_in_range _ NaN).
  - rewrite map_map. reflexivity.
  - apply Forall_map, Forall_forall. intros t _.
    pose proof (resolve_query_range a0 (map fst rest) t) as Hr.
    unfold values. cbn [map length] in *. rewrite length_map in *. lia.
Qed.

Lemma at_times_cached
      (self : model X T F) (c : @Series T F) (x : X) (times : list T)
      (return_df : bool) :
  klass self <> CoxBase ->
  baseline_cumulative_hazards_ self = Some c ->
  predict_cumulative_hazards_at_times times (InputArray x) return_df None self
  = (rmap (fun rows =>
             mk_table (if return_df then Some times else None)
                      (outer rows (map xexp (predict x))))
          (rbind (search_sorted_idx (index c) times)
                 (fun times_idx => np_take (values c) (fst times_idx))),
     self).
Proof.
  intros Hk Hc.
  destruct self as [k td ic bh bch]. cbn in Hk, Hc. subst bch.
  (destruct k; [contradiction | |]);
    cbv [predict_cumulative_hazards_at_times resolve_input bind get ret raise
         lift get_baseline_cumulative_hazards_ baseline_cumulative_hazards_
         klass];
    destruct (search_sorted_idx (index c) times) as [[idx w] | e];
    cbn [rbind fst rmap]; try reflexivity;
    destruct (np_take (values c) idx); reflexivity.
Qed.

Lemma at_times_explicit
      (self : model X T F) (b : @Series T F) (x : X) (times : list T)
      (return_df : bool) :
  klass self <> CoxBase ->
  predict_cumulative_hazards_at_times times (InputArray x) return_df
                                      (Some (Fresh b)) self
  = if is_monotonic_increasing (index b)
    then (rmap (fun rows =>
                  mk_table (if return_df then Some times else None)
                           (outer rows (map xexp (predict x))))
               (rbind (search_sorted_idx (index (cumsum b)) times)
                      (fun times_idx =>
                         np_take (values (cumsum b)) (fst times_idx))),
          self)
    else (Raise AssertionError, self).
Proof.
  intros Hk.
  destruct self as [k td ic bh bch]. cbn in Hk.
  (destruct k; [contradiction | |]);
    cbv [predict_cumulative_hazards_at_times resolve_input bind get ret raise
         lift deref klass
         compute_baseline_cumulative_hazards target_is_none negb orb andb
         is_some cumulative_of_baseline];
    destruct (is_monotonic_increasing (index b)); try reflexivity;
    destruct (search_sorted_idx (index (cumsum b)) times) as [[idx w] | e];
    cbn [rbind fst rmap]; try reflexivity;
    destruct (np_take (values (cumsum b)) idx); reflexivity.
Qed.

(** X12.  [predict_cumulative_hazards_at_times] on an array of
    covariates, for a model of class [CoxPHBase] or [CoxPH].  Without a
    baseline argument it needs the cached cumulative series: it raises
    [AttributeError] when there is none and [IndexError] when the series
    is empty and a time is asked for; on a non-empty series whose index
    is in ascending order it never raises and returns one row per query
    time, in the order given, each
    the cumulative hazard the time resolves to multiplied by
    [exp(g(x))], labelled with the times when [return_df] is set.  An
    explicit baseline series with a monotonic index is summed and used
    in the same way, whether or not anything is cached. *)
Theorem predict_cumulative_hazards_at_times_rows :
  forall (self : model X T F) (x : X) (times : list T) (return_df : bool),
    klass self <> CoxBase ->
    (baseline_cumulative_hazards_ self = None ->
     predict_cumulative_hazards_at_times times (InputArray x) return_df None
                                         self
     = (Raise AttributeError, self))
    /\ (forall t ts,
           baseline_cumulative_hazards_ self = Some [] ->
           predict_cumulative_hazards_at_times (t :: ts) (InputArray x)
                                               return_df None self
           = (Raise IndexError, self))
    /\ (forall c : @Series T F,
           baseline_cumulative_hazards_ self = Some c -> c <> [] ->
           is_monotonic_increasing (index c) = true ->
           predict_cumulative_hazards_at_times times (InputArray x) return_df
                                               None self
           = (Ok (mk_table (if return_df then Some times else None)
                           (map (fun t => map (xmul (hazard_at c t))
                                              (map xexp (predict x)))
                                times)),
              self))
    /\ (forall b : @Series T F,
           b <> [] -> is_monotonic_increasing (index b) = true ->
           predict_cumulative_hazards_at_times times (InputArray x) return_df
                                               (Some (Fresh b)) self
           = (Ok (mk_table (if return_df then Some times else None)
                           (map (fun t => map (xmul (hazard_at (cumsum b) t))
                                              (map xexp (predict x)))
                                times)),
              self)).
Proof.
  intros self x times rd Hk. repeat split.
  - intro Hc. destruct self as [k td ic bh bch]. cbn in Hk, Hc. subst bch.
    destruct k; [contradiction | reflexivity | reflexivity].
  - intros t ts Hc. rewrite (at_times_cached _ _ _ _ _ Hk Hc). reflexivity.
  - intros c Hc Hne _. rewrite (at_times_cached _ _ _ _ _ Hk Hc).
    rewrite (lookup_rows _ _ Hne). cbn [rmap]. unfold outer.
    now rewrite map_map.
  - intros b Hne Hm. rewrite (at_times_explicit _ _ _ _ _ Hk), Hm.
    rewrite lookup_rows.
    + cbn [rmap]. unfold outer. now rewrite map_map.
    + intro Hc. apply (f_equal (@length _)) in Hc.
      unfold cumsum in Hc. rewrite length_combine in Hc.
      unfold index, values in Hc.
      rewrite length_cumsum_values, !length_map, Nat.min_id in Hc.
      destruct b; [contradiction | discriminate].
Qed.

Lemma resolve_query_in_range (array : list T) (v : T) (i : nat) :
  StronglySorted (fun x y => t_ltb x y = true) array ->
  last_le array v = Some i ->
  Exists (fun a => t_leb v a = true) array ->
  resolve_query array v = Z.of_nat i.
Proof.
  intros Hs Hi Hex. unfold resolve_query.
  pose proof (searchsorted_lt_length array v Hex) as Hlt.
  destruct (Z.eqb_spec (Z.of_nat (searchsorted array v))
                       (Z.of_nat (length array))); [lia |].
  destruct (nth_error array (searchsorted array v)) as [a |] eqn:Ha.
  2:{ apply nth_error_None in Ha. lia. }
  rewrite (np_getitem_nth_error _ _ _ Ha).
  rewrite (searchsorted_last_le array v a i Hs Hi Ha).
  destruct (t_eqb v a); lia.
Qed.

Lemma resolve_query_below (a : T) (rest : list T) (v : T) :
  t_ltb v a = true -> resolve_query (a :: rest) v = (-1)%Z.
Proof.
  intro Hva. unfold resolve_query. cbn [searchsorted].
  assert (Hav : t_ltb a v = false).
  { unfold t_ltb. rewrite (t_ltb_leb _ _ Hva). reflexivity. }
  rewrite Hav.
  assert (Heq : t_eqb v a = false).
  { unfold t_eqb, t_ltb in *. apply negb_true_iff in Hva. rewrite Hva.
    apply andb_false_r. }
  change (Z.of_nat 0) with 0%Z.
  destruct (Z.eqb_spec 0 (Z.of_nat (length (a :: rest))));
    [cbn [length] in *; lia |].
  change (np_getitem (a :: rest) 0) with (Ok a).
  cbn beta iota. now rewrite Heq.
Qed.

Lemma resolve_query_above (array : list T) (b a v : T) :
  Forall (fun x => t_ltb x v = true) (array ++ [b; a]) ->
  resolve_query (array ++ [b; a]) v = Z.of_nat (length array).
Proof.
  intro Hall. unfold resolve_query.
  rewrite (searchsorted_all_smaller _ _ Hall), Z.eqb_refl.
  assert (Hav : t_eqb v a = false).
  { apply Forall_app in Hall. destruct Hall as [_ Ha].
    apply Forall_inv_tail in Ha. apply Forall_inv in Ha.
    unfold t_ltb in Ha. unfold t_eqb.
    apply negb_true_iff in Ha. rewrite Ha. reflexivity. }
  replace (array ++ [b; a]) with ((array ++ [b]) ++ [a])
    by now rewrite <- app_assoc.
  rewrite np_getitem_last, Hav. rewrite !length_app. cbn [length]. lia.
Qed.

Lemma at_times_single
      (self : model X T F) (c : @Series T F) (x : X) (t : T)
      (return_df : bool) :
  klass self <> CoxBase ->
  baseline_cumulative_hazards_ self = Some c -> c <> [] ->
  predict_cumulative_hazards_at_times [t] (InputArray x) return_df None self
  = (Ok (mk_table (if return_df then Some [t] else None)
                  [map (xmul (hazard_at c t)) (map xexp (predict x))]),
     self).
Proof.
  intros Hk Hc Hne. rewrite (at_times_cached _ _ _ _ _ Hk Hc).
  rewrite (lookup_rows _ _ Hne). reflexivity.
Qed.

(** X13.  Which cumulative hazard a query time gets, for a cached
    cumulative series with strictly increasing durations: a time between
    the first and the last duration gets the hazard of the largest
    duration that is at most the time; a time before the first duration
    gets the hazard of the first duration, not zero; a time after the
    last duration gets the hazard of the last duration but one, not that
    of the last. *)
Theorem predict_cumulative_hazards_at_times_lookup :
  forall (self : model X T F) (c : @Series T F) (x : X) (t : T)
         (return_df : bool),
    klass self <> CoxBase ->
    baseline_cumulative_hazards_ self = Some c ->
    StronglySorted (fun a b => t_ltb a b = true) (index c) ->
    (forall (i : nat) (h : xreal F),
        last_le (index c) t = Some i ->
        Exists (fun a => t_leb t a = true) (index c) ->
        nth_error (values c) i = Some h ->
        predict_cumulative_hazards_at_times [t] (InputArray x) return_df
                                            None self
        = (Ok (mk_table (if return_df then Some [t] else None)
                        [map (xmul h) (map xexp (predict x))]), self))
    /\ (forall (a : T) (h : xreal F) (rest : @Series T F),
           c = (a, h) :: rest -> t_ltb t a = true ->
           predict_cumulative_hazards_at_times [t] (InputArray x) return_df
                                               None self
           = (Ok (mk_table (if return_df then Some [t] else None)
                           [map (xmul h) (map xexp (predict x))]), self))
    /\ (forall (pre : @Series T F) (b a : T) (hb ha : xreal F),
           c = pre ++ [(b, hb); (a, ha)] -> t_ltb a t = true ->
           predict_cumulative_hazards_at_times [t] (InputArray x) return_df
                                               None self
           = (Ok (mk_table (if return_df then Some [t] else None)
                           [map (xmul hb) (map xexp (predict x))]), self)).
Proof.
  intros self c x t rd Hk Hc Hs. repeat split.
  - intros i h Hi Hex Hh.
    assert (Hne : c <> []).
    { intros ->. inversion Hex. }
    rewrite (at_times_single _ _ _ _ _ Hk Hc Hne).
    unfold hazard_at. fold (index c). fold (values c).
    rewrite (resolve_query_in_range _ _ _ Hs Hi Hex).
    rewrite Z.max_r, Nat2Z.id by lia.
    now rewrite (nth_error_nth _ _ NaN Hh).
  - intros a h rest -> Hlt.
    rewrite (at_times_single _ _ _ _ _ Hk Hc ltac:(discriminate)).
    unfold hazard_at. cbn [map fst].
    rewrite (resolve_query_below _ _ _ Hlt). reflexivity.
  - intros pre b a hb ha -> Hlt.
    assert (Hne : pre ++ [(b, hb); (a, ha)] <> []).
    { destruct pre; discriminate. }
    rewrite (at_times_single _ _ _ _ _ Hk Hc Hne).
    unfold hazard_at. unfold index in Hs.
    rewrite !map_app. rewrite map_app in Hs. cbn [map fst snd] in *.
    rewrite resolve_query_above.
    + rewrite Z.max_r, Nat2Z.id by lia.
      rewrite app_nth2 by (rewrite !length_map; lia).
      now rewrite !length_map, Nat.sub_diag.
    + replace (map fst pre ++ [b; a]) with ((map fst pre ++ [b]) ++ [a]) in *
        by now rewrite <- app_assoc.
      apply StronglySorted_app_inv in Hs. destruct Hs as (_ & _ & Hall).
      apply Forall_app. split; [| repeat constructor; exact Hlt].
      eapply Forall_impl; [| exact Hall]. cbn beta. intros y Hy.
      apply Forall_inv in Hy. eapply t_ltb_trans; eauto.
Qed.
End AtTimes.

(** The cohort of the specification with its hazards cached, queried
    at the times 2 and 7. *)
Lemma predict_cumulative_hazards_at_times_rows_witness :
  predict_cumulative_hazards_at_times
    [2%Z; 7%Z] (InputArray cohort_scores) true None
    (with_hazards fresh_model cohort_baseline)
  = (Ok (mk_table (Some [2%Z; 7%Z])
                  (map (fun t => map (xmul (hazard_at (cumsum cohort_baseline)
                                                      t))
                                     (map xexp
                                          (predict (T := Z) cohort_scores)))
                       [2%Z; 7%Z])),
     with_hazards fresh_model cohort_baseline).
Proof.
  refine (proj1 (proj2 (proj2 (predict_cumulative_hazards_at_times_rows
                   (with_hazards fresh_model cohort_baseline) cohort_scores
                   [2%Z; 7%Z] true ltac:(discriminate))))
                (cumsum cohort_baseline) eq_refl _ _).
  - discriminate.
  - reflexivity.
Defined.

(** The time 7 lies after the last duration 3 and gets the cumulative
    hazard of the duration 2. *)
Lemma predict_cumulative_hazards_at_times_lookup_witness :
  predict_cumulative_hazards_at_times
    [7%Z] (InputArray cohort_scores) false None
    (mk_model CoxPH None false None
              (Some [(2%Z, Fin (1 / 4)%R); (3%Z, Fin (3 / 4)%R)]))
  = (Ok (mk_table None
                  [map (xmul (Fin (1 / 4)%R))
                       (map xexp (predict (T := Z) cohort_scores))]),
     mk_model CoxPH None false None
              (Some [(2%Z, Fin (1 / 4)%R); (3%Z, Fin (3 / 4)%R)])).
Proof.
  refine (proj2 (proj2 (predict_cumulative_hazards_at_times_lookup
                   (mk_model CoxPH None false None
                             (Some [(2%Z, Fin (1 / 4)%R);
                                    (3%Z, Fin (3 / 4)%R)]))
                   [(2%Z, Fin (1 / 4)%R); (3%Z, Fin (3 / 4)%R)]
                   cohort_scores 7%Z false
                   ltac:(discriminate) eq_refl _))
                [] 2%Z 3%Z (Fin (1 / 4)%R) (Fin (3 / 4)%R) eq_refl eq_refl).
  repeat constructor.
Defined.

(* ================================================================== *)
(** ** Saving and loading *)

Section PersistenceFacts.
Import String Ascii.
Local Open Scope string_scope.
Context {X T F W : Type} `{Time T} `{Number F}.

Lemma append_cancel_l (s a b : string) : s ++ a = s ++ b -> a = b.
Proof.
  induction s as [| c s IH]; cbn; intro Hs; [exact Hs |].
  injection Hs as Hs. auto.
Qed.

Lemma string_cons_neq (c : ascii) (s : string) : s <> String c s.
Proof.
  induction s as [| d s IH]; intro Hs; [discriminate |].
  injection Hs as -> Hs. auto.
Qed.

(** The name [load_net] reads the net from differs from the two names
    [save_net] writes to. *)
Lemma dotted_name_not_written (p e : string) :
  String.eqb (p ++ "." ++ e) (p ++ e) = false
  /\ String.eqb (p ++ "." ++ e) (p ++ "_blh.pickle") = false.
Proof.
  split; apply String.eqb_neq; intro Hs; apply append_cancel_l in Hs.
  - symmetry in Hs. exact (string_cons_neq _ _ Hs).
  - discriminate Hs.
Qed.

Lemma split_dot_nonempty (s : string) : split_dot s <> [].
Proof.
  destruct s as [| c s]; cbn; [discriminate |].
  destruct (Ascii.eqb c "."); [discriminate |].
  destruct (split_dot s); discriminate.
Qed.

Lemma split_dot_no_dot (s : string) :
  no_dot s = true -> split_dot s = [s].
Proof.
  induction s as [| c s IH]; cbn; [reflexivity |].
  intro Hs. apply andb_true_iff in Hs. destruct Hs as [Hc Hs].
  apply negb_true_iff in Hc. rewrite Hc, (IH Hs). reflexivity.
Qed.

Lemma split_dot_app (stem rest : string) :
  no_dot stem = true ->
  split_dot (stem ++ "." ++ rest) = stem :: split_dot rest.
Proof.
  induction stem as [| c s IH]; cbn; [reflexivity |].
  intro Hs. apply andb_true_iff in Hs. destruct Hs as [Hc Hs].
  apply negb_true_iff in Hc. rewrite Hc.
  cbn in IH. rewrite (IH Hs). reflexivity.
Qed.

Lemma path_and_extension_no_dot (path : string) :
  no_dot path = true -> path_and_extension path = (path, "pt").
Proof.
  intro Hp. unfold path_and_extension.
  now rewrite (split_dot_no_dot _ Hp).
Qed.

Lemma path_and_extension_dotted (stem ext : string) :
  no_dot stem = true -> no_dot ext = true ->
  path_and_extension (stem ++ "." ++ ext) = (stem, ext).
Proof.
  intros Hs He. unfold path_and_extension.
  now rewrite (split_dot_app _ _ Hs), (split_dot_no_dot _ He).
Qed.

Lemma path_and_extension_tail (stem ext tail : string) :
  no_dot stem = true -> no_dot ext = true ->
  path_and_extension (stem ++ "." ++ ext ++ "." ++ tail) = (stem, ext).
Proof.
  intros Hs He. unfold path_and_extension.
  rewrite (split_dot_app _ _ Hs), (split_dot_app _ _ He).
  destruct (split_dot tail) eqn:Ht; [now apply split_dot_nonempty in Ht |].
  reflexivity.
Qed.

Lemma save_net_files (path p e : string) (st : session X T F W) :
  path_and_extension path = (p, e) ->
  save_net path st
  = mk_session (net st) (attrs st)
      (match baseline_hazards_ (attrs st) with
       | Some b => write (p ++ "_blh.pickle") (PickleFile b)
                         (write (p ++ e) (NetFile (net st)) (files st))
       | None => write (p ++ e) (NetFile (net st)) (files st)
       end).
Proof. intro Hp. unfold save_net. now rewrite Hp. Qed.

(** X14.  Which files [save_net] writes, in terms of the pieces of the
    path.  For [path = stem.ext] the net goes to the file [stem ++ ext],
    the name without its dot, and a path without a dot gets [pt]
    appended without a dot; whatever follows a second dot is ignored.
    The cached baseline hazards, if any, go to [stem ++ "_blh.pickle"],
    written last; no other file changes, and neither do the net and the
    attributes of the model. *)
Theorem save_net_file_names :
  forall (stem ext tail : string) (st : session X T F W),
    no_dot stem = true -> no_dot ext = true ->
    (forall path,
        path = stem ++ "." ++ ext \/ path = stem ++ "." ++ ext ++ "." ++ tail
        \/ (path = stem /\ ext = "pt") ->
        net (save_net path st) = net st
        /\ attrs (save_net path st) = attrs st
        /\ forall q,
            files (save_net path st) q
            = match baseline_hazards_ (attrs st) with
              | Some b =>
                  if String.eqb q (stem ++ "_blh.pickle")
                  then Some (PickleFile b)
                  else if String.eqb q (stem ++ ext)
                       then Some (NetFile (net st))
                       else files st q
              | None =>
                  if String.eqb q (stem ++ ext)
                  then Some (NetFile (net st))
                  else files st q
              end).
Proof.
  intros stem ext tail st Hs He path Hpath.
  assert (Hp : path_and_extension path = (stem, ext)).
  { destruct Hpath as [-> | [-> | [-> ->]]].
    - now apply path_and_extension_dotted.
    - now apply path_and_extension_tail.
    - now apply path_and_extension_no_dot. }
  rewrite (save_net_files _ _ _ _ Hp). cbn [net attrs files].
  repeat split. intro q.
  destruct (baseline_hazards_ (attrs st)); reflexivity.
Qed.

(** X15.  [load_net] does not read the net that [save_net] wrote for
    the same path: it looks for the name with the dot, [save_net] wrote
    the name without it.  Unless a file of the dotted name was there
    before, loading right after saving raises [FileNotFoundError] and
    changes nothing. *)
Theorem load_net_misses_saved_net :
  forall (path p e : string) (st : session X T F W),
    path_and_extension path = (p, e) ->
    files st (p ++ "." ++ e) = None ->
    files (save_net path st) (p ++ "." ++ e) = None
    /\ load_net path (save_net path st)
       = (Some FileNotFoundError, save_net path st).
Proof.
  intros path p e st Hp Hnone.
  destruct (dotted_name_not_written p e) as [Hne Hnb].
  assert (Hf : files (save_net path st) (p ++ "." ++ e) = None).
  { rewrite (save_net_files _ _ _ _ Hp). cbn [files].
    destruct (baseline_hazards_ (attrs st)); unfold write;
      now rewrite ?Hnb, Hne. }
  split; [exact Hf |].
  unfold load_net. rewrite Hp. now rewrite Hf.
Qed.

(** X16.  The baseline hazards survive saving and loading, provided a
    net file of the dotted name exists: after [save_net] on a model
    whose cached baseline series is [b], [load_net] with the same path
    into any model sets [baseline_hazards_] to [b] and
    [baseline_cumulative_hazards_] to the running total of [b], and
    takes the weights from the file that was there, not from the net
    just saved.  When nothing was cached and there is no hazards file,
    the attributes of the loading model stay as they are. *)
Theorem hazards_round_trip :
  forall (path p e : string) (st other : session X T F W) (w0 : W),
    path_and_extension path = (p, e) ->
    files st (p ++ "." ++ e) = Some (NetFile w0) ->
    (forall b,
        baseline_hazards_ (attrs st) = Some b ->
        load_net path (mk_session (net other) (attrs other)
                                  (files (save_net path st)))
        = (None,
           mk_session w0
             (mk_model (klass (attrs other)) (training_data (attrs other))
                       (input_cols (attrs other)) (Some b) (Some (cumsum b)))
             (files (save_net path st))))
    /\ (baseline_hazards_ (attrs st) = None ->
        files st (p ++ "_blh.pickle") = None ->
        e <> "_blh.pickle" ->
        load_net path (mk_session (net other) (attrs other)
                                  (files (save_net path st)))
        = (None,
           mk_session w0 (attrs other) (files (save_net path st)))).
Proof.
  intros path p e st other w0 Hp Hnet.
  destruct (dotted_name_not_written p e) as [Hne Hnb].
  split.
  - intros b Hb.
    assert (Hf1 : files (save_net path st) (p ++ "." ++ e)
                  = Some (NetFile w0)).
    { rewrite (save_net_files _ _ _ _ Hp). cbn [files]. rewrite Hb.
      unfold write. now rewrite Hnb, Hne. }
    assert (Hf2 : files (save_net path st) (p ++ "_blh.pickle")
                  = Some (PickleFile b)).
    { rewrite (save_net_files _ _ _ _ Hp). cbn [files]. rewrite Hb.
      unfold write. now rewrite String.eqb_refl. }
    unfold load_net. rewrite Hp. cbn [files attrs net].
    now rewrite Hf1, Hf2.
  - intros Hb Hblh Hext.
    assert (Hf1 : files (save_net path st) (p ++ "." ++ e)
                  = Some (NetFile w0)).
    { rewrite (save_net_files _ _ _ _ Hp). cbn [files]. rewrite Hb.
      unfold write. now rewrite Hne. }
    assert (Hf2 : files (save_net path st) (p ++ "_blh.pickle") = None).
    { rewrite (save_net_files _ _ _ _ Hp). cbn [files]. rewrite Hb.
      unfold write.
      assert (Hq : String.eqb (p ++ "_blh.pickle") (p ++ e) = false).
      { apply String.eqb_neq. intro Hs. apply append_cancel_l in Hs.
        now symmetry in Hs. }
      now rewrite Hq. }
    unfold load_net. rewrite Hp. cbn [files attrs net].
    now rewrite Hf1, Hf2.
Qed.
End PersistenceFacts.

Section PersistenceWitnesses.
Import String.
Local Open Scope string_scope.

(** [save_net("model.pt")] writes the net to [modelpt]. *)
Lemma save_net_file_names_witness :
  files (save_net "model.pt" fitted_session) "modelpt" = Some (NetFile 7%nat).
Proof.
  exact (proj2 (proj2 (save_net_file_names
                         "model" "pt" "" fitted_session eq_refl eq_refl
                         "model.pt" (or_introl eq_refl)))
               "modelpt").
Defined.

Lemma load_net_misses_saved_net_witness :
  load_net "model.pt" (save_net "model.pt" fitted_session)
  = (Some FileNotFoundError, save_net "model.pt" fitted_session).
Proof.
  exact (proj2 (load_net_misses_saved_net
                  "model.pt" "model" "pt" fitted_session eq_refl eq_refl)).
Defined.

Lemma hazards_round_trip_witness :
  load_net "model.pt"
           (mk_session (net new_session) (attrs new_session)
                       (files (save_net "model.pt" fitted_session_beside_net)))
  = (None,
     mk_session 3%nat
       (mk_model CoxPH None false
                 (Some small_baseline) (Some (cumsum small_baseline)))
       (files (save_net "model.pt" fitted_session_beside_net))).
Proof.
  exact (proj1 (hazards_round_trip
                  "model.pt" "model" "pt" fitted_session_beside_net
                  new_session 3%nat eq_refl eq_refl)
               small_baseline eq_refl).
Defined.
End PersistenceWitnesses.

(* ================================================================== *)
(** ** The training loss *)

Section LossReal.

Lemma length_zip_with_min {A B C} (f : A -> B -> C) (l : list A)
      (m : list B) :
  length (zip_with f l m) = Nat.min (length l) (length m).
Proof.
  revert m. induction l as [| a l IH]; intros [| b m]; cbn; auto.
Qed.

Lemma xmul_zero_r (d : xreal R) :
  xmul d (Fin 0%R) = Fin 0%R \/ xmul d (Fin 0%R) = NaN.
Proof.
  destruct d as [x | | |].
  - left. cbn. f_equal. lra.
  - right. cbn. unfold fsign. cbn.
    destruct (Req_dec_T 0 0); [reflexivity | lra].
  - right. cbn. unfold fsign. cbn.
    destruct (Req_dec_T 0 0); [reflexivity | lra].
  - right. reflexivity.
Qed.

Lemma sum_zero_weighted (D : list (xreal R)) (n : nat) (acc : xreal R) :
  acc = Fin 0%R \/ acc = NaN ->
  fold_left xadd (zip_with xmul D (repeat (Fin 0%R) n)) acc = Fin 0%R
  \/ fold_left xadd (zip_with xmul D (repeat (Fin 0%R) n)) acc = NaN.
Proof.
  revert n acc. induction D as [| d D IH]; intros [| n] acc Hacc; cbn;
    try exact Hacc.
  apply IH.
  destruct Hacc as [-> | ->]; [| right; reflexivity].
  destruct (xmul_zero_r d) as [-> | ->]; [left | right; reflexivity].
  cbn. f_equal. lra.
Qed.

Lemma sum_zeros (n : nat) :
  fold_left xadd (repeat (Fin 0%R) n) (Fin 0%R) = Fin 0%R.
Proof.
  induction n as [| n IH]; cbn; [reflexivity |].
  replace (0 + 0)%R with 0%R by lra. exact IH.
Qed.

(** X17.  A batch without a single event has no loss: when every entry
    of [event] is zero, [loss_cox_ph] returns [NaN] whatever the risks
    are (the weighted sum is [0] or [NaN], and it is divided by the
    event count [0]). *)
Theorem loss_cox_ph_no_event_is_nan :
  forall risk : list (xreal R),
    loss_cox_ph risk (repeat (Fin 0%R) (length risk)) = Some NaN.
Proof.
  intro risk. unfold loss_cox_ph, torch_mul.
  set (D := zip_with xsub risk (map xlog (np_cumsum (map xexp risk)))).
  assert (HD : length D = length risk).
  { unfold D. rewrite length_zip_with_min, !length_map, length_np_cumsum,
      length_map. apply Nat.min_id. }
  rewrite repeat_length, HD, Nat.eqb_refl.
  unfold torch_sum. cbn [f0 R_Number]. rewrite sum_zeros.
  destruct (sum_zero_weighted D (length risk) (Fin 0%R) (or_introl eq_refl))
    as [-> | ->]; [| reflexivity].
  cbn. destruct (Req_dec_T 0 0) as [_ | Hne]; [| lra].
  unfold fsign. cbn. destruct (Req_dec_T 0 0); [reflexivity | lra].
Qed.
End LossReal.

Section SortedBatch.
Context {T : Type} `{TimeLaws T}.

Lemma insert_desc_last {A} (key : A -> T) (a : A) (m : list A) :
  Forall (fun b => t_leb (key a) (key b) = true) m ->
  insert_desc key a m = m ++ [a].
Proof.
  induction 1 as [| b m Hb _ IH]; cbn; [reflexivity |].
  unfold t_ltb. rewrite Hb. cbn [negb]. now rewrite IH.
Qed.

(** A table that is already in descending order is left as it is. *)
Lemma sort_desc_descending {A} (key : A -> T) (l : list A) :
  StronglySorted (fun a b => t_leb (key b) (key a) = true) l ->
  sort_desc key l = l.
Proof.
  induction l as [| a l IH] using rev_ind; intro Hs; [reflexivity |].
  unfold sort_desc. rewrite rev_app_distr. cbn [rev app fold_right].
  apply StronglySorted_app_inv in Hs. destruct Hs as (Hl & _ & Hall).
  fold (sort_desc key l). rewrite (IH Hl).
  apply insert_desc_last.
  eapply Forall_impl; [| exact Hall]. cbn beta. intros b Hb.
  now apply Forall_inv in Hb.
Qed.

Lemma StronglySorted_map_inv {A B} (R : B -> B -> Prop) (f : A -> B)
      (l : list A) :
  StronglySorted R (map f l) -> StronglySorted (fun a b => R (f a) (f b)) l.
Proof.
  induction l as [| a l IH]; cbn; intro Hs; [constructor |].
  apply StronglySorted_inv in Hs. destruct Hs as [Hs Hall].
  constructor; [auto |].
  rewrite Forall_map in Hall. exact Hall.
Qed.

Lemma nanmax_single {F} `{Number F} (c : xreal F) : nanmax [c] = c.
Proof. destruct c; reflexivity. Qed.

Lemma t_eqb_sym (a b : T) : t_eqb a b = t_eqb b a.
Proof. unfold t_eqb. apply andb_comm. Qed.

Lemma t_ltb_not_eqb (a b : T) : t_ltb a b = true -> t_eqb a b = false.
Proof.
  unfold t_ltb, t_eqb. intro Hlt. apply negb_true_iff in Hlt.
  rewrite Hlt. apply andb_false_r.
Qed.

(** With distinct keys every group has one row, and the largest entry of
    a group is the entry itself. *)
Lemma groupby_transform_max_distinct {F} `{Number F}
      (keys : list T) (col : list (xreal F)) :
  StronglySorted (fun a b => t_ltb b a = true) keys ->
  length col = length keys ->
  groupby_transform_max keys col = col.
Proof.
  intros Hs Hlen. unfold groupby_transform_max.
  assert (Hgen : forall pre : list (T * xreal F),
    Forall (fun p => Forall (fun k => t_eqb (fst p) k = false) keys) pre ->
    map (fun k => nanmax (map snd (filter (fun kc => t_eqb (fst kc) k)
                                          (pre ++ combine keys col))))
        keys = col).
  { revert col Hlen. induction Hs as [| k ks Hs IH Hall];
      intros [| c cs] Hlen pre Hpre; cbn in Hlen; try discriminate;
      [reflexivity |].
    cbn [map combine]. f_equal.
    - rewrite filter_app. cbn [filter]. rewrite (proj2 (t_eqb_eq k k) eq_refl).
      rewrite (filter_nil _ pre).
      2:{ intros p Hp. rewrite Forall_forall in Hpre.
          specialize (Hpre p Hp). now apply Forall_inv in Hpre. }
      rewrite (filter_nil _ (combine ks cs)).
      2:{ intros [k' c'] Hin. cbn [fst].
          apply in_combine_l in Hin. rewrite Forall_forall in Hall.
          apply t_ltb_not_eqb. now apply Hall. }
      cbn [app map]. apply nanmax_single.
    - replace (pre ++ (k, c) :: combine ks cs)
        with ((pre ++ [(k, c)]) ++ combine ks cs)
        by now rewrite <- app_assoc.
      apply IH; [lia |].
      apply Forall_app. split.
      + eapply Forall_impl; [| exact Hpre]. cbn beta. intros p Hp.
        now apply Forall_inv_tail in Hp.
      + repeat constructor. cbn [fst].
        eapply Forall_impl; [| exact Hall]. cbn beta. intros k' Hk'.
        rewrite t_eqb_sym. now apply t_ltb_not_eqb. }
  exact (Hgen [] (Forall_nil _)).
Qed.
End SortedBatch.

Section LossLikelihood.
Context {X T F : Type} `{TimeLaws T} `{Number F} `{Transcendental F}
        `{External X T F}.

Lemma map_duration_range_rows (start : nat) (durations : list T)
      (events : list F) :
  length durations = length events ->
  map (@duration T F) (range_rows start durations events) = durations.
Proof.
  revert start events. induction durations as [| d ds IH];
    intros start [| e es] Hlen; cbn in *; try discriminate; auto.
  f_equal. apply IH. lia.
Qed.

Lemma xexp_not_nan (g : xreal F) : isnan g = false -> isnan (xexp g) = false.
Proof.
  destruct g as [x | | |]; cbn; auto. now destruct (exp_overflows x).
Qed.

(** The terms of the rows kept by [.loc[event == 1]], read off the
    table or off the columns. *)
Lemma pll_terms_of_columns
      (durations : list T) (events : list F) (risk cs : list (xreal F))
      (start : nat) :
  length durations = length events ->
  length risk = length durations ->
  length cs = length durations ->
  map snd
      (map (fun r : row T F * xreal F * xreal F =>
              (label (fst (fst r)), xsub (snd (fst r)) (xlog (snd r))))
           (filter (fun r => f_eqb (event (fst (fst r))) f1)
                   (combine (combine (range_rows start durations events)
                                     risk)
                            cs)))
  = map snd (filter (fun p : F * xreal F => f_eqb (fst p) f1)
                    (combine events (zip_with xsub risk (map xlog cs)))).
Proof.
  revert events risk cs start.
  induction durations as [| d ds IH];
    intros [| e es] [| g gs] [| c cs] start Hde Hg Hc;
    cbn in Hde, Hg, Hc; try discriminate; [reflexivity |].
  cbn [map zip_with range_rows combine filter fst snd event].
  destruct (f_eqb e f1); cbn [map snd]; [f_equal |]; apply IH; lia.
Qed.

(** On a batch in strictly decreasing order of duration, with no
    missing risk, [partial_log_likelihood] keeps the order, finds every
    duration alone in its group, and returns the terms of the rows with
    an event. *)
Lemma partial_log_likelihood_sorted_batch
      (self : model X T F) (input : X) (durations : list T)
      (events : list F) (risk : list (xreal F)) :
  klass self <> CoxBase ->
  length durations = length events ->
  length risk = length durations ->
  StronglySorted (fun a b => t_ltb b a = true) durations ->
  Forall (fun g => isnan g = false) risk ->
  partial_log_likelihood self input (TargetTuple durations events)
                         (Some risk)
  = Ok (map (fun r : row T F * xreal F * xreal F =>
               (label (fst (fst r)), xsub (snd (fst r)) (xlog (snd r))))
            (filter (fun r => f_eqb (event (fst (fst r))) f1)
                    (combine (combine (range_rows 0 durations events) risk)
                             (np_cumsum (map xexp risk))))).
Proof.
  intros Hk Hde Hg Hs Hnan.
  set (df := range_rows 0 durations events).
  set (C := combine df risk).
  assert (Hdf : length df = length durations).
  { unfold df. now apply length_range_rows. }
  assert (Hkeys : map (fun r : row T F * xreal F => duration (fst r)) C
                  = durations).
  { unfold C. rewrite <- (map_map fst (@duration T F)).
    rewrite map_fst_combine by lia.
    unfold df. now apply map_duration_range_rows. }
  assert (Hsort : sort_desc (fun r : row T F * xreal F => duration (fst r)) C
                  = C).
  { apply sort_desc_descending.
    apply (StronglySorted_map_inv
             (fun a b => t_leb b a = true)
             (fun r : row T F * xreal F => duration (fst r))).
    rewrite Hkeys.
    eapply StronglySorted_ind
      with (P := StronglySorted (fun a b => t_leb b a = true));
      [constructor | | exact Hs].
    intros a l _ IHl Hall. constructor; [exact IHl |].
    eapply Forall_impl; [| exact Hall]. cbn beta. intros b Hb.
    now apply t_ltb_leb. }
  assert (Hcol : cumsum_values (map (fun r : row T F * xreal F =>
                                       xexp (snd r)) C)
                 = np_cumsum (map xexp risk)).
  { rewrite <- (map_map snd xexp). unfold C.
    rewrite map_snd_combine by lia.
    apply cumsum_values_no_nan.
    apply Forall_map. eapply Forall_impl; [| exact Hnan].
    intros g Hgn. now apply xexp_not_nan. }
  assert (Hbody :
    rbind (target_to_df (TargetTuple durations events)) (fun df0 =>
      rbind (assign df0 risk) (fun df1 =>
        let df2 := sort_desc (fun r => duration (fst r)) df1 in
        let c := groupby_transform_max
                   (map (fun r => duration (fst r)) df2)
                   (cumsum_values (map (fun r => xexp (snd r)) df2)) in
        let df3 := combine df2 c in
        let df4 := filter (fun r => f_eqb (event (fst (fst r))) f1) df3 in
        Ok (map (fun r => (label (fst (fst r)),
                           xsub (snd (fst r)) (xlog (snd r)))) df4)))
    = Ok (map (fun r : row T F * xreal F * xreal F =>
                 (label (fst (fst r)), xsub (snd (fst r)) (xlog (snd r))))
              (filter (fun r => f_eqb (event (fst (fst r))) f1)
                      (combine C (np_cumsum (map xexp risk)))))).
  { unfold target_to_df. rewrite Hde, Nat.eqb_refl. cbn [rbind].
    fold df. unfold assign. rewrite Hdf, Hg, Nat.eqb_refl.
    cbn [rbind]. fold C. cbv zeta. rewrite Hsort, Hkeys, Hcol.
    rewrite groupby_transform_max_distinct;
      [reflexivity | exact Hs | rewrite length_np_cumsum, length_map; lia]. }
  unfold partial_log_likelihood.
  destruct (klass self); [contradiction | exact Hbody | exact Hbody].
Qed.

Lemma xmul_one (d : xreal F) : UnitLaws F -> xmul d (Fin f1) = d.
Proof.
  intro L. destruct d as [x | | |]; cbn; unfold fsign;
    rewrite ?unit_mul_1, ?unit_eqb_1_0, ?unit_leb_0_1; reflexivity.
Qed.

Lemma xadd_zero (a : xreal F) : UnitLaws F -> xadd a (Fin f0) = a.
Proof.
  intro L. destruct a as [x | | |]; cbn; rewrite ?unit_add_0; reflexivity.
Qed.

(** Weighting the terms by event indicators 0 and 1 and summing them is
    summing the terms of the rows with [event == 1], as long as the term
    of a row without event is finite (an infinity times 0 is [NaN]). *)
Lemma weighted_sum_over_events
      (events : list F) (terms : list (xreal F)) (acc : xreal F) :
  UnitLaws F ->
  Forall (fun e => e = f0 \/ e = f1) events ->
  Forall (fun p : F * xreal F => fst p = f0 -> isfinite (snd p) = true)
         (combine events terms) ->
  fold_left xadd (zip_with xmul terms (map Fin events)) acc
  = fold_left xadd
      (map snd (filter (fun p : F * xreal F => f_eqb (fst p) f1)
                       (combine events terms)))
      acc.
Proof.
  intros L Hev. revert terms acc.
  induction Hev as [| e es He _ IH]; intros [| d ds] acc Hfin;
    try reflexivity.
  cbn [combine] in Hfin. apply Forall_cons_iff in Hfin.
  destruct Hfin as [Hd Hfin]. cbn [fst snd] in Hd.
  cbn [map zip_with combine filter fst fold_left].
  destruct He as [-> | ->].
  - rewrite unit_eqb_0_1.
    destruct d as [x | | |]; try (specialize (Hd eq_refl); discriminate).
    cbn [xmul]. rewrite unit_mul_0, (xadd_zero acc L). now apply IH.
  - rewrite unit_eqb_1_1, (xmul_one d L). cbn [map snd fold_left].
    now apply IH.
Qed.

(** X18.  On a batch in strictly decreasing order of duration, with no
    missing risk, [partial_log_likelihood] and [loss_cox_ph] use the
    same terms [risk_i - log (cumsum (exp risk)_i)]: the first returns
    the terms of the rows with [event == 1], in order; the second
    returns minus the sum of all terms, each weighted by its event
    indicator, over the sum of the indicators.  When the indicators are
    0 or 1 and the term of every row without event is finite, the
    weighted sum is the sum of the returned terms, so the loss is minus
    their sum over the number of events; this needs no more of
    arithmetic than [x * 1 = x], [x * 0 = 0] and [x + 0 = x]. *)
Theorem loss_cox_ph_is_mean_negative_pll :
  forall (self : model X T F) (input : X) (durations : list T)
         (events : list F) (risk : list (xreal F)),
    klass self <> CoxBase ->
    length durations = length events ->
    length risk = length durations ->
    StronglySorted (fun a b => t_ltb b a = true) durations ->
    Forall (fun g => isnan g = false) risk ->
    let terms := zip_with xsub risk (map xlog (np_cumsum (map xexp risk))) in
    exists pll : list (nat * xreal F),
      partial_log_likelihood self input (TargetTuple durations events)
                             (Some risk)
      = Ok pll
      /\ map snd pll
         = map snd (filter (fun p : F * xreal F => f_eqb (fst p) f1)
                           (combine events terms))
      /\ loss_cox_ph risk (map Fin events)
         = Some (xopp (xdiv (torch_sum (zip_with xmul terms (map Fin events)))
                            (torch_sum (map Fin events))))
      /\ (UnitLaws F ->
          Forall (fun e => e = f0 \/ e = f1) events ->
          Forall (fun p : F * xreal F =>
                    fst p = f0 -> isfinite (snd p) = true)
                 (combine events terms) ->
          loss_cox_ph risk (map Fin events)
          = Some (xopp (xdiv (torch_sum (map snd pll))
                             (torch_sum (map Fin events))))).
Proof.
  intros self input durations events risk Hk Hde Hg Hs Hnan terms.
  eexists. split.
  { now apply partial_log_likelihood_sorted_batch. }
  assert (Hterms : map snd _ = map snd (filter _ (combine events terms)))
    by (apply (pll_terms_of_columns durations events risk
                 (np_cumsum (map xexp risk)) 0 Hde Hg);
        rewrite length_np_cumsum, length_map; lia).
  assert (Hloss : loss_cox_ph risk (map Fin events)
                  = Some (xopp (xdiv (torch_sum (zip_with xmul terms
                                                          (map Fin events)))
                                     (torch_sum (map Fin events))))).
  { unfold loss_cox_ph, torch_mul. fold terms.
    assert (Hlen : length terms = length (map Fin events)).
    { unfold terms. rewrite length_zip_with_min, !length_map,
        length_np_cumsum, length_map, Nat.min_id. lia. }
    now rewrite Hlen, Nat.eqb_refl. }
  split; [exact Hterms |]. split; [exact Hloss |].
  intros L Hev Hfin. rewrite Hloss, Hterms. unfold torch_sum.
  now rewrite (weighted_sum_over_events events terms (Fin f0) L Hev Hfin).
Qed.
End LossLikelihood.

(** A batch of three subjects in decreasing order of duration. *)
Lemma loss_cox_ph_is_mean_negative_pll_witness :
  exists pll : list (nat * xreal R),
    partial_log_likelihood fresh_model cohort_scores
                           (TargetTuple [3; 2; 1]%Z [1; 0; 1]%R)
                           (Some (map Fin [0; 0; ln 2]%R))
    = Ok pll
    /\ map snd pll
       = [Fin (0 + - ln (exp 0));
          Fin (ln 2 + - ln (exp 0 + exp 0 + exp (ln 2)))]%R
    /\ loss_cox_ph (map Fin [0; 0; ln 2]%R) (map Fin [1; 0; 1]%R)
       = Some (xopp (xdiv (torch_sum (map snd pll))
                          (torch_sum (map Fin [1; 0; 1]%R)))).
Proof.
  assert (Hpos : forall x : R, (0 < x)%R -> xlog (Fin x) = Fin (ln x)).
  { intros x Hx. cbn. unfold fsign. cbn.
    destruct (Req_dec_T x 0); [lra |].
    destruct (Rle_dec 0 x); [reflexivity | lra]. }
  pose proof (exp_pos 0) as H0. pose proof (exp_pos (ln 2)) as H2.
  assert (Hterms :
    zip_with xsub (map Fin [0; 0; ln 2]%R)
             (map xlog (np_cumsum (map xexp (map Fin [0; 0; ln 2]%R))))
    = [Fin (0 + - ln (exp 0)); Fin (0 + - ln (exp 0 + exp 0));
       Fin (ln 2 + - ln (exp 0 + exp 0 + exp (ln 2)))]%R).
  { cbn [map np_cumsum np_cumsum_from xexp exp_overflows fexp
         R_Transcendental xadd fadd R_Number].
    rewrite !Hpos by lra. reflexivity. }
  assert (Hev : filter (fun p : R * xreal R => f_eqb (fst p) f1)
                       (combine [1; 0; 1]%R
                          [Fin (0 + - ln (exp 0)); Fin (0 + - ln (exp 0 + exp 0));
                           Fin (ln 2 + - ln (exp 0 + exp 0 + exp (ln 2)))]%R)
                = [(1, Fin (0 + - ln (exp 0)));
                   (1, Fin (ln 2 + - ln (exp 0 + exp 0 + exp (ln 2))))]%R).
  { cbn. destruct (Req_dec_T 1 1); [| lra]. destruct (Req_dec_T 0 1); [lra |].
    reflexivity. }
  destruct (loss_cox_ph_is_mean_negative_pll
              (X := list (xreal R)) (T := Z) (F := R)
              fresh_model cohort_scores [3; 2; 1]%Z [1; 0; 1]%R
              (map Fin [0; 0; ln 2]%R))
    as (pll & Hrun & Hvals & _ & Hmean).
  - discriminate.
  - reflexivity.
  - reflexivity.
  - repeat constructor.
  - repeat constructor.
  - exists pll. split; [exact Hrun |]. split.
    + rewrite Hvals, Hterms, Hev. reflexivity.
    + apply Hmean.
      * exact R_UnitLaws.
      * constructor; [right; reflexivity |].
        constructor; [left; reflexivity |].
        constructor; [right; reflexivity | constructor].
      * rewrite Hterms. repeat constructor.
Defined.

(** Where the finiteness of the terms matters: the first risk is so low
    that its exponential underflows to 0, the term of that row is
    [+inf], and its product with the indicator 0 is [NaN].  The loss is
    [NaN], although the only term [partial_log_likelihood] returns
    is 0. *)
Example loss_cox_ph_nan_on_underflow :
  loss_cox_ph (H0 := float_exp) [Fin (-1000)%R; Fin 0%R] [Fin 0%R; Fin 1%R]
  = Some NaN
  /\ partial_log_likelihood (H1 := float_exp) fresh_model cohort_scores
                            (TargetTuple [2; 1]%Z [0; 1]%R)
                            (Some [Fin (-1000)%R; Fin 0%R])
     = Ok [(1%nat, Fin 0%R)].
Proof.
  assert (Hu : @xexp R R_Number float_exp (Fin (-1000)%R) = Fin 0%R)
    by (apply float_exp_underflow; lra).
  assert (H1 : @xexp R R_Number float_exp (Fin 0%R) = Fin 1%R)
    by (apply float_exp_one; lra).
  assert (Hl0 : @xlog R R_Number float_exp (Fin 0%R) = NInf).
  { cbn. unfold fsign. cbn. destruct (Req_dec_T 0 0); [reflexivity | lra]. }
  assert (Hl1 : @xlog R R_Number float_exp (Fin (0 + 1)%R) = Fin 0%R).
  { cbn. unfold fsign. cbn. destruct (Req_dec_T (0 + 1) 0); [lra |].
    destruct (Rle_dec 0 (0 + 1)); [| lra].
    replace (0 + 1)%R with 1%R by lra. now rewrite ln_1. }
  split.
  - unfold loss_cox_ph. cbn [map np_cumsum np_cumsum_from].
    rewrite Hu, H1. cbn [xadd fadd R_Number]. rewrite Hl0, Hl1.
    cbn. unfold fsign. cbn.
    destruct (Req_dec_T 0 0); [reflexivity | lra].
  - rewrite (partial_log_likelihood_sorted_batch (H2 := float_exp));
      [| discriminate | reflexivity | reflexivity | repeat constructor
       | repeat constructor].
    cbn [map np_cumsum np_cumsum_from]. rewrite Hu, H1.
    cbn [xadd fadd R_Number range_rows combine filter fst snd event].
    cbn [f_eqb R_Number f1].
    destruct (Req_dec_T 0 1); [lra |]. destruct (Req_dec_T 1 1); [| lra].
    cbn [map fst snd label]. rewrite Hl1. cbn.
    replace (0 + - 0)%R with 0%R by lra. reflexivity.
Qed.

(* ================================================================== *)
(** ** Signs and ranges *)

Section Nonnegative.
Context {F : Type} `{Number F} {RL : RoundedLaws F}.

Lemma nonneg_zero : nonneg (@Fin F f0) = true.
Proof. cbn. apply rnd_leb_refl. Qed.

Lemma rnd_fadd_nonneg (a b : F) :
  f_leb f0 a = true -> f_leb f0 b = true -> f_leb f0 (fadd a b) = true.
Proof.
  intros Ha Hb. apply (rnd_leb_trans _ _ _ Ha). now apply rnd_add_incr.
Qed.

Lemma nonneg_xadd (a b : xreal F) :
  nonneg a = true -> nonneg b = true -> nonneg (xadd a b) = true.
Proof.
  destruct a as [x | | |], b as [y | | |]; cbn; try discriminate; auto.
  apply rnd_fadd_nonneg.
Qed.

Lemma nonneg_np_cumsum_from (acc : xreal F) (l : list (xreal F)) :
  nonneg acc = true ->
  Forall (fun x => nonneg x = true) l ->
  Forall (fun x => nonneg x = true) (np_cumsum_from acc l).
Proof.
  intros Hacc Hl. revert acc Hacc.
  induction Hl as [| x l Hx _ IH]; intros acc Hacc; cbn; constructor.
  - now apply nonneg_xadd.
  - apply IH. now apply nonneg_xadd.
Qed.

Lemma nonneg_np_cumsum (l : list (xreal F)) :
  Forall (fun x => nonneg x = true) l ->
  Forall (fun x => nonneg x = true) (np_cumsum l).
Proof.
  intro Hl. destruct Hl as [| x l Hx Hl]; cbn; constructor; auto.
  now apply nonneg_np_cumsum_from.
Qed.

Lemma nonneg_cumsum_values (l : list (xreal F)) :
  Forall (fun x => nonneg x = true) l ->
  Forall (fun x => nonneg x = true) (cumsum_values l).
Proof.
  intro Hl. rewrite cumsum_values_no_nan.
  - now apply nonneg_np_cumsum.
  - eapply Forall_impl; [| exact Hl]. apply nonneg_not_nan.
Qed.

Lemma nonneg_fold_xadd (l : list (xreal F)) (acc : xreal F) :
  nonneg acc = true ->
  Forall (fun x => nonneg x = true) l ->
  nonneg (fold_left xadd l acc) = true.
Proof.
  intros Hacc Hl. revert acc Hacc.
  induction Hl as [| x l Hx _ IH]; intros acc Hacc; cbn; auto.
  apply IH. now apply nonneg_xadd.
Qed.

Lemma rnd_fsum_nonneg (l : list F) :
  Forall (fun x => f_leb f0 x = true) l -> f_leb f0 (fsum l) = true.
Proof.
  intro Hl. unfold fsum.
  assert (Hgen : forall acc, f_leb f0 acc = true ->
                             f_leb f0 (fold_left fadd l acc) = true).
  { induction Hl as [| x l Hx _ IH]; intros acc Hacc; cbn; auto.
    apply IH. now apply rnd_fadd_nonneg. }
  apply Hgen. apply rnd_leb_refl.
Qed.

(** The largest entry of a group that is not empty and has no missing
    entry is one of its entries. *)
Lemma nanmax_keeps (P : xreal F -> Prop) (l : list (xreal F)) :
  l <> [] ->
  Forall (fun x => isnan x = false /\ P x) l ->
  P (nanmax l).
Proof.
  intros Hne Hl. unfold nanmax.
  assert (Hgen : forall (m : list (xreal F)) (acc : xreal F),
             Forall (fun x => isnan x = false /\ P x) m ->
             P acc ->
             P (fold_left (fun acc x =>
                             if isnan x then acc
                             else if isnan acc then x
                             else xmax acc x) m acc)).
  { induction m as [| x m IH]; intros acc Hm Hacc; cbn; auto.
    apply Forall_cons_iff in Hm. destruct Hm as [[Hx HPx] Hm].
    apply IH; [exact Hm |]. rewrite Hx.
    destruct (isnan acc); [exact HPx |].
    unfold xmax. now destruct (xleb acc x). }
  destruct Hl as [| x l [Hx HPx] Hl]; [contradiction |].
  cbn [fold_left]. rewrite Hx. cbn [isnan]. now apply Hgen.
Qed.
End Nonnegative.

Section LikelihoodTerms.
Context {X T F : Type} `{TimeLaws T} `{Number F} {RL : RoundedLaws F}
        `{Transcendental F} {EL : FloatExpLaws F} `{External X T F}.

Lemma nonneg_xexp (g : xreal F) :
  isnan g = false -> nonneg (xexp g) = true.
Proof.
  destruct g as [x | | |]; cbn; try discriminate; auto.
  - intros _. destruct (exp_overflows x); [reflexivity |].
    cbn. apply fexp_nonneg.
  - intros _. apply rnd_leb_refl.
Qed.

Lemma in_combine_exists {A B} (l : list A) (m : list B) (a : A) :
  length m = length l -> In a l -> exists b, In (a, b) (combine l m).
Proof.
  revert m. induction l as [| x l IH]; intros [| y m] Hlen Ha;
    cbn in *; try discriminate; try contradiction.
  destruct Ha as [-> | Ha].
  - exists y. now left.
  - destruct (IH m) as (b & Hb); auto. exists b. now right.
Qed.

(** [transform('max')] hands every row an entry of the column. *)
Lemma groupby_transform_max_nonneg (keys : list T) (col : list (xreal F)) :
  length col = length keys ->
  Forall (fun x => nonneg x = true) col ->
  Forall (fun x => nonneg x = true) (groupby_transform_max keys col).
Proof.
  intros Hlen Hcol. unfold groupby_transform_max.
  apply Forall_map, Forall_forall. intros k Hk.
  apply (nanmax_keeps (fun x => nonneg x = true)).
  - destruct (in_combine_exists keys col k Hlen Hk) as (c & Hc).
    intro Hnil.
    assert (Hin : In c (map snd (filter (fun kc : T * xreal F =>
                                           t_eqb (fst kc) k)
                                        (combine keys col)))).
    { apply in_map_iff. exists (k, c). split; [reflexivity |].
      apply filter_In. split; [exact Hc |]. now apply t_eqb_eq. }
    rewrite Hnil in Hin. contradiction.
  - apply Forall_map, Forall_forall. intros kc Hkc.
    apply filter_In in Hkc. destruct Hkc as [Hkc _].
    destruct kc as [k' c]. apply in_combine_r in Hkc. cbn [snd].
    rewrite Forall_forall in Hcol.
    split; [apply nonneg_not_nan |]; now apply Hcol.
Qed.

(** A finite score less the logarithm of a sum that is not negative is a
    number: finite, [+inf] when the sum is zero, [-inf] when it is
    infinite. *)
Lemma term_not_nan (g : F) (c : xreal F) :
  nonneg c = true -> isnan (xsub (Fin g) (xlog c)) = false.
Proof.
  destruct c as [x | | |]; cbn; try discriminate; auto.
  intro Hx. unfold fsign. rewrite Hx.
  now destruct (f_eqb x f0).
Qed.

(** X19.  For finite scores [partial_log_likelihood] returns, and no
    term of the series is [NaN]: every term is a finite score less the
    logarithm of a sum of exponentials, and that sum is a number that is
    not negative (zero when every exponential under it underflows,
    [+inf] when one overflows), so the term is finite, [+inf] or
    [-inf].  This uses of the exponential only that it is never
    negative, and of addition only that it keeps the order. *)
Theorem partial_log_likelihood_terms_not_nan :
  forall (self : model X T F) (input : X) (durations : list T)
         (events gs : list F) (g_preds : option (list (xreal F))),
    klass self <> CoxBase ->
    length durations = length events ->
    length gs = length durations ->
    match g_preds with None => predict input | Some g => g end
    = map Fin gs ->
    exists pll : list (nat * xreal F),
      partial_log_likelihood self input (TargetTuple durations events) g_preds
      = Ok pll
      /\ Forall (fun p => exists (g : F) (c : xreal F),
                     In g gs /\ nonneg c = true
                     /\ snd p = xsub (Fin g) (xlog c)
                     /\ isnan (snd p) = false) pll.
Proof.
  intros self input durations events gs g_preds Hk Hde Hg Hpred.
  set (df := range_rows 0 durations events).
  assert (Hdf : length df = length durations).
  { unfold df. now apply length_range_rows. }
  set (df2 := sort_desc (fun r : row T F * xreal F => duration (fst r))
                        (combine df (map Fin gs))).
  set (c := groupby_transform_max
              (map (fun r : row T F * xreal F => duration (fst r)) df2)
              (cumsum_values (map (fun r : row T F * xreal F =>
                                     xexp (snd r)) df2))).
  exists (map (fun r : row T F * xreal F * xreal F =>
                 (label (fst (fst r)), xsub (snd (fst r)) (xlog (snd r))))
              (filter (fun r => f_eqb (event (fst (fst r))) f1)
                      (combine df2 c))).
  split.
  - unfold partial_log_likelihood. rewrite Hpred.
    assert (Hbody :
      rbind (target_to_df (TargetTuple durations events)) (fun df0 =>
        rbind (assign df0 (map Fin gs)) (fun df1 =>
          let df2 := sort_desc (fun r => duration (fst r)) df1 in
          let c := groupby_transform_max
                     (map (fun r => duration (fst r)) df2)
                     (cumsum_values (map (fun r => xexp (snd r)) df2)) in
          let df3 := combine df2 c in
          let df4 := filter (fun r => f_eqb (event (fst (fst r))) f1) df3 in
          Ok (map (fun r => (label (fst (fst r)),
                             xsub (snd (fst r)) (xlog (snd r)))) df4)))
      = Ok (map (fun r : row T F * xreal F * xreal F =>
                   (label (fst (fst r)), xsub (snd (fst r)) (xlog (snd r))))
                (filter (fun r => f_eqb (event (fst (fst r))) f1)
                        (combine df2 c)))).
    { unfold target_to_df. rewrite Hde, Nat.eqb_refl. cbn [rbind].
      fold df. unfold assign. rewrite Hdf, length_map, Hg, Nat.eqb_refl.
      reflexivity. }
    destruct (klass self); [contradiction | exact Hbody | exact Hbody].
  - assert (Hrows : forall r, In r df2 -> exists g, In g gs /\ snd r = Fin g).
    { intros r Hr. unfold df2 in Hr.
      apply (Permutation_in _ (sort_desc_perm _ _)) in Hr.
      destruct r as [r0 g0]. apply in_combine_r in Hr.
      apply in_map_iff in Hr. destruct Hr as (g & <- & Hin).
      now exists g. }
    assert (Hc : Forall (fun x => nonneg x = true) c).
    { unfold c. apply groupby_transform_max_nonneg.
      - unfold cumsum_values.
        rewrite length_zip_with_min, length_np_cumsum, !length_map.
        apply Nat.min_id.
      - apply nonneg_cumsum_values, Forall_map, Forall_forall.
        intros r Hr. destruct (Hrows r Hr) as (g & _ & ->).
        now apply nonneg_xexp. }
    apply Forall_map, Forall_forall. intros r Hr. cbn [snd].
    apply filter_In in Hr. destruct Hr as [Hr _].
    destruct r as [r1 c1].
    pose proof (in_combine_l _ _ _ _ Hr) as Hr1.
    pose proof (in_combine_r _ _ _ _ Hr) as Hc1.
    destruct (Hrows r1 Hr1) as (g & Hgin & Hgeq).
    rewrite Forall_forall in Hc. specialize (Hc c1 Hc1).
    exists g, c1. cbn [fst snd]. rewrite Hgeq.
    repeat split; auto. now apply term_not_nan.
Qed.
End LikelihoodTerms.

Lemma partial_log_likelihood_terms_not_nan_witness :
  exists pll : list (nat * xreal R),
    partial_log_likelihood fresh_model cohort_scores
                           (TargetTuple cohort_durations cohort_events) None
    = Ok pll
    /\ Forall (fun p => exists (g : R) (c : xreal R),
                   In g [0; 0; ln 2]%R /\ nonneg c = true
                   /\ snd p = xsub (Fin g) (xlog c)
                   /\ isnan (snd p) = false) pll.
Proof.
  apply (partial_log_likelihood_terms_not_nan
           (X := list (xreal R)) (T := Z) (F := R)
           fresh_model cohort_scores cohort_durations cohort_events
           [0; 0; ln 2]%R None).
  - discriminate.
  - reflexivity.
  - reflexivity.
  - reflexivity.
Defined.

Section HazardSign.
Context {X T F : Type} `{TimeLaws T} `{Number F} {RL : RoundedLaws F}
        `{Transcendental F} {EL : FloatExpLaws F} `{External X T F}.

Lemma Forall_zip_with {A B C} (P : C -> Prop) (f : A -> B -> C)
      (l : list A) (m : list B) :
  (forall a b, In a l -> In b m -> P (f a b)) ->
  Forall P (zip_with f l m).
Proof.
  revert m. induction l as [| a l IH]; intros [| b m] Hf; cbn;
    constructor.
  - apply Hf; now left.
  - apply IH. intros a' b' Ha' Hb'. apply Hf; now right.
Qed.

(** The sum of the exponentials of a group is not negative. *)
Lemma sum_expg_nonneg (df : list (row T F)) (expg : list (xreal F)) (t : T) :
  Forall (fun x => nonneg x = true) expg ->
  nonneg (sum_expg df expg t) = true.
Proof.
  intro He. unfold sum_expg, xsum.
  apply nonneg_fold_xadd; [apply nonneg_zero |].
  apply Forall_map, Forall_forall. intros [r e] Hre.
  apply filter_In in Hre. destruct Hre as [Hre _].
  apply in_combine_r in Hre. cbn [snd].
  rewrite Forall_forall in He. now apply He.
Qed.

Lemma num_events_nonneg (df : list (row T F)) (t : T) :
  Forall (fun r => f_leb f0 (event r) = true) df ->
  f_leb f0 (num_events df t) = true.
Proof.
  intro Hev. unfold num_events. apply rnd_fsum_nonneg.
  apply Forall_map, Forall_forall. intros r Hr.
  apply filter_In in Hr. destruct Hr as [Hr _].
  rewrite Forall_forall in Hev. now apply Hev.
Qed.

(** The running total keeps the durations and the event counts of the
    rows and puts a number that is not negative next to them. *)
Lemma assign_cumsum_expg_rows (rows : list (T * (xreal F * F))) :
  Forall (fun g => nonneg (fst (snd g)) = true) rows ->
  Forall (fun g' => nonneg (fst (snd g')) = true
                    /\ exists g, In g rows /\ fst g' = fst g
                                 /\ snd (snd g') = snd (snd g))
         (assign_cumsum_expg rows).
Proof.
  intro Hrows. unfold assign_cumsum_expg.
  apply Forall_zip_with. intros g c Hg Hc. cbn [fst snd].
  split; [| now exists g].
  assert (Hall : Forall (fun x => nonneg x = true)
                        (cumsum_values
                           (map (fun g0 : T * (xreal F * F) => fst (snd g0))
                                rows))).
  { apply nonneg_cumsum_values, Forall_map. exact Hrows. }
  rewrite Forall_forall in Hall. now apply Hall.
Qed.

(** An event count that is not negative over a sum that is not negative,
    with the missing quotient [0/0] filled in. *)
Lemma hazard_entry_nonneg (d : F) (c : xreal F) :
  f_leb f0 d = true -> nonneg c = true ->
  nonneg (fillna0 (xdiv (Fin d) c)) = true
  /\ (d = f0 -> fillna0 (xdiv (Fin d) c) = Fin f0).
Proof.
  intros Hd Hc. destruct c as [y | | |]; try discriminate.
  - cbn in Hc. cbn [xdiv]. destruct (f_eqb y f0) eqn:Hy.
    + unfold fsign. rewrite Hd. split.
      * destruct (f_eqb d f0); cbn; [apply rnd_leb_refl | reflexivity].
      * intros ->. now rewrite rnd_eqb_0_0.
    + cbn. split; [now apply rnd_div_nonneg |].
      intros ->. now rewrite rnd_div_0.
  - cbn. split; [apply rnd_leb_refl | reflexivity].
Qed.

(** X20.  For scores that are not missing and event indicators that are
    not negative, [_compute_baseline_hazards] returns a series in which
    no hazard is negative or missing: every entry is a finite number
    that is not negative, or [+inf] (events over a risk set whose
    exponentials all underflow), and it is zero at a duration without
    an observed event.  This uses of the exponential only that it is
    never negative, and of the arithmetic only that rounding keeps the
    order. *)
Theorem baseline_hazards_nonnegative :
  forall (self : model X T F) (input : X) (df : list (row T F))
         (max_duration : option T),
    klass self <> CoxBase ->
    length (predict input) = length df ->
    Forall (fun g => isnan g = false) (predict input) ->
    Forall (fun r => f_leb f0 (event r) = true) df ->
    exists b : @Series T F,
      _compute_baseline_hazards self input df max_duration = Ok b
      /\ Forall (fun p => nonneg (snd p) = true
                          /\ (num_events df (fst p) = f0 ->
                              snd p = Fin f0)) b.
Proof.
  intros self input df md Hk Hlen Hnan Hev.
  set (expg := map xexp (predict input)).
  assert (He : Forall (fun x => nonneg x = true) expg).
  { apply Forall_map. eapply Forall_impl; [| exact Hnan].
    intros g Hgn. now apply nonneg_xexp. }
  assert (He' : Forall (fun x => no_nan_ninf x = true) expg).
  { apply Forall_map. eapply Forall_impl; [| exact Hnan].
    apply xexp_no_nan_ninf. }
  assert (Hlen' : length df = length expg).
  { unfold expg. now rewrite length_map. }
  set (rows := rev (map (fun t => (t, (sum_expg df expg t, num_events df t)))
                        (group_keys (map (@duration T F) df)))).
  exists (filter (fun p => le_max_duration md (fst p))
                 (rev (fillna (events_over_expg (assign_cumsum_expg rows))))).
  split.
  - assert (Hbody :
      rbind (assign df expg) (fun df0 =>
        Ok (filter (fun p => le_max_duration md (fst p))
              (rev (fillna (events_over_expg (assign_cumsum_expg
                 (sort_desc fst (groupby_agg_sum df0))))))))
      = Ok (filter (fun p => le_max_duration md (fst p))
              (rev (fillna (events_over_expg (assign_cumsum_expg rows)))))).
    { unfold assign. rewrite Hlen', Nat.eqb_refl. cbn [rbind].
      rewrite groupby_agg_sum_spec by assumption.
      rewrite sort_desc_ascending.
      2:{ apply StronglySorted_map. cbn [fst]. apply group_keys_sorted. }
      reflexivity. }
    unfold _compute_baseline_hazards. fold expg.
    destruct (klass self); [contradiction | exact Hbody | exact Hbody].
  - assert (Hrows : Forall (fun g => nonneg (fst (snd g)) = true) rows).
    { unfold rows. apply Forall_rev, Forall_map, Forall_forall.
      intros t _. cbn [fst snd]. now apply sum_expg_nonneg. }
    pose proof (assign_cumsum_expg_rows rows Hrows) as Hcum.
    apply Forall_forall. intros p Hp.
    apply filter_In in Hp. destruct Hp as [Hp _].
    apply in_rev in Hp. unfold fillna, events_over_expg in Hp.
    rewrite map_map in Hp. apply in_map_iff in Hp.
    destruct Hp as (g' & <- & Hg'). cbn [fst snd].
    rewrite Forall_forall in Hcum.
    destruct (Hcum g' Hg') as (Hc & g & Hg & Hfst & Hsnd).
    unfold rows in Hg. apply in_rev in Hg. apply in_map_iff in Hg.
    destruct Hg as (t & <- & _). cbn [fst snd] in Hfst, Hsnd.
    rewrite Hfst, Hsnd.
    apply hazard_entry_nonneg; [now apply num_events_nonneg | exact Hc].
Qed.
End HazardSign.

Lemma baseline_hazards_nonnegative_witness :
  exists b : list (Z * xreal R),
    _compute_baseline_hazards fresh_model cohort_scores cohort_df None = Ok b
    /\ Forall (fun p => nonneg (snd p) = true
                        /\ (num_events cohort_df (fst p) = 0%R ->
                            snd p = Fin 0%R)) b.
Proof.
  destruct (baseline_hazards_nonnegative
              (X := list (xreal R)) (T := Z) (F := R)
              fresh_model cohort_scores cohort_df None)
    as (b & Hb & Hall).
  - discriminate.
  - reflexivity.
  - repeat constructor.
  - unfold cohort_df, cohort_durations, cohort_events. cbn [range_rows].
    repeat constructor; apply R_leb_le; cbn; lra.
  - exists b. split; [exact Hb | exact Hall].
Defined.


(** One subject with an event at duration 1: the hazard is the event
    count over the exponential of the score. *)
Lemma lone_event_hazard (E : Transcendental R) (g : xreal R) :
  isnan g = false ->
  _compute_baseline_hazards (H1 := E) fresh_model [g] lone_event_df None
  = Ok [(1%Z, fillna0 (xdiv (Fin (0 + 1)%R)
                            (xadd (Fin 0%R) (xadd (Fin 0%R) (xexp g)))))].
Proof.
  intro Hg.
  rewrite _compute_baseline_hazards_spec;
    [| discriminate | reflexivity | now repeat constructor].
  reflexivity.
Qed.

(** The two ends of the range: a score so low that its exponential
    underflows gives the hazard [+inf] at a duration with an event, one
    so high that it overflows gives the hazard 0. *)
Example baseline_hazards_at_the_ends :
  _compute_baseline_hazards (H1 := float_exp) fresh_model [Fin (-1000)%R]
                            lone_event_df None
  = Ok [(1%Z, PInf)]
  /\ _compute_baseline_hazards (H1 := float_exp) fresh_model [Fin 1000%R]
                               lone_event_df None
     = Ok [(1%Z, Fin 0%R)].
Proof.
  assert (Hu : @xexp R R_Number float_exp (Fin (-1000)%R) = Fin 0%R)
    by (apply float_exp_underflow; lra).
  assert (Ho : @xexp R R_Number float_exp (Fin 1000%R) = PInf)
    by (apply float_exp_overflow; lra).
  split; rewrite lone_event_hazard by reflexivity.
  - rewrite Hu. cbn [xadd fadd R_Number xdiv f_eqb f0].
    destruct (Req_dec_T (0 + (0 + 0)) 0); [| lra].
    unfold fsign. cbn [f_eqb f_leb f0 R_Number].
    destruct (Req_dec_T (0 + 1) 0); [lra |].
    destruct (Rle_dec 0 (0 + 1)); [| lra].
    reflexivity.
  - rewrite Ho. reflexivity.
Qed.

(* ================================================================== *)
(** ** The cutoff [max_duration] *)

Section Cutoff.
Context {X T F : Type} `{TimeLaws T} `{Number F} `{Transcendental F}
        `{External X T F}.

Lemma filter_all {A} (l : list A) : filter (fun _ => true) l = l.
Proof. induction l; cbn; congruence. Qed.

Lemma zip_with_firstn {A B C} (f : A -> B -> C) (k : nat) (l : list A)
      (m : list B) :
  zip_with f (firstn k l) (firstn k m) = firstn k (zip_with f l m).
Proof.
  revert l m. induction k as [| k IH]; intros [| a l] [| b m]; cbn;
    try reflexivity.
  now rewrite IH.
Qed.

Lemma np_cumsum_from_firstn (k : nat) (acc : xreal F) (l : list (xreal F)) :
  np_cumsum_from acc (firstn k l) = firstn k (np_cumsum_from acc l).
Proof.
  revert acc l. induction k as [| k IH]; intros acc [| x l]; cbn;
    try reflexivity.
  now rewrite IH.
Qed.

Lemma cumsum_values_firstn (k : nat) (l : list (xreal F)) :
  cumsum_values (firstn k l) = firstn k (cumsum_values l).
Proof.
  unfold cumsum_values. rewrite <- zip_with_firstn. f_equal.
  rewrite <- firstn_map.
  destruct k as [| k]; [reflexivity |].
  destruct l as [| x l]; [reflexivity |].
  cbn [map firstn np_cumsum]. now rewrite np_cumsum_from_firstn.
Qed.

(** The running total of a prefix is the prefix of the running total. *)
Lemma cumsum_firstn (k : nat) (s : @Series T F) :
  cumsum (firstn k s) = firstn k (cumsum s).
Proof.
  unfold cumsum, index, values.
  rewrite <- !firstn_map, cumsum_values_firstn.
  symmetry. apply combine_firstn.
Qed.

(** On an index in ascending order the cutoff keeps a prefix. *)
Lemma cutoff_is_prefix (m : T) (ix : list T) :
  is_monotonic_increasing ix = true ->
  exists k,
    forall (A : Type) (l : list (T * A)),
      map fst l = ix ->
      filter (fun p => le_max_duration (Some m) (fst p)) l = firstn k l.
Proof.
  intro Hm. apply is_monotonic_increasing_sorted in Hm.
  induction Hm as [| a ix Hs IH Hall].
  - exists 0%nat. intros A [| p l] Hl; [reflexivity | discriminate].
  - destruct (t_leb a m) eqn:Ham.
    + destruct IH as (k & Hk). exists (S k).
      intros A [| p l] Hl; [discriminate |].
      cbn in Hl. injection Hl as Hp Hl.
      cbn [filter firstn le_max_duration]. rewrite Hp, Ham.
      f_equal. now apply Hk.
    + exists 0%nat. intros A l Hl. cbn [firstn].
      apply filter_nil. intros p Hp. cbn [le_max_duration].
      assert (Hin : In (fst p) (a :: ix)).
      { rewrite <- Hl. now apply in_map. }
      destruct Hin as [<- | Hin]; [exact Ham |].
      rewrite Forall_forall in Hall. specialize (Hall _ Hin). cbn beta in Hall.
      destruct (t_leb (fst p) m) eqn:Hpm; [| reflexivity].
      rewrite (t_leb_trans _ _ _ Hall Hpm) in Ham. discriminate.
Qed.

Lemma cumsum_cutoff (m : T) (b : @Series T F) :
  is_monotonic_increasing (index b) = true ->
  cumsum (filter (fun p => le_max_duration (Some m) (fst p)) b)
  = filter (fun p => le_max_duration (Some m) (fst p)) (cumsum b).
Proof.
  intro Hm. destruct (cutoff_is_prefix m (index b) Hm) as (k & Hk).
  rewrite (Hk _ b eq_refl).
  rewrite (Hk _ (cumsum b) (index_cumsum b)).
  apply cumsum_firstn.
Qed.

Lemma _compute_baseline_hazards_cutoff
      (self : model X T F) (x : X) (df : list (row T F)) (m : T) :
  _compute_baseline_hazards self x df (Some m)
  = rmap (filter (fun p => le_max_duration (Some m) (fst p)))
         (_compute_baseline_hazards self x df None).
Proof.
  unfold _compute_baseline_hazards.
  destruct (klass self); [reflexivity | |];
    (destruct (assign df (map xexp (predict x))) as [df0 | e];
     [| reflexivity]);
    cbn [rbind rmap le_max_duration]; now rewrite filter_all.
Qed.

(** The run with a cutoff in terms of the run without. *)
Lemma compute_baseline_hazards_cutoff
      (input : option X) (target : target_arg T F) (m : T)
      (sample : option F) (set_hazards : bool) (self : model X T F) :
  compute_baseline_hazards input target (Some m) sample set_hazards self
  = match compute_baseline_hazards input target None sample false self with
    | (Ok b, _) =>
        let b' := filter (fun p => le_max_duration (Some m) (fst p)) b in
        (Ok b', if set_hazards then with_hazards self b' else self)
    | (Raise e, _) => (Raise e, self)
    end.
Proof.
  unfold compute_baseline_hazards.
  do 2 erewrite (bind_ok get _ self self self eq_refl).
  destruct (match input, target with
            | None, TargetNone =>
                match training_data self with
                | Some d => ret d
                | None => raise ValueError
                end
            | _, _ => ret (input, target)
            end self) as [[it | e] s1] eqn:Hit.
  2:{ assert (s1 = self) as ->.
      { destruct input, target; try discriminate Hit.
        destruct (training_data self); [discriminate Hit |].
        now apply raise_inv in Hit. }
      do 2 erewrite (bind_raise _ _ _ _ _ Hit). reflexivity. }
  assert (s1 = self) as ->.
  { destruct input, target; try (now apply ret_inv in Hit).
    destruct (training_data self); [now apply ret_inv in Hit |].
    now apply raise_inv in Hit. }
  do 2 erewrite (bind_ok _ _ _ _ _ Hit). clear Hit.
  destruct (target_to_df (snd it)) as [df | e].
  2:{ do 2 erewrite (bind_raise (lift (Raise e)) _ self self e eq_refl).
      reflexivity. }
  do 2 erewrite (bind_ok (lift (Ok df)) _ self self df eq_refl).
  destruct (match sample with
            | Some s => lift (if f_leb f1 s then df_sample_n s df
                              else df_sample_frac s df)
            | None => ret df
            end self) as [[df0 | e] s1] eqn:Hs.
  2:{ assert (s1 = self) as ->.
      { destruct sample;
          [now apply lift_inv in Hs | now apply ret_inv in Hs]. }
      do 2 erewrite (bind_raise _ _ _ _ _ Hs). reflexivity. }
  assert (s1 = self) as ->.
  { destruct sample; [now apply lift_inv in Hs | now apply ret_inv in Hs]. }
  do 2 erewrite (bind_ok _ _ _ _ _ Hs). clear Hs.
  destruct (input_iloc (fst it) (map (@label T F) df0)) as [x0 | e].
  2:{ do 2 erewrite (bind_raise (lift (Raise e)) _ self self e eq_refl).
      reflexivity. }
  do 2 erewrite (bind_ok (lift (Ok x0)) _ self self x0 eq_refl).
  pose proof (_compute_baseline_hazards_monotonic self x0 df0 (Some m))
    as Hmono.
  rewrite _compute_baseline_hazards_cutoff in *.
  destruct (_compute_baseline_hazards self x0 df0 None) as [b | e].
  2:{ cbn [rmap].
      do 2 erewrite (bind_raise (lift (Raise e)) _ self self e eq_refl).
      reflexivity. }
  cbn [rmap] in *.
  erewrite (bind_ok (lift (Ok (filter _ b))) _ self self _ eq_refl).
  erewrite (bind_ok (lift (Ok b)) _ self self b eq_refl).
  destruct set_hazards; [| reflexivity].
  unfold bind, ret. rewrite cumulative_of_baseline_effect.
  rewrite (is_strictly_increasing_monotonic _ (Hmono _ eq_refl)).
  reflexivity.
Qed.

(** X21.  The cutoff [max_duration] only cuts: the baseline hazards
    computed with a cutoff are those computed without it, restricted to
    the durations up to the cutoff; and computing the hazards with the
    cutoff and predicting without one gives the same table (or raises
    the same exception) as computing them without a cutoff and
    predicting with it.  (When [sample] is given, the calls compared
    draw the same sample.) *)
Theorem cutoff_at_fit_or_at_prediction :
  forall (input : option X) (target : target_arg T F) (sample : option F)
         (self : model X T F) (x : X) (m : T),
    (forall (x0 : X) (df : list (row T F)),
        _compute_baseline_hazards self x0 df (Some m)
        = rmap (filter (fun p => t_leb (fst p) m))
               (_compute_baseline_hazards self x0 df None))
    /\ fst ((compute_baseline_hazards input target (Some m) sample true ;;;
             predict_cumulative_hazards (InputArray x) None None) self)
       = fst ((compute_baseline_hazards input target None sample true ;;;
               predict_cumulative_hazards (InputArray x) (Some m) None) self).
Proof.
  intros input target sample self x m.
  split; [intros x0 df; apply _compute_baseline_hazards_cutoff |].
  unfold bind.
  rewrite compute_baseline_hazards_cutoff, compute_baseline_hazards_set.
  destruct (compute_baseline_hazards input target None sample false self)
    as [[b | e] s'] eqn:Hrun; [| reflexivity].
  destruct (compute_baseline_hazards_source _ _ _ _ _ _ _ _ Hrun)
    as (x0 & df & Hb).
  pose proof (_compute_baseline_hazards_class _ _ _ _ _ Hb) as Hk.
  pose proof (is_strictly_increasing_monotonic
                _ (_compute_baseline_hazards_monotonic _ _ _ _ _ Hb)) as Hm.
  assert (Hb' : _compute_baseline_hazards self x0 df (Some m)
                = Ok (filter (fun p => le_max_duration (Some m) (fst p)) b)).
  { now rewrite _compute_baseline_hazards_cutoff, Hb. }
  pose proof (is_strictly_increasing_monotonic
                _ (_compute_baseline_hazards_monotonic _ _ _ _ _ Hb'))
    as Hm'.
  cbv zeta. rewrite Hm.
  rewrite (predict_cumulative_hazards_cached
             (with_hazards self _) _ _ x None None Hk eq_refl eq_refl
             (or_introl eq_refl)).
  rewrite (predict_cumulative_hazards_cached
             (with_hazards self b) _ _ x (Some m) None Hk eq_refl eq_refl
             (or_introl eq_refl)).
  rewrite Hm, Hm'. cbn [fst]. f_equal.
  unfold hazard_table. cbn [le_max_duration]. rewrite filter_all.
  change (fun p : T * xreal F => t_leb (fst p) m)
    with (fun p : T * xreal F => le_max_duration (Some m) (fst p)).
  now rewrite (cumsum_cutoff m b Hm).
Qed.
End Cutoff.

(** The cohort of the specification, cut off at duration 2. *)
Lemma cutoff_at_fit_or_at_prediction_witness :
  fst ((compute_baseline_hazards
          (Some cohort_scores) (TargetTuple cohort_durations cohort_events)
          (Some 2%Z) None true ;;;
        predict_cumulative_hazards (InputArray cohort_scores) None None)
         fresh_model)
  = fst ((compute_baseline_hazards
            (Some cohort_scores) (TargetTuple cohort_durations cohort_events)
            None None true ;;;
          predict_cumulative_hazards (InputArray cohort_scores) (Some 2%Z)
                                     None)
           fresh_model).
Proof.
  exact (proj2 (cutoff_at_fit_or_at_prediction
                  (Some cohort_scores)
                  (TargetTuple cohort_durations cohort_events)
                  None fresh_model cohort_scores 2%Z)).
Defined.

(* ================================================================== *)
(** ** Survival curves *)

Section SurvivalCurves.
Context {X T F : Type} `{TimeLaws T} `{Number F} {RL : RoundedLaws F}
        `{Transcendental F} {EL : FloatExpLaws F} `{External X T F}.

(** The running total of hazards that are not negative does not
    decrease. *)
Lemma np_cumsum_from_ascending (a : F) (hs : list F) :
  f_leb f0 a = true -> Forall (fun h => f_leb f0 h = true) hs ->
  exists Hs,
    np_cumsum_from (Fin a) (map Fin hs) = map Fin Hs
    /\ Forall (fun v => f_leb a v = true) Hs
    /\ StronglySorted (fun u v => f_leb u v = true) Hs.
Proof.
  intros Ha Hhs. revert a Ha.
  induction Hhs as [| h hs Hh _ IH]; intros a Ha.
  - exists []. repeat split; constructor.
  - pose proof (rnd_add_incr a h Hh) as Hah.
    destruct (IH (fadd a h) (rnd_leb_trans _ _ _ Ha Hah))
      as (Hs & Heq & Hge & Hsorted).
    exists (fadd a h :: Hs). cbn [map np_cumsum_from xadd].
    rewrite Heq. split; [reflexivity |]. split.
    + constructor; [exact Hah |].
      eapply Forall_impl; [| exact Hge]. cbn beta. intros v Hv.
      exact (rnd_leb_trans _ _ _ Hah Hv).
    + constructor; assumption.
Qed.

Lemma np_cumsum_ascending (hs : list F) :
  Forall (fun h => f_leb f0 h = true) hs ->
  exists Hs,
    np_cumsum (map Fin hs) = map Fin Hs
    /\ Forall (fun v => f_leb f0 v = true) Hs
    /\ StronglySorted (fun u v => f_leb u v = true) Hs.
Proof.
  intro Hhs. destruct Hhs as [| h hs Hh Hhs].
  - exists []. repeat split; constructor.
  - destruct (np_cumsum_from_ascending h hs Hh Hhs)
      as (Hs & Heq & Hge & Hsorted).
    exists (h :: Hs). cbn [map np_cumsum]. rewrite Heq.
    split; [reflexivity |]. split.
    + constructor; [exact Hh |].
      eapply Forall_impl; [| exact Hge]. cbn beta. intros v Hv.
      exact (rnd_leb_trans _ _ _ Hh Hv).
    + constructor; assumption.
Qed.

(** An exponential that is finite is not negative. *)
Lemma xexp_finite_nonneg (g : xreal F) :
  isfinite (xexp g) = true ->
  exists e : F, xexp g = Fin e /\ f_leb f0 e = true.
Proof.
  destruct g as [x | | |]; cbn; try discriminate.
  - destruct (exp_overflows x); [discriminate |].
    intros _. exists (fexp x). split; [reflexivity | apply fexp_nonneg].
  - intros _. exists f0. split; [reflexivity | apply rnd_leb_refl].
Qed.

(** [exp(-p)] for a finite [p] that is not negative: no overflow, and a
    value between 0 and 1. *)
Lemma xexp_opp_nonneg (p : F) :
  f_leb f0 p = true ->
  xexp (xopp (Fin p)) = Fin (fexp (fopp p))
  /\ f_leb (fopp p) f0 = true
  /\ f_leb f0 (fexp (fopp p)) = true
  /\ f_leb (fexp (fopp p)) f1 = true.
Proof.
  intro Hp.
  assert (Hle : f_leb (fopp p) f0 = true).
  { pose proof (rnd_opp_mono _ _ Hp) as Hm. now rewrite rnd_opp_0 in Hm. }
  repeat split; auto.
  - cbn. destruct (exp_overflows (fopp p)) eqn:Ho; [| reflexivity].
    apply exp_overflows_pos in Ho. unfold f_ltb in Ho.
    rewrite Hle in Ho. discriminate.
  - apply fexp_nonneg.
  - rewrite <- fexp_0. now apply fexp_mono.
Qed.

(** X22.  Survival curves fall.  On a model whose cached baseline
    hazards are finite and not negative, with durations in ascending
    order, and whose cumulative series is their running total,
    [predict_survival_function] for subjects whose [exp(g)] is finite
    returns a table in which every entry is a finite number between 0
    and 1 (0 when the exponential underflows) and, in every column, an
    entry of a later row is at most the entry of an earlier row.  This
    uses of the exponential only that it is monotone, never negative
    and 1 at 0, and of the arithmetic only that rounding keeps the
    order. *)
Theorem survival_curves_fall :
  forall (self : model X T F) (b : @Series T F) (hs : list F) (x : X)
         (max_duration : option T),
    klass self <> CoxBase ->
    baseline_hazards_ self = Some b ->
    baseline_cumulative_hazards_ self = Some (cumsum b) ->
    is_monotonic_increasing (index b) = true ->
    values b = map Fin hs ->
    Forall (fun h => f_leb f0 h = true) hs ->
    Forall (fun g => isfinite (xexp g) = true) (predict x) ->
    exists tb : table T F,
      predict_survival_function (InputArray x) max_duration None self
      = (Ok tb, self)
      /\ forall (i i' j : nat) (row row' : list (xreal F)) (s s' : xreal F),
          (i <= i')%nat ->
          nth_error (tb_values tb) i = Some row ->
          nth_error (tb_values tb) i' = Some row' ->
          nth_error row j = Some s ->
          nth_error row' j = Some s' ->
          exists u u' : F,
            s = Fin u /\ s' = Fin u'
            /\ f_leb f0 u' = true /\ f_leb u' u = true
            /\ f_leb u f1 = true.
Proof.
  intros self b hs x md Hk Hb Hc Hm Hvals Hhs Hpred.
  eexists. split.
  - unfold predict_survival_function, bind.
    rewrite (predict_cumulative_hazards_cached
               self b (cumsum b) x md None Hk Hb Hc (or_introl eq_refl)).
    rewrite Hm. reflexivity.
  - destruct (np_cumsum_ascending hs Hhs) as (Hs & HHs & Hnn & Hsorted).
    set (c' := filter (fun p => le_max_duration md (fst p)) (cumsum b)).
    assert (Hvc : map snd (cumsum b) = map Fin Hs).
    { fold (values (cumsum b)). rewrite values_cumsum, Hvals.
      rewrite cumsum_values_no_nan; [exact HHs |].
      apply Forall_map, Forall_forall. reflexivity. }
    set (Rel := fun a a' : xreal F =>
                  exists u u' : F, a = Fin u /\ a' = Fin u'
                                   /\ f_leb f0 u = true
                                   /\ f_leb u u' = true).
    assert (Hrel : StronglySorted Rel (map snd (cumsum b))).
    { rewrite Hvc. clear - Hnn Hsorted.
      induction Hsorted as [| v Hs Hsorted IH Hall]; [constructor |].
      apply Forall_cons_iff in Hnn. destruct Hnn as [Hv Hnn].
      cbn [map]. constructor; [auto |].
      apply Forall_map. eapply Forall_impl; [| exact Hall].
      cbn beta. intros v' Hv'. exists v, v'. repeat split; auto. }
    assert (Hrel' : StronglySorted Rel (values c')).
    { unfold c', values. now apply StronglySorted_map_snd_filter. }
    assert (Hfin : forall a, In a (values c') ->
                             exists u, a = Fin u /\ f_leb f0 u = true).
    { intros a Ha. unfold values, c' in Ha.
      apply in_map_iff in Ha. destruct Ha as (p & <- & Hp).
      apply filter_In in Hp. destruct Hp as [Hp _].
      apply (in_map snd) in Hp. rewrite Hvc in Hp.
      apply in_map_iff in Hp. destruct Hp as (u & <- & Hu).
      exists u. split; [reflexivity |].
      rewrite Forall_forall in Hnn. now apply Hnn. }
    intros i i' j row row' s s' Hii Hrow Hrow' Hs0 Hs0'.
    unfold np_exp_neg, hazard_table in Hrow, Hrow'.
    cbn [tb_values] in Hrow, Hrow'. fold c' in Hrow, Hrow'.
    unfold outer in Hrow, Hrow'.
    rewrite map_map, nth_error_map in Hrow, Hrow'.
    destruct (nth_error (values c') i) as [a |] eqn:Ha; [| discriminate].
    destruct (nth_error (values c') i') as [a' |] eqn:Ha'; [| discriminate].
    cbn [option_map] in Hrow, Hrow'.
    injection Hrow as <-. injection Hrow' as <-.
    rewrite !map_map, nth_error_map in Hs0, Hs0'.
    destruct (nth_error (predict x) j) as [g |] eqn:Hg; [| discriminate].
    cbn [option_map] in Hs0, Hs0'.
    injection Hs0 as <-. injection Hs0' as <-.
    assert (Hgfin : isfinite (xexp g) = true).
    { rewrite Forall_forall in Hpred. apply Hpred.
      eapply nth_error_In. exact Hg. }
    destruct (xexp_finite_nonneg g Hgfin) as (e & -> & He).
    assert (Hord : Rel a a').
    { destruct (Nat.eq_dec i i') as [<- | Hne].
      - rewrite Ha in Ha'. injection Ha' as <-.
        destruct (Hfin a (nth_error_In _ _ Ha)) as (u & -> & Hu).
        exists u, u. repeat split; auto. apply rnd_leb_refl.
      - apply (StronglySorted_nth_error Rel _ Hrel' i i'); auto. lia. }
    destruct Hord as (u & u' & -> & -> & Hu & Huu').
    pose proof (rnd_leb_trans _ _ _ Hu Huu') as Hu'.
    cbn [xmul].
    destruct (xexp_opp_nonneg (fmul u e) (rnd_mul_nonneg _ _ Hu He))
      as (Hx & _ & _ & Hone).
    destruct (xexp_opp_nonneg (fmul u' e) (rnd_mul_nonneg _ _ Hu' He))
      as (Hx' & _ & Hzero & _).
    exists (fexp (fopp (fmul u e))), (fexp (fopp (fmul u' e))).
    split; [exact Hx |]. split; [exact Hx' |].
    split; [exact Hzero |]. split; [| exact Hone].
    apply fexp_mono, rnd_opp_mono. now apply rnd_mul_mono.
Qed.
End SurvivalCurves.

(** The cohort of the specification with its hazards cached. *)
Lemma survival_curves_fall_witness :
  exists tb : table Z R,
    predict_survival_function (InputArray cohort_scores) None None
                              (with_hazards fresh_model cohort_baseline)
    = (Ok tb, with_hazards fresh_model cohort_baseline)
    /\ forall (i i' j : nat) (row row' : list (xreal R)) (s s' : xreal R),
        (i <= i')%nat ->
        nth_error (tb_values tb) i = Some row ->
        nth_error (tb_values tb) i' = Some row' ->
        nth_error row j = Some s ->
        nth_error row' j = Some s' ->
        exists u u' : R,
          s = Fin u /\ s' = Fin u'
          /\ f_leb 0%R u' = true /\ f_leb u' u = true
          /\ f_leb u 1%R = true.
Proof.
  destruct (survival_curves_fall
              (X := list (xreal R)) (T := Z) (F := R)
              (with_hazards fresh_model cohort_baseline) cohort_baseline
              [1 / 4; 1 / 2]%R cohort_scores None)
    as (tb & Hrun & Hall).
  - discriminate.
  - reflexivity.
  - reflexivity.
  - reflexivity.
  - reflexivity.
  - repeat constructor; apply R_leb_le; cbn; lra.
  - repeat constructor.
  - exists tb. split; [exact Hrun | exact Hall].
Defined.

(* ================================================================== *)
(** ** The abstract base class *)

Section AbstractBase.
Context {X T F : Type} `{Time T} `{Number F} `{Transcendental F}
        `{External X T F}.

Lemma compute_baseline_hazards_abstract
      (input : option X) (target : target_arg T F) (max_duration : option T)
      (sample : option F) (set_hazards : bool) (self : model X T F)
      (r : result (@Series T F)) (s' : model X T F) :
  klass self = CoxBase ->
  compute_baseline_hazards input target max_duration sample set_hazards self
  = (r, s') ->
  is_ok r = false.
Proof.
  intros Hk Hrun. destruct r as [b | e]; [| reflexivity].
  unfold compute_baseline_hazards in Hrun.
  apply bind_inv in Hrun as [(self0 & s1 & Hg & Hc) | (e & _ & Hx)];
    [| discriminate Hx].
  injection Hg as <- <-.
  apply bind_inv in Hc as [(it & s1 & _ & Hc) | (e & _ & Hx)];
    [| discriminate Hx].
  apply bind_inv in Hc as [(df & s2 & _ & Hc) | (e & _ & Hx)];
    [| discriminate Hx].
  apply bind_inv in Hc as [(df0 & s3 & _ & Hc) | (e & _ & Hx)];
    [| discriminate Hx].
  apply bind_inv in Hc as [(x0 & s4 & _ & Hc) | (e & _ & Hx)];
    [| discriminate Hx].
  apply bind_inv in Hc as [(b0 & s5 & Hb & Hc) | (e & _ & Hx)];
    [| discriminate Hx].
  apply lift_inv in Hb as [Hb _].
  unfold _compute_baseline_hazards in Hb. rewrite Hk in Hb. discriminate Hb.
Qed.

(** X23.  On a bare [CoxBase] nothing that needs the network succeeds:
    computing baseline hazards from data never returns a series,
    whatever the arguments, and the two cumulative-hazard predictions
    and the two survival predictions never return a table; each call
    leaves the model as it was.  Summing a given baseline series still
    works. *)
Theorem abstract_base_never_predicts :
  forall (self : model X T F),
    klass self = CoxBase ->
    (forall input target max_duration sample set_hazards,
        is_ok (fst (compute_baseline_hazards input target max_duration sample
                                             set_hazards self)) = false
        /\ snd (compute_baseline_hazards input target max_duration sample
                                         set_hazards self) = self)
    /\ (forall input max_duration baseline_hazards_,
           is_ok (fst (predict_cumulative_hazards input max_duration
                                                  baseline_hazards_ self))
           = false
           /\ is_ok (fst (predict_survival_function input max_duration
                                                    baseline_hazards_ self))
              = false)
    /\ (forall times input return_df baseline_hazards_,
           predict_cumulative_hazards_at_times times input return_df
                                               baseline_hazards_ self
           = (Raise NotImplementedError, self)
           /\ predict_survival_at_times times input return_df
                                        baseline_hazards_ self
              = (Raise NotImplementedError, self))
    /\ (forall (b : @Series T F) max_duration sample,
           is_monotonic_increasing (index b) = true ->
           compute_baseline_cumulative_hazards None TargetNone max_duration
                                               sample false (Some b) self
           = (Ok (cumsum b), self)).
Proof.
  intros self Hk. split; [| split; [| split]].
  - intros input target md sample sh.
    destruct (compute_baseline_hazards input target md sample sh self)
      as [r s'] eqn:Hrun. cbn [fst snd].
    pose proof (compute_baseline_hazards_abstract _ _ _ _ _ _ _ _ Hk Hrun)
      as Hr.
    split; [exact Hr |].
    apply compute_baseline_hazards_run in Hrun.
    destruct r; [discriminate Hr | exact Hrun].
  - intros input md bh.
    assert (Hp : is_ok (fst (predict_cumulative_hazards input md bh self))
                 = false).
    { destruct (predict_cumulative_hazards input md bh self)
        as [[tb | e] s'] eqn:Hrun; [| reflexivity].
      exfalso. unfold predict_cumulative_hazards in Hrun.
      apply bind_inv in Hrun as [(x & s1 & Hx & Hc) | (e & _ & Hx)];
        [| discriminate Hx].
      apply resolve_input_run in Hx. subst s1.
      apply bind_inv in Hc as [(self0 & s1 & Hg & Hc) | (e & _ & Hx)];
        [| discriminate Hx].
      injection Hg as <- <-.
      apply bind_inv in Hc as [(ref & s1 & Href & Hc) | (e & _ & Hx)];
        [| discriminate Hx].
      assert (s1 = self) as ->.
      { destruct bh; [now apply ret_inv in Href |].
        destruct (has_baseline_hazards_ self);
          [now apply ret_inv in Href | now apply raise_inv in Href]. }
      apply bind_inv in Hc as [(s & s1 & Hs & Hc) | (e & _ & Hx)];
        [| discriminate Hx].
      apply deref_run in Hs. subst s1.
      destruct (is_monotonic_increasing (index s)); [| discriminate Hc].
      unfold _predict_cumulative_hazards, bind at 1 in Hc. cbn [get] in Hc.
      rewrite Hk in Hc. discriminate Hc. }
    split; [exact Hp |].
    unfold predict_survival_function, bind.
    destruct (predict_cumulative_hazards input md bh self) as [[tb | e] s'];
      [discriminate Hp | reflexivity].
  - intros times input rd bh.
    assert (Hp : predict_cumulative_hazards_at_times times input rd bh self
                 = (Raise NotImplementedError, self)).
    { unfold predict_cumulative_hazards_at_times, bind at 1. cbn [get].
      now rewrite Hk. }
    split; [exact Hp |].
    unfold predict_survival_at_times, bind. now rewrite Hp.
  - intros b md sample Hm.
    unfold compute_baseline_cumulative_hazards.
    cbn [is_some target_is_none negb orb andb]. unfold bind at 1. cbn [ret].
    now rewrite cumulative_of_baseline_effect, Hm.
Qed.
End AbstractBase.

(** A [CoxBase] object with training data and cached hazards. *)
Lemma abstract_base_never_predicts_witness :
  predict_cumulative_hazards_at_times
    [2%Z] (InputArray cohort_scores) true None
    (mk_model CoxBase (Some (Some cohort_scores,
                             TargetTuple cohort_durations cohort_events))
              false (Some cohort_baseline) (Some (cumsum cohort_baseline)))
  = (Raise NotImplementedError,
     mk_model CoxBase (Some (Some cohort_scores,
                             TargetTuple cohort_durations cohort_events))
              false (Some cohort_baseline) (Some (cumsum cohort_baseline))).
Proof.
  exact (proj1 (proj1 (proj2 (proj2 (abstract_base_never_predicts
                   (mk_model CoxBase
                             (Some (Some cohort_scores,
                                    TargetTuple cohort_durations
                                                cohort_events))
                             false (Some cohort_baseline)
                             (Some (cumsum cohort_baseline)))
                   eq_refl)))
               [2%Z] (InputArray cohort_scores) true None)).
Defined.
